(** * TigerLine: the cross-shore wave profile of [PhysicsView.tsx]

    A shallow embedding of the numeric transform that
    [frontend/src/components/PhysicsView.tsx] runs on every render: the
    bathymetry grid, the detection of the breaking point, the wave envelope
    and the trigonometric wave surface, together with the unit conversion of
    [UnitContext].

    Numbers.  A JavaScript [number] is read as a real number: rounding, NaN
    and the infinities are outside the model.  The one place where the source
    writes [Infinity] (the guard [closestBefore.x || Infinity]) is modelled
    by the comparison it produces, see [lt_or_Infinity].  Tests on numbers
    are booleans obtained from the decidable order of [R]; on concrete
    inputs they are evaluated with the tactic [js_eval]. *)

From Stdlib Require Import Reals Lra Lia List Bool Arith Permutation Sorted.
Import ListNotations.

Local Open Scope R_scope.

(* ================================================================== *)
(** ** Numbers and JavaScript truthiness *)
(* ================================================================== *)

Definition num_le (a b : R) : bool := if Rle_dec a b then true else false.
Definition num_lt (a b : R) : bool := if Rlt_dec a b then true else false.
Definition num_eq (a b : R) : bool := if Req_dec_T a b then true else false.

(** [truthy v]: a number is falsy exactly when it is 0 (NaN is not modelled). *)
Definition truthy (v : R) : bool := negb (num_eq v 0).

(** [v || d] on a number [v]. *)
Definition js_or (v d : R) : R := if truthy v then v else d.

(** [v < (w || Infinity)]: every number is below [Infinity], so a falsy [w]
    makes the test succeed. *)
Definition lt_or_Infinity (v w : R) : bool :=
  if truthy w then num_lt v w else true.

(** [Math.abs], [Math.max], [Math.min] are [Rabs], [Rmax], [Rmin]. *)

(* ================================================================== *)
(** ** Data *)
(* ================================================================== *)

(** [interface ShoalingPathPoint]; only the fields the transform reads are
    kept ([theta_rad], [theta_deg], [cg], [Ksr] are never read by it).  The
    fields [x], [h], [H], [c] carry a prefix. *)
Record ShoalingPathPoint : Type := mkPoint {
  pt_x : R;   (* distance from shore, m *)
  pt_h : R;   (* depth, m *)
  pt_H : R;   (* wave height, m *)
  pt_c : R    (* phase speed, m/s *)
}.

(** The object literal stored in [breakingPointFromPhysics]. *)
Record BreakingPoint : Type := mkBreaking {
  bp_x : R;
  bp_h : R;
  bp_H : R;
  bp_c : R
}.

(** An element of [bathymetryFromPhysics]. *)
Record BathyPoint : Type := mkBathy {
  bathy_x : R;
  bathy_h : R
}.

(** An element of [visualizationDataMeters] / [visualizationData];
    [null] is [None]. *)
Record VisPoint : Type := mkVis {
  vis_x : R;
  bathymetryY : R;
  waveCrestY : option R;
  waveTroughY : option R;
  waterSurfaceY : R
}.

(** An element of [waveShapeData]. *)
Record WavePoint : Type := mkWave {
  wave_x : R;
  wave_y : R
}.

(** [type UnitSystem = 'metric' | 'imperial'] *)
Inductive UnitSystem : Type := metric | imperial.

(* ================================================================== *)
(** ** UnitContext: [convertHeight], [convertDistance] (the [value] field) *)
(* ================================================================== *)

Definition convertHeight (units : UnitSystem) (meters : R) : R :=
  match units with
  | metric => meters
  | imperial => meters * (328084 / 100000)
  end.

Definition convertDistance (units : UnitSystem) (meters : R) : R :=
  match units with
  | metric => meters
  | imperial => meters * (328084 / 100000)
  end.

(* ================================================================== *)
(** ** Constants of [PhysicsView] *)
(* ================================================================== *)

Definition MAX_DISTANCE_M : R := 152.
Definition MIN_DISTANCE_M : R := -6.
Definition MAX_DISTANCE (units : UnitSystem) : R := convertDistance units MAX_DISTANCE_M.
Definition MIN_DISTANCE (units : UnitSystem) : R := convertDistance units MIN_DISTANCE_M.
Definition GAMMA_B : R := 78 / 100.
Definition numBathyPoints : nat := 20.
Definition numPoints : nat := 600.

(* ================================================================== *)
(** ** Array.prototype.sort with a numeric comparator

    [sort] is stable; it is modelled by a stable insertion sort: [a] is put
    in front of the first element [y] with [cmp a y <= 0]. *)
(* ================================================================== *)

Section Sort.
Context {A : Type}.
Variable cmp : A -> A -> R.

Fixpoint sort_insert (a : A) (l : list A) : list A :=
  match l with
  | [] => [a]
  | y :: l' => if num_le (cmp a y) 0 then a :: l else y :: sort_insert a l'
  end.

Fixpoint js_sort (l : list A) : list A :=
  match l with
  | [] => []
  | a :: l' => sort_insert a (js_sort l')
  end.

(** The order the comparator induces. *)
Definition cmp_le (a b : A) : Prop := cmp a b <= 0.
End Sort.

(* ================================================================== *)
(** ** The bounding samples of a target distance

    The loop [for (const p of shoalingPath)] that sets [closestBefore] and
    [closestAfter]; the same text occurs three times in the source (for
    [h_interp], for [H_surf] and inside the wave-surface loop). *)
(* ================================================================== *)

Definition Bounds : Type := (option ShoalingPathPoint * option ShoalingPathPoint)%type.

Definition step_before (x_m : R) (closestBefore : option ShoalingPathPoint)
    (p : ShoalingPathPoint) : option ShoalingPathPoint :=
  if num_le x_m (js_or (pt_x p) 0) then
    match closestBefore with
    | None => Some p
    | Some b => if lt_or_Infinity (js_or (pt_x p) 0) (pt_x b) then Some p else closestBefore
    end
  else closestBefore.

Definition step_after (x_m : R) (closestAfter : option ShoalingPathPoint)
    (p : ShoalingPathPoint) : option ShoalingPathPoint :=
  if num_le (js_or (pt_x p) 0) x_m then
    match closestAfter with
    | None => Some p
    | Some a => if num_lt (js_or (pt_x a) 0) (js_or (pt_x p) 0) then Some p else closestAfter
    end
  else closestAfter.

Definition bounds_step (x_m : R) (st : Bounds) (p : ShoalingPathPoint) : Bounds :=
  (step_before x_m (fst st) p, step_after x_m (snd st) p).

(** [(closestBefore, closestAfter)] after the loop. *)
Definition closestBounds (shoalingPath : list ShoalingPathPoint) (x_m : R) : Bounds :=
  fold_left (bounds_step x_m) shoalingPath (None, None).

(** The branch of the [if / else if / else if / else] chain that follows the
    loop.  Only [Blend] divides. *)
Inductive InterpBranch : Type :=
| Blend (closestBefore closestAfter : ShoalingPathPoint)
| Direct (s : ShoalingPathPoint)
| NoBound.

Definition interp_branch (bd : Bounds) : InterpBranch :=
  match bd with
  | (Some b, Some a) => if negb (num_eq (pt_x b) (pt_x a)) then Blend b a else Direct b
  | (Some b, None) => Direct b
  | (None, Some a) => Direct a
  | (None, None) => NoBound
  end.

(** [t = (x_m - (closestAfter.x || 0)) / ((closestBefore.x || 0) - (closestAfter.x || 0))] *)
Definition blend_t (x_m : R) (b a : ShoalingPathPoint) : R :=
  (x_m - js_or (pt_x a) 0) / (js_or (pt_x b) 0 - js_or (pt_x a) 0).

(** The fields as the source reads them. *)
Definition h_of (p : ShoalingPathPoint) : R := js_or (pt_h p) 0.
Definition H_of (p : ShoalingPathPoint) : R := js_or (pt_H p) 0.
Definition c_of (p : ShoalingPathPoint) : R := js_or (pt_c p) 10.

(** The value the chain assigns for a field read by [f]; [fallback] is the
    value of the variable when no branch assigns it. *)
Definition interp_value (f : ShoalingPathPoint -> R) (fallback : R) (x_m : R)
    (br : InterpBranch) : R :=
  match br with
  | Blend b a => f a + blend_t x_m b a * (f b - f a)
  | Direct s => f s
  | NoBound => fallback
  end.

(** The loop followed by the chain: the interpolation of one field. *)
Definition interpolate (f : ShoalingPathPoint -> R) (fallback : R)
    (shoalingPath : list ShoalingPathPoint) (x_m : R) : R :=
  interp_value f fallback x_m (interp_branch (closestBounds shoalingPath x_m)).

(** Lines 94-122: the depth at [x_m]. *)
Definition h_interp (shoalingPath : list ShoalingPathPoint) (x_m : R) : R :=
  interpolate h_of (Rmax 0 (x_m * (3 / 100))) shoalingPath x_m.

(** Lines 190-223: [H_surf] and [c] of the envelope loop. *)
Definition H_surf (shoalingPath : list ShoalingPathPoint) (x_m : R) : R :=
  if (negb (Nat.eqb (length shoalingPath) 0) && num_le 0 x_m)%bool then
    interpolate H_of 0 shoalingPath x_m
  else 0.

Definition c_envelope (shoalingPath : list ShoalingPathPoint) (x_m : R) : R :=
  if (negb (Nat.eqb (length shoalingPath) 0) && num_le 0 x_m)%bool then
    interpolate c_of 10 shoalingPath x_m
  else 10.

(** Lines 387-420: [H_surf_m] and [c] of the wave-surface loop.  The blend of
    [c] is written as in the source, line 412. *)
Definition H_surf_m (shoalingPath : list ShoalingPathPoint) (x_m : R) : R :=
  if negb (Nat.eqb (length shoalingPath) 0) then
    interpolate H_of 0 shoalingPath x_m
  else 0.

Definition c_surface (shoalingPath : list ShoalingPathPoint) (x_m : R) : R :=
  if negb (Nat.eqb (length shoalingPath) 0) then
    match interp_branch (closestBounds shoalingPath x_m) with
    | Blend b a => c_of a + blend_t x_m b a * (c_of b - c_of b)
    | Direct s => c_of s
    | NoBound => 10
    end
  else 10.

(* ================================================================== *)
(** ** Breaking-point detection, lines 146-169 *)
(* ================================================================== *)

(** [(a, b) => (b.x || 0) - (a.x || 0)] *)
Definition cmp_x_desc (a b : ShoalingPathPoint) : R :=
  js_or (pt_x b) 0 - js_or (pt_x a) 0.

Definition sortedPath (shoalingPath : list ShoalingPathPoint) : list ShoalingPathPoint :=
  js_sort cmp_x_desc shoalingPath.

(** The test of the loop body: [point.h > 0] and [point.H / point.h >= GAMMA_B]
    ([&&] evaluates the ratio only when the depth is positive). *)
Definition breaks (point : ShoalingPathPoint) : bool :=
  if num_lt 0 (pt_h point) then num_le GAMMA_B (pt_H point / pt_h point) else false.

Definition to_breaking (point : ShoalingPathPoint) : BreakingPoint :=
  mkBreaking (js_or (pt_x point) 0) (pt_h point) (pt_H point) (js_or (pt_c point) 10).

Fixpoint first_breaking (path : list ShoalingPathPoint) : option BreakingPoint :=
  match path with
  | [] => None
  | point :: rest => if breaks point then Some (to_breaking point) else first_breaking rest
  end.

Definition breakingPointFromPhysics (shoalingPath : list ShoalingPathPoint)
    : option BreakingPoint :=
  first_breaking (sortedPath shoalingPath).

(** [a?.x || b || 0] with [b] possibly [undefined]. *)
Definition opt_or (v : option R) (d : R) : R :=
  match v with
  | Some r => js_or r d
  | None => d
  end.

(** [breakingPointFromPhysics?.x || breaking.distance_from_shore_m || 0] *)
Definition breakingDistM (bp : option BreakingPoint) (distance_from_shore_m : option R) : R :=
  opt_or (option_map bp_x bp) (opt_or distance_from_shore_m 0).

(** [breakingPointFromPhysics?.h || breaking.depth_m || 1.2] *)
Definition breakingDepthM (bp : option BreakingPoint) (depth_m : option R) : R :=
  opt_or (option_map bp_h bp) (opt_or depth_m (12 / 10)).

(** Lines 262-266. *)
Definition breakingDistDisplay (units : UnitSystem) (bp : option BreakingPoint)
    (distance_from_shore_m : option R) : R :=
  if num_lt 0 (breakingDistM bp distance_from_shore_m) then
    convertDistance units (breakingDistM bp distance_from_shore_m)
  else
    match distance_from_shore_m with
    | Some d => convertDistance units d
    | None => 0
    end.

(* ================================================================== *)
(** ** Bathymetry, lines 81-141 *)
(* ================================================================== *)

(** [x_m = (i / numBathyPoints) * MAX_DISTANCE_M] *)
Definition grid_x (i : nat) : R := (INR i / INR numBathyPoints) * MAX_DISTANCE_M.

(** The beach point pushed after the grid: [{ x: -6, h: -1.5 }]. *)
Definition beachPoint : BathyPoint := mkBathy (-6) (- (15 / 10)).

(** [tide_level_m] is [current.tide?.level_m]; [?? 0] keeps every number. *)
Definition bathymetry_pushed (shoalingPath : list ShoalingPathPoint)
    (tide_level_m : option R) : list BathyPoint :=
  match shoalingPath with
  | _ :: _ =>
      map (fun i => mkBathy (grid_x i) (h_interp shoalingPath (grid_x i)))
          (seq 0 (S numBathyPoints)) ++ [beachPoint]
  | [] =>
      let tideLevel := match tide_level_m with Some l => l | None => 0 end in
      map (fun i => mkBathy (grid_x i) (Rmax 0 (grid_x i * (3 / 100) + tideLevel)))
          (seq 0 (S numBathyPoints)) ++ [beachPoint]
  end.

(** After [bathymetryFromPhysics.sort((a, b) => b.x - a.x)]. *)
Definition bathymetryFromPhysics (shoalingPath : list ShoalingPathPoint)
    (tide_level_m : option R) : list BathyPoint :=
  js_sort (fun a b => bathy_x b - bathy_x a) (bathymetry_pushed shoalingPath tide_level_m).

(* ================================================================== *)
(** ** Visualization rows, lines 176-275 *)
(* ================================================================== *)

Definition envelope_row (shoalingPath : list ShoalingPathPoint) (bathPoint : BathyPoint)
    : VisPoint :=
  let Hs := H_surf shoalingPath (bathy_x bathPoint) in
  mkVis (bathy_x bathPoint) (bathy_h bathPoint)
        (if num_lt 0 Hs then Some (- Hs / 2) else None)
        (if num_lt 0 Hs then Some (Hs / 2) else None)
        0.

(** [shoalingPath.reduce(..., shoalingPath[0])]: the sample nearest to the
    shore, the earlier one on ties. *)
Definition nearest_sample (shoalingPath : list ShoalingPathPoint)
    : option ShoalingPathPoint :=
  match shoalingPath with
  | [] => None
  | p0 :: _ =>
      Some (fold_left
              (fun closest p =>
                 if num_lt (Rabs (js_or (pt_x p) 0)) (Rabs (js_or (pt_x closest) 0))
                 then p else closest)
              shoalingPath p0)
  end.

Definition shore_row (shoalingPath : list ShoalingPathPoint) : VisPoint :=
  let H_surf_shore := opt_or (option_map pt_H (nearest_sample shoalingPath)) 0 in
  mkVis 0 0
        (if num_lt 0 H_surf_shore then Some (- H_surf_shore / 2) else None)
        (if num_lt 0 H_surf_shore then Some (H_surf_shore / 2) else None)
        0.

Definition near_zero (tol : R) (v : R) : bool := num_lt (Rabs v) tol.

Definition visualizationDataMeters (shoalingPath : list ShoalingPathPoint)
    (tide_level_m : option R) : list VisPoint :=
  let rows := map (envelope_row shoalingPath) (bathymetryFromPhysics shoalingPath tide_level_m) in
  let hasShorePointMeters := existsb (fun d => near_zero (1 / 10) (vis_x d)) rows in
  js_sort (fun a b => vis_x b - vis_x a)
    (if hasShorePointMeters then rows else rows ++ [shore_row shoalingPath]).

Definition to_display (units : UnitSystem) (d : VisPoint) : VisPoint :=
  mkVis (convertDistance units (vis_x d))
        (convertHeight units (bathymetryY d))
        (match waveCrestY d with
         | Some y => Some (- convertHeight units (Rabs y))
         | None => None
         end)
        (match waveTroughY d with
         | Some y => Some (convertHeight units y)
         | None => None
         end)
        0.

Definition in_range (lo hi : R) (v : R) : bool := (num_le lo v && num_le v hi)%bool.

Definition visualizationData (units : UnitSystem) (shoalingPath : list ShoalingPathPoint)
    (tide_level_m : option R) : list VisPoint :=
  filter (fun d => in_range (MIN_DISTANCE units) (MAX_DISTANCE units) (vis_x d))
         (map (to_display units) (visualizationDataMeters shoalingPath tide_level_m)).

(** Lines 282-295.  With an empty [visualizationData] the source reads a field
    of [undefined] and throws; that case is [None]. *)
Definition shorePoint (visData : list VisPoint) : option VisPoint :=
  match find (fun d => near_zero (1 / 100) (vis_x d)) visData with
  | Some d => Some d
  | None =>
      match visData with
      | [] => None
      | d0 :: _ =>
          let nearest :=
            fold_left (fun closest d =>
                         if num_lt (Rabs (vis_x d)) (Rabs (vis_x closest)) then d else closest)
                      visData d0 in
          Some (mkVis 0 0 (waveCrestY nearest) (waveTroughY nearest) 0)
      end
  end.

(** [if (!has... && shorePoint) arr.push(shorePoint)] *)
Definition push_shore (shore : option VisPoint) (arr : list VisPoint) : list VisPoint :=
  if existsb (fun d => near_zero (1 / 100) (vis_x d)) arr then arr
  else match shore with
       | Some s => arr ++ [s]
       | None => arr
       end.

Definition cmp_vis_asc (a b : VisPoint) : R := vis_x a - vis_x b.

(** Lines 297-310. *)
Definition bathymetryData (units : UnitSystem) (shoalingPath : list ShoalingPathPoint)
    (tide_level_m : option R) : list VisPoint :=
  let visData := visualizationData units shoalingPath tide_level_m in
  let bathymetryPoints_Display :=
    filter (fun d => in_range 0 (MAX_DISTANCE units) (vis_x d)) visData in
  js_sort cmp_vis_asc (push_shore (shorePoint visData) bathymetryPoints_Display).

(** The predicate of the [filter] of lines 313-319. *)
Definition envelope_keep (units : UnitSystem) (breakingXDisplay : R) (d : VisPoint) : bool :=
  if num_le breakingXDisplay 0 then in_range 0 (MAX_DISTANCE units) (vis_x d)
  else in_range 0 breakingXDisplay (vis_x d).

(** Lines 312-327.  [distance_from_shore_m] is [breaking.distance_from_shore_m]. *)
Definition waveEnvelopeData (units : UnitSystem) (shoalingPath : list ShoalingPathPoint)
    (tide_level_m distance_from_shore_m : option R) : list VisPoint :=
  let visData := visualizationData units shoalingPath tide_level_m in
  let breakingXDisplay :=
    breakingDistDisplay units (breakingPointFromPhysics shoalingPath) distance_from_shore_m in
  js_sort cmp_vis_asc
    (push_shore (shorePoint visData) (filter (envelope_keep units breakingXDisplay) visData)).

(* ================================================================== *)
(** ** Wave surface, lines 341-486 *)
(* ================================================================== *)

(** [Math.max(...shoalingPath.map(p => p.x || 0))], or [MAX_DISTANCE_M] for an
    empty path. *)
Definition maxXFromPath (shoalingPath : list ShoalingPathPoint) : R :=
  match shoalingPath with
  | [] => MAX_DISTANCE_M
  | p0 :: rest => fold_left (fun m p => Rmax m (js_or (pt_x p) 0)) rest (js_or (pt_x p0) 0)
  end.

Definition startX (shoalingPath : list ShoalingPathPoint) : R :=
  Rmin MAX_DISTANCE_M (maxXFromPath shoalingPath).

Definition endX (breakingDist : R) : R := Rmax 0 breakingDist.

(** [shoalingPath.reduce((sum, p) => sum + (p.c || 10.0), 0) / shoalingPath.length] *)
Definition avgC (shoalingPath : list ShoalingPathPoint) : R :=
  fold_left (fun sum p => sum + c_of p) shoalingPath 0 / INR (length shoalingPath).

(** Lines 361-370. *)
Definition wavelength_ref (bp : option BreakingPoint)
    (shoalingPath : list ShoalingPathPoint) (period : R) : R :=
  let otherwise :=
    if negb (Nat.eqb (length shoalingPath) 0) then avgC shoalingPath * period else 50 in
  match bp with
  | Some b => if truthy (bp_c b) then bp_c b * period else otherwise
  | None => otherwise
  end.

(** Lines 375-379. *)
Definition globalPhaseOffset (wavelength : R) (breakingDist : R) : R :=
  if num_lt 0 wavelength then PI / 2 - (2 * PI / wavelength) * breakingDist else 0.

(** [x_m = startX + (endX - startX) * (i / numPoints)] *)
Definition surface_x (x_start x_end : R) (i : nat) : R :=
  x_start + (x_end - x_start) * (INR i / INR numPoints).

(** The two locals [H_surf_m] and [c] that the loop body interpolates. *)
Definition surface_interp (shoalingPath : list ShoalingPathPoint) (x_m : R) : R * R :=
  (H_surf_m shoalingPath x_m, c_surface shoalingPath x_m).

(** [y < 0 ? -convertHeight(Math.abs(y)).value : convertHeight(y).value] *)
Definition signed_display (units : UnitSystem) (y_m : R) : R :=
  if num_lt y_m 0 then - convertHeight units (Rabs y_m) else convertHeight units y_m.

(** [y_m] of one loop iteration, lines 422-433. *)
Definition surface_y_m (shoalingPath : list ShoalingPathPoint) (wavelength offset : R)
    (x_m : R) : R :=
  let '(H_m, c) := surface_interp shoalingPath x_m in
  let amplitude_m := H_m / 2 in
  let k_ref := 2 * PI / wavelength in
  let phase := k_ref * x_m + offset in
  - amplitude_m * sin phase.

Definition surface_point (units : UnitSystem) (shoalingPath : list ShoalingPathPoint)
    (wavelength offset : R) (x_m : R) : WavePoint :=
  mkWave (convertDistance units x_m)
         (signed_display units (surface_y_m shoalingPath wavelength offset x_m)).

(** The [for] loop of lines 381-450: what it pushes, in push order. *)
Definition surface_loop (units : UnitSystem) (shoalingPath : list ShoalingPathPoint)
    (wavelength offset : R) (x_start x_end : R) (breakingXDisplay : R) : list WavePoint :=
  filter (fun p => in_range 0 (Rmax breakingXDisplay (MAX_DISTANCE units)) (wave_x p))
         (map (fun i => surface_point units shoalingPath wavelength offset
                          (surface_x x_start x_end i))
              (seq 0 (S numPoints))).

(** [waveShapeData[idx].y = y] at the first index that satisfies [near]. *)
Fixpoint update_first (near : WavePoint -> bool) (y : R) (l : list WavePoint)
    : list WavePoint :=
  match l with
  | [] => []
  | p :: rest =>
      if near p then mkWave (wave_x p) y :: rest else p :: update_first near y rest
  end.

Definition cmp_wave_asc (a b : WavePoint) : R := wave_x a - wave_x b.

(** [y_break_display], lines 455-466. *)
Definition y_break_display (units : UnitSystem) (b : BreakingPoint) : R :=
  let breakingH := js_or (bp_H b) 0 in
  let phaseAtBreaking := PI / 2 in
  let amplitude_break := breakingH / 2 in
  signed_display units (- amplitude_break * sin phaseAtBreaking).

(** Lines 452-485: the crest forced at the breaking distance and the sort,
    both inside [if (breakingDistM >= 0 && breakingPointFromPhysics)]. *)
Definition force_crest (units : UnitSystem) (bp : option BreakingPoint)
    (breakingDist : R) (data : list WavePoint) : list WavePoint :=
  match bp with
  | Some b =>
      if num_le 0 breakingDist then
        let breakingXDisplay := convertDistance units breakingDist in
        let near := fun p => num_lt (Rabs (wave_x p - breakingXDisplay)) (1 / 10) in
        js_sort cmp_wave_asc
          (if existsb near data
           then update_first near (y_break_display units b) data
           else data ++ [mkWave breakingXDisplay (y_break_display units b)])
      else data
  | None => data
  end.

(** [waveShapeData].  [period_s] is [current.period_s],
    [distance_from_shore_m] is [breaking.distance_from_shore_m]. *)
Definition waveShapeData (units : UnitSystem) (shoalingPath : list ShoalingPathPoint)
    (period_s distance_from_shore_m : option R) : list WavePoint :=
  match shoalingPath with
  | [] => []
  | _ :: _ =>
      let period := opt_or period_s 11 in
      let bp := breakingPointFromPhysics shoalingPath in
      let breakingDist := breakingDistM bp distance_from_shore_m in
      let wavelength := wavelength_ref bp shoalingPath period in
      let offset := globalPhaseOffset wavelength breakingDist in
      force_crest units bp breakingDist
        (surface_loop units shoalingPath wavelength offset
           (startX shoalingPath) (endX breakingDist)
           (breakingDistDisplay units bp distance_from_shore_m))
  end.

(** Ascending order of a sequence of distances, as the renderer needs it. *)
Definition ascending (xs : list R) : Prop := Sorted Rle xs.

(* ================================================================== *)
(** ** Vocabulary of the statements *)
(* ================================================================== *)

(** A sample at which the wave breaks: positive depth and
    [waveHeight / depth] at least the breaker index. *)
Definition qualifies (p : ShoalingPathPoint) : Prop :=
  0 < pt_h p /\ GAMMA_B <= pt_H p / pt_h p.

(** A scan order from offshore to shore. *)
Definition decreasing_distance (l : list ShoalingPathPoint) : Prop :=
  StronglySorted (fun a b => pt_x b <= pt_x a) l.

(** [s1] and [s2] are samples at distinct distances with no sample strictly
    between them. *)
Definition adjacent (samples : list ShoalingPathPoint) (s1 s2 : ShoalingPathPoint) : Prop :=
  In s1 samples /\ In s2 samples /\ pt_x s1 < pt_x s2 /\
  forall p, In p samples -> ~ (pt_x s1 < pt_x p < pt_x s2).

(** The value of field [f] at the distance of [s] is the one [s] carries
    (samples may repeat a distance). *)
Definition carries (f : ShoalingPathPoint -> R) (samples : list ShoalingPathPoint)
    (s : ShoalingPathPoint) : Prop :=
  forall p, In p samples -> pt_x p = pt_x s -> f p = f s.

(** [a] is a sample of largest distance among those at most [d] away. *)
Definition lower_bound (samples : list ShoalingPathPoint) (d : R) (a : ShoalingPathPoint)
    : Prop :=
  In a samples /\ pt_x a <= d /\
  forall p, In p samples -> pt_x p <= d -> pt_x p <= pt_x a.

(** [b] is a sample of smallest distance among those at least [d] away. *)
Definition upper_bound (samples : list ShoalingPathPoint) (d : R) (b : ShoalingPathPoint)
    : Prop :=
  In b samples /\ d <= pt_x b /\
  forall p, In p samples -> d <= pt_x p -> pt_x b <= pt_x p.

(** What [closestAfter] and [closestBefore] hold once [samples] are scanned. *)
Definition after_inv (samples : list ShoalingPathPoint) (d : R)
    (closestAfter : option ShoalingPathPoint) : Prop :=
  match closestAfter with
  | None => forall p, In p samples -> d < pt_x p
  | Some a => lower_bound samples d a
  end.

Definition before_inv (samples : list ShoalingPathPoint) (d : R)
    (closestBefore : option ShoalingPathPoint) : Prop :=
  match closestBefore with
  | None => forall p, In p samples -> pt_x p < d
  | Some b => upper_bound samples d b
  end.

Definition before_weak (samples : list ShoalingPathPoint) (d : R)
    (closestBefore : option ShoalingPathPoint) : Prop :=
  match closestBefore with
  | None => forall p, In p samples -> pt_x p < d
  | Some b => In b samples /\ d <= pt_x b
  end.

(** The linear rule between [(d1, v1)] and [(d2, v2)]. *)
Definition linear_rule (d1 v1 d2 v2 d : R) : R :=
  v1 + (v2 - v1) * (d - d1) / (d2 - d1).

Definition mean (l : list R) : R := fold_right Rplus 0 l / INR (length l).

(** The reference wavelength in the words of the specification. *)
Definition L_ref (bp : option BreakingPoint) (samples : list ShoalingPathPoint)
    (wavePeriod : R) : R :=
  match bp with
  | Some b => bp_c b * wavePeriod
  | None => mean (map c_of samples) * wavePeriod
  end.


(** Two samples that differ at most in their phase speed. *)
Definition same_geometry (p q : ShoalingPathPoint) : Prop :=
  pt_x p = pt_x q /\ pt_h p = pt_h q /\ pt_H p = pt_H q.

Definition opt_same (o1 o2 : option ShoalingPathPoint) : Prop :=
  match o1, o2 with
  | Some p, Some q => same_geometry p q
  | None, None => True
  | _, _ => False
  end.

(** Two detection results that differ at most in the stored phase speed. *)
Definition breaking_same (o1 o2 : option BreakingPoint) : Prop :=
  match o1, o2 with
  | Some b1, Some b2 => bp_x b1 = bp_x b2 /\ bp_h b1 = bp_h b2 /\ bp_H b1 = bp_H b2
  | None, None => True
  | _, _ => False
  end.

(** The end-to-end example with other phase speeds away from the break. *)
Definition example_path_other_speeds : list ShoalingPathPoint :=
  [ mkPoint 200 5 1 3; mkPoint 50 1 (9 / 10) 5; mkPoint 0 0 0 7 ].

(** One sample far offshore at which the wave does not break. *)
Definition no_break_path : list ShoalingPathPoint := [ mkPoint 200 5 1 8 ].


(** Two samples at the same distance that carry different depths. *)
Definition repeated_distance_path : list ShoalingPathPoint :=
  [ mkPoint 76 1 1 5; mkPoint 76 2 1 5 ].

(** One sample at the shore line, at which the wave breaks. *)
Definition shore_break_path : list ShoalingPathPoint := [ mkPoint 0 1 (9 / 10) 5 ].

(** A distance that is the shore line itself or at least 6 away from it, as
    every distance of the bathymetry grid is. *)
Definition clear_of_shore (v : R) : Prop := v = 0 \/ 6 <= v \/ v <= -6.

(** A sample whose depth is not positive gets another wave height. *)
Definition overwrite_shallow_H (newH : ShoalingPathPoint -> R) (p : ShoalingPathPoint)
    : ShoalingPathPoint :=
  if num_lt 0 (pt_h p) then p else mkPoint (pt_x p) (pt_h p) (newH p) (pt_c p).

(** The end-to-end example of the specification. *)
Definition example_path : list ShoalingPathPoint :=
  [ mkPoint 200 5 1 8; mkPoint 50 1 (9 / 10) 5; mkPoint 0 0 0 0 ].

(* ================================================================== *)
(** ** UnitContext: the unit switch and the other two conversions *)
(* ================================================================== *)

(** [prev => prev === 'metric' ? 'imperial' : 'metric'] *)
Definition toggleUnits (prev : UnitSystem) : UnitSystem :=
  match prev with
  | metric => imperial
  | imperial => metric
  end.

(** [celsius * 9/5 + 32] *)
Definition convertTemp (units : UnitSystem) (celsius : R) : R :=
  match units with
  | metric => celsius
  | imperial => celsius * 9 / 5 + 32
  end.

Definition convertSpeed (units : UnitSystem) (metersPerSec : R) : R :=
  match units with
  | metric => metersPerSec
  | imperial => metersPerSec * (2237 / 1000)
  end.

(* ================================================================== *)
(** ** The sample set read from the forecast, line 60 *)
(* ================================================================== *)

(** [current.physics.shoaling_path_surf || current.physics.shoaling_path || []]:
    a missing field is [None]; an array, empty or not, is truthy. *)
Definition shoalingPath_of (shoaling_path_surf shoaling_path : option (list ShoalingPathPoint))
    : list ShoalingPathPoint :=
  match shoaling_path_surf with
  | Some path => path
  | None =>
      match shoaling_path with
      | Some path => path
      | None => []
      end
  end.

(* ================================================================== *)
(** ** The vertical axis, lines 499-508 *)
(* ================================================================== *)

(** [arr.filter(y => y !== null)] *)
Definition non_null (l : list (option R)) : list R :=
  flat_map (fun o => match o with Some y => [y] | None => [] end) l.

Definition allYValues (visData : list VisPoint) : list R :=
  match visData with
  | [] => [0]
  | _ :: _ =>
      map bathymetryY visData
      ++ non_null (map waveCrestY visData)
      ++ non_null (map waveTroughY visData)
      ++ [0]
  end.

(** [allYValues.length > 0 ? Math.min(...allYValues) - 0.5 : -2] *)
Definition minY (visData : list VisPoint) : R :=
  match allYValues visData with
  | [] => -2
  | y :: ys => fold_left Rmin ys y - 5 / 10
  end.

(** [allYValues.length > 0 ? Math.max(...allYValues) + 0.5 : 8] *)
Definition maxY (visData : list VisPoint) : R :=
  match allYValues visData with
  | [] => 8
  | y :: ys => fold_left Rmax ys y + 5 / 10
  end.

(* ================================================================== *)
(** ** Vocabulary of the further statements *)
(* ================================================================== *)

(** The depth pushed for the grid distance [x_m]: interpolated from the
    samples, or read off the 3% slope when there are none. *)
Definition grid_depth (shoalingPath : list ShoalingPathPoint) (tide_level_m : option R)
    (x_m : R) : R :=
  match shoalingPath with
  | _ :: _ => h_interp shoalingPath x_m
  | [] => Rmax 0 (x_m * (3 / 100) + match tide_level_m with Some l => l | None => 0 end)
  end.

Definition grid_point (shoalingPath : list ShoalingPathPoint) (tide_level_m : option R)
    (i : nat) : BathyPoint :=
  mkBathy (grid_x i) (grid_depth shoalingPath tide_level_m (grid_x i)).

(** The row drawn for grid index [i], in display units. *)
Definition display_row (units : UnitSystem) (shoalingPath : list ShoalingPathPoint)
    (tide_level_m : option R) (i : nat) : VisPoint :=
  to_display units (envelope_row shoalingPath (grid_point shoalingPath tide_level_m i)).

(** Crest and trough of a row are absent together, or mirror each other
    about the water surface. *)
Definition mirrored (d : VisPoint) : Prop :=
  match waveCrestY d, waveTroughY d with
  | Some c, Some t => c = - t /\ 0 < t
  | None, None => True
  | _, _ => False
  end.

(* ================================================================== *)
(** * Properties *)
(* ================================================================== *)

(** ** Evaluating the tests on numbers *)

Lemma num_le_true (a b : R) : a <= b -> num_le a b = true.
Proof. intros Hab. unfold num_le. destruct (Rle_dec a b); [reflexivity | contradiction]. Qed.

Lemma num_le_false (a b : R) : b < a -> num_le a b = false.
Proof. intros Hab. unfold num_le. destruct (Rle_dec a b); [lra | reflexivity]. Qed.

Lemma num_lt_true (a b : R) : a < b -> num_lt a b = true.
Proof. intros Hab. unfold num_lt. destruct (Rlt_dec a b); [reflexivity | contradiction]. Qed.

Lemma num_lt_false (a b : R) : b <= a -> num_lt a b = false.
Proof. intros Hab. unfold num_lt. destruct (Rlt_dec a b); [lra | reflexivity]. Qed.

Lemma num_eq_true (a b : R) : a = b -> num_eq a b = true.
Proof. intros Hab. unfold num_eq. destruct (Req_dec_T a b); [reflexivity | contradiction]. Qed.

Lemma num_eq_false (a b : R) : a <> b -> num_eq a b = false.
Proof. intros Hab. unfold num_eq. destruct (Req_dec_T a b); [contradiction | reflexivity]. Qed.

Lemma num_le_spec (a b : R) : num_le a b = true <-> a <= b.
Proof.
  split; [| apply num_le_true].
  unfold num_le. destruct (Rle_dec a b); [trivial | discriminate].
Qed.

Lemma num_lt_spec (a b : R) : num_lt a b = true <-> a < b.
Proof.
  split; [| apply num_lt_true].
  unfold num_lt. destruct (Rlt_dec a b); [trivial | discriminate].
Qed.

Lemma num_eq_spec (a b : R) : num_eq a b = true <-> a = b.
Proof.
  split; [| apply num_eq_true].
  unfold num_eq. destruct (Req_dec_T a b); [trivial | discriminate].
Qed.

Lemma num_le_nspec (a b : R) : num_le a b = false <-> b < a.
Proof.
  split; [| apply num_le_false].
  unfold num_le. destruct (Rle_dec a b); [discriminate | lra].
Qed.

Lemma num_lt_nspec (a b : R) : num_lt a b = false <-> b <= a.
Proof.
  split; [| apply num_lt_false].
  unfold num_lt. destruct (Rlt_dec a b); [discriminate | lra].
Qed.

Lemma num_eq_nspec (a b : R) : num_eq a b = false <-> a <> b.
Proof.
  split; [| apply num_eq_false].
  unfold num_eq. destruct (Req_dec_T a b); [discriminate | trivial].
Qed.

(** On a number, [v || 0] is [v]. *)
Lemma js_or_0 (v : R) : js_or v 0 = v.
Proof.
  unfold js_or, truthy, num_eq. destruct (Req_dec_T v 0); simpl; congruence.
Qed.

Lemma js_or_truthy (v d : R) : v <> 0 -> js_or v d = v.
Proof. intros Hv. unfold js_or, truthy. rewrite num_eq_false by assumption. reflexivity. Qed.

Lemma js_or_falsy (d : R) : js_or 0 d = d.
Proof. unfold js_or, truthy. rewrite num_eq_true by reflexivity. reflexivity. Qed.

Lemma js_or_nonzero (v d : R) : d <> 0 -> js_or v d <> 0.
Proof.
  intros Hd. unfold js_or, truthy, num_eq. destruct (Req_dec_T v 0); simpl; assumption.
Qed.

(** One numeric test of the goal, decided by linear arithmetic. *)
Ltac js_test :=
  match goal with
  | |- context [num_le ?a ?b] =>
      first [rewrite (num_le_true a b) by lra | rewrite (num_le_false a b) by lra]
  | |- context [num_lt ?a ?b] =>
      first [rewrite (num_lt_true a b) by lra | rewrite (num_lt_false a b) by lra]
  | |- context [num_eq ?a ?b] =>
      first [rewrite (num_eq_true a b) by lra | rewrite (num_eq_false a b) by lra]
  | |- context [Rmax ?a ?b] =>
      first [rewrite (Rmax_left a b) by lra | rewrite (Rmax_right a b) by lra]
  | |- context [Rmin ?a ?b] =>
      first [rewrite (Rmin_left a b) by lra | rewrite (Rmin_right a b) by lra]
  | |- context [Rabs ?a] =>
      first [rewrite (Rabs_pos_eq a) by lra | rewrite (Rabs_left1 a) by lra]
  end.

(** Evaluation of the transform on concrete numbers. *)
Ltac js_eval :=
  repeat (cbn [pt_x pt_h pt_H pt_c bp_x bp_h bp_H bp_c bathy_x bathy_h
               vis_x wave_x wave_y fst snd negb andb orb option_map
               fold_left sort_insert js_sort first_breaking length Nat.eqb];
          unfold bounds_step, step_before, step_after, interp_branch, interp_value,
                 js_or, truthy, lt_or_Infinity, cmp_x_desc, breaks, GAMMA_B,
                 h_of, H_of, c_of, blend_t, opt_or, to_breaking;
          try js_test).

Lemma example_breaking :
  breakingPointFromPhysics example_path = Some (mkBreaking 50 1 (9 / 10) 5).
Proof.
  unfold breakingPointFromPhysics, sortedPath, example_path.
  js_eval. reflexivity.
Qed.

Lemma example_bounds_100 :
  closestBounds example_path 100 = (Some (mkPoint 200 5 1 8), Some (mkPoint 50 1 (9 / 10) 5)).
Proof.
  unfold closestBounds, example_path.
  js_eval. reflexivity.
Qed.

Lemma example_depth_100 : h_interp example_path 100 = 7 / 3.
Proof.
  unfold h_interp, interpolate. rewrite example_bounds_100.
  js_eval. lra.
Qed.

(* ------------------------------------------------------------------ *)
(** ** The sort *)
(* ------------------------------------------------------------------ *)

Section SortFacts.
Context {A : Type}.
Variable cmp : A -> A -> R.

Lemma sort_insert_perm (a : A) (l : list A) :
  Permutation (a :: l) (sort_insert cmp a l).
Proof.
  induction l as [| y l IH]; simpl.
  - apply Permutation_refl.
  - destruct (num_le (cmp a y) 0).
    + apply Permutation_refl.
    + eapply perm_trans; [apply perm_swap |].
      apply perm_skip. exact IH.
Qed.

Lemma js_sort_perm (l : list A) : Permutation l (js_sort cmp l).
Proof.
  induction l as [| a l IH]; simpl.
  - apply perm_nil.
  - eapply perm_trans; [| apply sort_insert_perm].
    apply perm_skip. exact IH.
Qed.

Lemma js_sort_In (l : list A) (a : A) : In a (js_sort cmp l) <-> In a l.
Proof.
  split; intros Hin.
  - eapply Permutation_in; [apply Permutation_sym, js_sort_perm | exact Hin].
  - eapply Permutation_in; [apply js_sort_perm | exact Hin].
Qed.

Lemma js_sort_length (l : list A) : length (js_sort cmp l) = length l.
Proof. symmetry. apply Permutation_length, js_sort_perm. Qed.

Hypothesis cmp_total : forall a b, 0 < cmp a b -> cmp b a <= 0.

Lemma sort_insert_HdRel (y a : A) (l : list A) :
  cmp_le cmp y a -> HdRel (cmp_le cmp) y l -> HdRel (cmp_le cmp) y (sort_insert cmp a l).
Proof.
  intros Hya Hhd. destruct l as [| z l]; simpl.
  - constructor. exact Hya.
  - destruct (num_le (cmp a z) 0).
    + constructor. exact Hya.
    + inversion Hhd; subst. constructor. assumption.
Qed.

Lemma sort_insert_sorted (a : A) (l : list A) :
  Sorted (cmp_le cmp) l -> Sorted (cmp_le cmp) (sort_insert cmp a l).
Proof.
  induction l as [| y l IH]; intros Hs; simpl.
  - repeat constructor.
  - destruct (num_le (cmp a y) 0) eqn:Hc.
    + constructor; [exact Hs |]. constructor. apply num_le_spec. exact Hc.
    + inversion Hs; subst. constructor.
      * apply IH. assumption.
      * apply sort_insert_HdRel; [| assumption].
        apply cmp_total. apply num_le_nspec. exact Hc.
Qed.

Lemma js_sort_sorted (l : list A) : Sorted (cmp_le cmp) (js_sort cmp l).
Proof.
  induction l as [| a l IH]; simpl.
  - constructor.
  - apply sort_insert_sorted. exact IH.
Qed.
End SortFacts.

Lemma Sorted_weaken {A : Type} (R1 R2 : A -> A -> Prop) (l : list A) :
  (forall a b, R1 a b -> R2 a b) -> Sorted R1 l -> Sorted R2 l.
Proof.
  intros Hsub. induction 1 as [| a l Hs IH Hhd]; constructor.
  - exact IH.
  - destruct Hhd; constructor. apply Hsub. assumption.
Qed.

Lemma Sorted_map_key {A : Type} (key : A -> R) (l : list A) :
  Sorted (fun a b => key a <= key b) l -> Sorted Rle (map key l).
Proof.
  induction 1 as [| a l Hs IH Hhd]; simpl; constructor.
  - exact IH.
  - destruct Hhd; simpl; constructor. assumption.
Qed.

(** Sorting with [(a, b) => key(a) - key(b)] yields ascending keys. *)
Lemma js_sort_ascending {A : Type} (key : A -> R) (l : list A) :
  ascending (map key (js_sort (fun a b => key a - key b) l)).
Proof.
  apply Sorted_map_key.
  eapply Sorted_weaken; [| apply js_sort_sorted].
  - unfold cmp_le. intros a b Hab. lra.
  - intros a b Hab. lra.
Qed.

(** Sorting with [(a, b) => key(b) - key(a)] yields descending keys. *)
Lemma js_sort_descending {A : Type} (key : A -> R) (l : list A) :
  StronglySorted (fun a b => key b <= key a) (js_sort (fun a b => key b - key a) l).
Proof.
  apply Sorted_StronglySorted.
  - intros a b c Hab Hbc. lra.
  - eapply Sorted_weaken; [| apply js_sort_sorted].
    + unfold cmp_le. intros a b Hab. lra.
    + intros a b Hab. lra.
Qed.

(** The sort reads the elements only through the comparator. *)
Lemma js_sort_map {A B : Type} (g : A -> B) (cmpA : A -> A -> R) (cmpB : B -> B -> R)
    (l : list A) :
  (forall a b, cmpB (g a) (g b) = cmpA a b) ->
  js_sort cmpB (map g l) = map g (js_sort cmpA l).
Proof.
  intros Hcmp.
  assert (Hins : forall a l', sort_insert cmpB (g a) (map g l') = map g (sort_insert cmpA a l')).
  { intros a l'. induction l' as [| y l' IH]; simpl; [reflexivity |].
    rewrite Hcmp. destruct (num_le (cmpA a y) 0); simpl; [reflexivity |].
    rewrite IH. reflexivity. }
  induction l as [| a l IH]; simpl; [reflexivity |].
  rewrite IH. apply Hins.
Qed.

Lemma StronglySorted_weaken {A : Type} (R1 R2 : A -> A -> Prop) (l : list A) :
  (forall a b, R1 a b -> R2 a b) -> StronglySorted R1 l -> StronglySorted R2 l.
Proof.
  intros Hsub. induction 1 as [| a l Hs IH Hall]; constructor.
  - exact IH.
  - eapply Forall_impl; [| exact Hall]. intros b. apply Hsub.
Qed.

Lemma StronglySorted_app_r {A : Type} (R1 : A -> A -> Prop) (l1 l2 : list A) :
  StronglySorted R1 (l1 ++ l2) -> StronglySorted R1 l2.
Proof.
  induction l1 as [| a l1 IH]; simpl; [trivial |].
  intros Hs. apply IH. apply StronglySorted_inv in Hs. tauto.
Qed.

(* ------------------------------------------------------------------ *)
(** ** Breaking-point detection *)
(* ------------------------------------------------------------------ *)

Lemma breaks_spec (p : ShoalingPathPoint) : breaks p = true <-> qualifies p.
Proof.
  unfold breaks, qualifies. destruct (num_lt 0 (pt_h p)) eqn:Hh.
  - apply num_lt_spec in Hh. rewrite num_le_spec. tauto.
  - apply num_lt_nspec in Hh. split; [discriminate | lra].
Qed.

Lemma breaks_false (p : ShoalingPathPoint) : breaks p = false <-> ~ qualifies p.
Proof.
  rewrite <- breaks_spec. destruct (breaks p); split; congruence.
Qed.

Lemma first_breaking_Some (path : list ShoalingPathPoint) (bp : BreakingPoint) :
  first_breaking path = Some bp ->
  exists before s after,
    path = before ++ s :: after /\
    Forall (fun p => ~ qualifies p) before /\
    qualifies s /\ bp = to_breaking s.
Proof.
  induction path as [| point rest IH]; simpl; [discriminate |].
  destruct (breaks point) eqn:Hb.
  - intros [= <-]. exists [], point, rest.
    repeat split; [constructor | apply breaks_spec, Hb | apply breaks_spec, Hb].
  - intros Hrest. destruct (IH Hrest) as (before & s & after & -> & Hnone & Hs & ->).
    exists (point :: before), s, after.
    split; [reflexivity |]. split; [| split; [exact Hs | reflexivity]].
    constructor; [apply breaks_false, Hb | exact Hnone].
Qed.

Lemma first_breaking_None (path : list ShoalingPathPoint) :
  first_breaking path = None -> forall p, In p path -> ~ qualifies p.
Proof.
  induction path as [| point rest IH]; simpl; [intros _ p [] |].
  destruct (breaks point) eqn:Hb; [discriminate |].
  intros Hrest p [<- | Hin].
  - apply breaks_false, Hb.
  - apply IH; assumption.
Qed.

Lemma sortedPath_perm (samples : list ShoalingPathPoint) :
  Permutation samples (sortedPath samples).
Proof. apply js_sort_perm. Qed.

Lemma sortedPath_decreasing (samples : list ShoalingPathPoint) :
  decreasing_distance (sortedPath samples).
Proof.
  unfold decreasing_distance, sortedPath.
  eapply StronglySorted_weaken;
    [| exact (js_sort_descending (fun p => js_or (pt_x p) 0) samples)].
  intros a b. cbn beta. rewrite !js_or_0. trivial.
Qed.

Lemma overwrite_shallow_breaks (newH : ShoalingPathPoint -> R) (p : ShoalingPathPoint) :
  breaks (overwrite_shallow_H newH p) = breaks p.
Proof.
  unfold overwrite_shallow_H. destruct (num_lt 0 (pt_h p)) eqn:Hh; [reflexivity |].
  unfold breaks. simpl. rewrite Hh. reflexivity.
Qed.

Lemma overwrite_shallow_x (newH : ShoalingPathPoint -> R) (p : ShoalingPathPoint) :
  pt_x (overwrite_shallow_H newH p) = pt_x p.
Proof. unfold overwrite_shallow_H. destruct (num_lt 0 (pt_h p)); reflexivity. Qed.

Lemma first_breaking_overwrite (newH : ShoalingPathPoint -> R)
    (path : list ShoalingPathPoint) :
  first_breaking (map (overwrite_shallow_H newH) path) = first_breaking path.
Proof.
  induction path as [| point rest IH]; simpl; [reflexivity |].
  rewrite overwrite_shallow_breaks. destruct (breaks point) eqn:Hb; [| exact IH].
  unfold breaks in Hb. unfold overwrite_shallow_H.
  destruct (num_lt 0 (pt_h point)); [reflexivity | discriminate].
Qed.

(** C2.  Breaking-point detection is a function of the samples; it scans a
    rearrangement of the samples in order of decreasing distance and returns
    the first sample of that order whose depth is positive and whose
    height-to-depth ratio reaches 0.78, which is a qualifying sample of
    largest distance; a sample whose depth is not positive is never looked at
    for its ratio (its wave height cannot change the result); when no sample
    qualifies the result is not-found. *)
Theorem C2_breaking_point_detection (samples : list ShoalingPathPoint) :
  Permutation samples (sortedPath samples) /\
  decreasing_distance (sortedPath samples) /\
  match breakingPointFromPhysics samples with
  | Some bp =>
      exists before s after,
        sortedPath samples = before ++ s :: after /\
        Forall (fun p => ~ qualifies p) before /\
        qualifies s /\
        bp = mkBreaking (pt_x s) (pt_h s) (pt_H s) (js_or (pt_c s) 10) /\
        (forall p, In p samples -> qualifies p -> pt_x p <= pt_x s)
  | None => forall p, In p samples -> ~ qualifies p
  end /\
  (forall newH : ShoalingPathPoint -> R,
     breakingPointFromPhysics (map (overwrite_shallow_H newH) samples)
     = breakingPointFromPhysics samples).
Proof.
  split; [apply sortedPath_perm |].
  split; [apply sortedPath_decreasing |].
  split.
  - unfold breakingPointFromPhysics.
    destruct (first_breaking (sortedPath samples)) as [bp |] eqn:Hfb.
    + destruct (first_breaking_Some _ _ Hfb) as (before & s & after & Heq & Hnone & Hs & ->).
      exists before, s, after.
      split; [exact Heq |]. split; [exact Hnone |]. split; [exact Hs |].
      split; [unfold to_breaking; rewrite js_or_0; reflexivity |].
      intros p Hin Hq.
      assert (Hin' : In p (before ++ s :: after)).
      { rewrite <- Heq. apply js_sort_In. exact Hin. }
      apply in_app_or in Hin'. destruct Hin' as [Hb | [<- | Ha]].
      * rewrite Forall_forall in Hnone. exfalso. exact (Hnone p Hb Hq).
      * lra.
      * pose proof (sortedPath_decreasing samples) as Hdec.
        unfold decreasing_distance in Hdec. rewrite Heq in Hdec.
        apply StronglySorted_app_r in Hdec.
        apply StronglySorted_inv in Hdec. destruct Hdec as [_ Hall].
        rewrite Forall_forall in Hall. apply Hall. exact Ha.
    + intros p Hin. eapply first_breaking_None; [exact Hfb |].
      apply js_sort_In. exact Hin.
  - intros newH. unfold breakingPointFromPhysics, sortedPath.
    rewrite (js_sort_map (overwrite_shallow_H newH) cmp_x_desc cmp_x_desc).
    + apply first_breaking_overwrite.
    + intros a b. unfold cmp_x_desc. rewrite !overwrite_shallow_x. reflexivity.
Qed.

(** In the end-to-end example the shore sample has depth 0: whatever wave
    height it is given, the detected breaking point stays the same. *)
Lemma C2_detection_witness :
  breakingPointFromPhysics (map (overwrite_shallow_H (fun _ => 100)) example_path)
  = Some (mkBreaking 50 1 (9 / 10) 5).
Proof.
  destruct (C2_breaking_point_detection example_path) as (_ & _ & _ & Hshallow).
  rewrite Hshallow. exact example_breaking.
Defined.

(** The first example of the specification's testable properties. *)
Example breaking_point_example :
  breakingPointFromPhysics [ mkPoint 500 7 1 10; mkPoint 100 2 (12 / 10) 10; mkPoint 50 1 (9 / 10) 10 ]
  = Some (mkBreaking 50 1 (9 / 10) 10).
Proof.
  unfold breakingPointFromPhysics, sortedPath.
  js_eval. reflexivity.
Qed.

(** C8.  On the samples (200, 5, 1.0, 8), (50, 1.0, 0.9, 5), (0, 0, 0, 0) the
    detected breaking point is (50, 1.0, 0.9, 5); the depth interpolated at
    100 m is the linear interpolation between the samples at 50 m (depth 1)
    and 200 m (depth 5), 5 + 2/3 (1 - 5) = 7/3, that is 2.33 to two decimals. *)
Theorem C8_end_to_end_example :
  breakingPointFromPhysics example_path = Some (mkBreaking 50 1 (9 / 10) 5) /\
  interp_branch (closestBounds example_path 100)
    = Blend (mkPoint 200 5 1 8) (mkPoint 50 1 (9 / 10) 5) /\
  h_interp example_path 100 = linear_rule 50 1 200 5 100 /\
  h_interp example_path 100 = 5 + 2 / 3 * (1 - 5) /\
  Rabs (h_interp example_path 100 - 233 / 100) < 5 / 1000.
Proof.
  split; [exact example_breaking |].
  split; [rewrite example_bounds_100; js_eval; reflexivity |].
  rewrite example_depth_100.
  split; [unfold linear_rule; lra |].
  split; [lra |].
  apply Rabs_def1; lra.
Qed.

(* ------------------------------------------------------------------ *)
(** ** The scan for the bounding samples *)
(* ------------------------------------------------------------------ *)

(** Turns the boolean tests of the context into facts about numbers. *)
Ltac num_facts :=
  repeat match goal with
  | H : num_le _ _ = true |- _ => apply num_le_spec in H
  | H : num_le _ _ = false |- _ => apply num_le_nspec in H
  | H : num_lt _ _ = true |- _ => apply num_lt_spec in H
  | H : num_lt _ _ = false |- _ => apply num_lt_nspec in H
  | H : num_eq _ _ = true |- _ => apply num_eq_spec in H
  | H : num_eq _ _ = false |- _ => apply num_eq_nspec in H
  end.

Lemma closestBounds_split (d : R) (l : list ShoalingPathPoint)
    (cb ca : option ShoalingPathPoint) :
  fold_left (bounds_step d) l (cb, ca)
  = (fold_left (step_before d) l cb, fold_left (step_after d) l ca).
Proof.
  revert cb ca. induction l as [| p l IH]; intros cb ca; simpl; [reflexivity |].
  unfold bounds_step at 2. simpl. apply IH.
Qed.

Lemma after_step (seen : list ShoalingPathPoint) (d : R)
    (ca : option ShoalingPathPoint) (p : ShoalingPathPoint) :
  after_inv seen d ca -> after_inv (seen ++ [p]) d (step_after d ca p).
Proof.
  unfold after_inv, lower_bound, step_after. rewrite js_or_0.
  destruct (num_le (pt_x p) d) eqn:Hpd; destruct ca as [a |].
  - rewrite js_or_0. intros (Hin & Had & Hmax).
    destruct (num_lt (pt_x a) (pt_x p)) eqn:Hap; num_facts.
    + split; [apply in_or_app; right; left; reflexivity |].
      split; [exact Hpd |].
      intros q Hq Hqd. apply in_app_or in Hq. destruct Hq as [Hq | [<- | []]].
      * specialize (Hmax q Hq Hqd). lra.
      * lra.
    + split; [apply in_or_app; left; exact Hin |].
      split; [exact Had |].
      intros q Hq Hqd. apply in_app_or in Hq. destruct Hq as [Hq | [<- | []]].
      * apply Hmax; assumption.
      * exact Hap.
  - intros Hnone. num_facts.
    split; [apply in_or_app; right; left; reflexivity |].
    split; [exact Hpd |].
    intros q Hq Hqd. apply in_app_or in Hq. destruct Hq as [Hq | [<- | []]].
    + specialize (Hnone q Hq). lra.
    + lra.
  - intros (Hin & Had & Hmax). num_facts.
    split; [apply in_or_app; left; exact Hin |].
    split; [exact Had |].
    intros q Hq Hqd. apply in_app_or in Hq. destruct Hq as [Hq | [<- | []]].
    + apply Hmax; assumption.
    + lra.
  - intros Hnone q Hq. num_facts.
    apply in_app_or in Hq. destruct Hq as [Hq | [<- | []]].
    + apply Hnone. exact Hq.
    + exact Hpd.
Qed.

Lemma after_scan (l seen : list ShoalingPathPoint) (d : R)
    (ca : option ShoalingPathPoint) :
  after_inv seen d ca -> after_inv (seen ++ l) d (fold_left (step_after d) l ca).
Proof.
  revert seen ca. induction l as [| p l IH]; intros seen ca Hinv; simpl.
  - rewrite app_nil_r. exact Hinv.
  - change (p :: l) with ([p] ++ l). rewrite app_assoc.
    apply IH. apply after_step. exact Hinv.
Qed.

Lemma before_weak_step (seen : list ShoalingPathPoint) (d : R)
    (cb : option ShoalingPathPoint) (p : ShoalingPathPoint) :
  before_weak seen d cb -> before_weak (seen ++ [p]) d (step_before d cb p).
Proof.
  unfold before_weak, step_before. rewrite js_or_0.
  destruct (num_le d (pt_x p)) eqn:Hdp; destruct cb as [b |].
  - intros (Hin & Hdb).
    destruct (lt_or_Infinity (pt_x p) (pt_x b)); num_facts.
    + split; [apply in_or_app; right; left; reflexivity | exact Hdp].
    + split; [apply in_or_app; left; exact Hin | exact Hdb].
  - intros _. num_facts.
    split; [apply in_or_app; right; left; reflexivity | exact Hdp].
  - intros (Hin & Hdb).
    split; [apply in_or_app; left; exact Hin | exact Hdb].
  - intros Hnone q Hq. num_facts.
    apply in_app_or in Hq. destruct Hq as [Hq | [<- | []]].
    + apply Hnone. exact Hq.
    + exact Hdp.
Qed.

Lemma before_weak_scan (l seen : list ShoalingPathPoint) (d : R)
    (cb : option ShoalingPathPoint) :
  before_weak seen d cb -> before_weak (seen ++ l) d (fold_left (step_before d) l cb).
Proof.
  revert seen cb. induction l as [| p l IH]; intros seen cb Hinv; simpl.
  - rewrite app_nil_r. exact Hinv.
  - change (p :: l) with ([p] ++ l). rewrite app_assoc.
    apply IH. apply before_weak_step. exact Hinv.
Qed.

(** When no candidate lies at distance 0, the guard [|| Infinity] is never
    taken and [closestBefore] is the nearest sample on the offshore side. *)
Lemma before_step (seen : list ShoalingPathPoint) (d : R)
    (cb : option ShoalingPathPoint) (p : ShoalingPathPoint) :
  (forall q, In q seen -> d <= pt_x q -> pt_x q <> 0) ->
  before_inv seen d cb -> before_inv (seen ++ [p]) d (step_before d cb p).
Proof.
  intros Hnz.
  unfold before_inv, upper_bound, step_before. rewrite js_or_0.
  destruct (num_le d (pt_x p)) eqn:Hdp; destruct cb as [b |].
  - intros (Hin & Hdb & Hmin).
    unfold lt_or_Infinity, truthy. rewrite (num_eq_false (pt_x b) 0) by (apply Hnz; assumption).
    simpl. destruct (num_lt (pt_x p) (pt_x b)) eqn:Hpb; num_facts.
    + split; [apply in_or_app; right; left; reflexivity |].
      split; [exact Hdp |].
      intros q Hq Hdq. apply in_app_or in Hq. destruct Hq as [Hq | [<- | []]].
      * specialize (Hmin q Hq Hdq). lra.
      * lra.
    + split; [apply in_or_app; left; exact Hin |].
      split; [exact Hdb |].
      intros q Hq Hdq. apply in_app_or in Hq. destruct Hq as [Hq | [<- | []]].
      * apply Hmin; assumption.
      * exact Hpb.
  - intros Hnone. num_facts.
    split; [apply in_or_app; right; left; reflexivity |].
    split; [exact Hdp |].
    intros q Hq Hdq. apply in_app_or in Hq. destruct Hq as [Hq | [<- | []]].
    + specialize (Hnone q Hq). lra.
    + lra.
  - intros (Hin & Hdb & Hmin). num_facts.
    split; [apply in_or_app; left; exact Hin |].
    split; [exact Hdb |].
    intros q Hq Hdq. apply in_app_or in Hq. destruct Hq as [Hq | [<- | []]].
    + apply Hmin; assumption.
    + lra.
  - intros Hnone q Hq. num_facts.
    apply in_app_or in Hq. destruct Hq as [Hq | [<- | []]].
    + apply Hnone. exact Hq.
    + exact Hdp.
Qed.

Lemma before_scan (l seen : list ShoalingPathPoint) (d : R)
    (cb : option ShoalingPathPoint) :
  (forall q, In q (seen ++ l) -> d <= pt_x q -> pt_x q <> 0) ->
  before_inv seen d cb -> before_inv (seen ++ l) d (fold_left (step_before d) l cb).
Proof.
  revert seen cb. induction l as [| p l IH]; intros seen cb Hnz Hinv; simpl.
  - rewrite app_nil_r. exact Hinv.
  - change (p :: l) with ([p] ++ l). rewrite app_assoc.
    apply IH.
    + intros q Hq. apply Hnz. rewrite <- app_assoc in Hq. exact Hq.
    + apply before_step; [| exact Hinv].
      intros q Hq. apply Hnz. apply in_or_app. left. exact Hq.
Qed.

Lemma closestBounds_after (samples : list ShoalingPathPoint) (d : R) :
  after_inv samples d (snd (closestBounds samples d)).
Proof.
  unfold closestBounds. rewrite closestBounds_split. simpl.
  apply (after_scan samples [] d None). intros p [].
Qed.

Lemma closestBounds_before_weak (samples : list ShoalingPathPoint) (d : R) :
  before_weak samples d (fst (closestBounds samples d)).
Proof.
  unfold closestBounds. rewrite closestBounds_split. simpl.
  apply (before_weak_scan samples [] d None). intros p [].
Qed.

Lemma closestBounds_before (samples : list ShoalingPathPoint) (d : R) :
  (forall q, In q samples -> d <= pt_x q -> pt_x q <> 0) ->
  before_inv samples d (fst (closestBounds samples d)).
Proof.
  intros Hnz. unfold closestBounds. rewrite closestBounds_split. simpl.
  apply (before_scan samples [] d None); [exact Hnz |]. intros p [].
Qed.

(* ------------------------------------------------------------------ *)
(** ** Interpolation *)
(* ------------------------------------------------------------------ *)

Section Interpolation.
Variable f : ShoalingPathPoint -> R.
Variable fallback : R.
Variable samples : list ShoalingPathPoint.
Hypothesis distances_nonneg : forall p, In p samples -> 0 <= pt_x p.

Lemma no_zero_candidate (d : R) :
  0 < d -> forall q, In q samples -> d <= pt_x q -> pt_x q <> 0.
Proof. intros Hd q _ Hq. lra. Qed.

(** Between two adjacent samples the result follows the linear rule, the
    two end points included. *)
Lemma interpolate_linear (s1 s2 : ShoalingPathPoint) (d : R) :
  adjacent samples s1 s2 ->
  pt_x s1 <= d <= pt_x s2 ->
  carries f samples s1 -> carries f samples s2 ->
  interpolate f fallback samples d
  = linear_rule (pt_x s1) (f s1) (pt_x s2) (f s2) d.
Proof.
  intros (Hin1 & Hin2 & Hlt & Hgap) [Hd1 Hd2] Hc1 Hc2.
  pose proof (distances_nonneg s1 Hin1) as Hs1.
  pose proof (closestBounds_after samples d) as Ha.
  pose proof (closestBounds_before_weak samples d) as Hbw.
  pose proof (closestBounds_before samples d) as Hbs.
  unfold interpolate, linear_rule.
  destruct (closestBounds samples d) as [cb ca]. simpl in Ha, Hbw, Hbs.
  destruct ca as [a |]; [| specialize (Ha s1 Hin1); lra].
  destruct cb as [b |]; [| specialize (Hbw s2 Hin2); lra].
  destruct Ha as (Hina & Had & Hamax). destruct Hbw as (Hinb & Hdb).
  pose proof (Hamax s1 Hin1 Hd1) as Ha1.
  unfold interp_branch.
  destruct (Rle_lt_or_eq_dec 0 d) as [Hpos | Hzero]; [lra | |].
  - (* 0 < d: both bounds are the nearest samples *)
    specialize (Hbs (no_zero_candidate d Hpos)).
    destruct Hbs as (_ & _ & Hbmin).
    pose proof (Hbmin s2 Hin2 Hd2) as Hb2.
    pose proof (Hgap a Hina) as Hga. pose proof (Hgap b Hinb) as Hgb.
    destruct (Req_dec_T d (pt_x s1)) as [E1 | N1].
    + assert (Hxa : pt_x a = pt_x s1) by lra.
      assert (Hxb : pt_x b = pt_x s1).
      { specialize (Hbmin s1 Hin1). lra. }
      rewrite num_eq_true by lra. cbn [negb interp_value].
      rewrite (Hc1 b Hinb Hxb). subst d. field. lra.
    + destruct (Req_dec_T d (pt_x s2)) as [E2 | N2].
      * assert (Hxb : pt_x b = pt_x s2) by lra.
        assert (Hxa : pt_x a = pt_x s2).
        { specialize (Hamax s2 Hin2). lra. }
        rewrite num_eq_true by lra. cbn [negb interp_value].
        rewrite (Hc2 b Hinb Hxb). subst d. field. lra.
      * assert (Hxa : pt_x a = pt_x s1) by lra.
        assert (Hxb : pt_x b = pt_x s2) by lra.
        rewrite num_eq_false by lra. cbn [negb interp_value].
        unfold blend_t. rewrite !js_or_0.
        rewrite (Hc1 a Hina Hxa), (Hc2 b Hinb Hxb), Hxa, Hxb.
        field. lra.
  - (* d = 0: the lower bound is a sample at the shore *)
    assert (Hxa : pt_x a = pt_x s1).
    { pose proof (distances_nonneg a Hina). lra. }
    assert (Hx1 : pt_x s1 = 0) by lra.
    destruct (num_eq (pt_x b) (pt_x a)) eqn:Hba; cbn [negb interp_value]; num_facts.
    + assert (Hxb : pt_x b = pt_x s1) by lra.
      rewrite (Hc1 b Hinb Hxb). rewrite Hx1, <- Hzero. field. lra.
    + unfold blend_t. rewrite !js_or_0.
      rewrite (Hc1 a Hina Hxa). rewrite Hxa, Hx1, <- Hzero. field.
      split; lra.
Qed.

(** At the distance of a sample the result is the value of that sample. *)
Lemma interpolate_at_sample (s : ShoalingPathPoint) :
  In s samples -> carries f samples s ->
  interpolate f fallback samples (pt_x s) = f s.
Proof.
  intros Hin Hc.
  pose proof (distances_nonneg s Hin) as Hs.
  pose proof (closestBounds_after samples (pt_x s)) as Ha.
  pose proof (closestBounds_before_weak samples (pt_x s)) as Hbw.
  pose proof (closestBounds_before samples (pt_x s)) as Hbs.
  unfold interpolate.
  destruct (closestBounds samples (pt_x s)) as [cb ca]. simpl in Ha, Hbw, Hbs.
  destruct ca as [a |]; [| specialize (Ha s Hin); lra].
  destruct cb as [b |]; [| specialize (Hbw s Hin); lra].
  destruct Ha as (Hina & Had & Hamax). destruct Hbw as (Hinb & Hdb).
  assert (Hxa : pt_x a = pt_x s).
  { specialize (Hamax s Hin). lra. }
  unfold interp_branch.
  destruct (num_eq (pt_x b) (pt_x a)) eqn:Hba; cbn [negb interp_value]; num_facts.
  - apply Hc; [exact Hinb | lra].
  - unfold blend_t. rewrite !js_or_0.
    rewrite (Hc a Hina Hxa), Hxa. field. lra.
Qed.

(** Whatever the samples at the two distances carry, the result follows the
    linear rule between the values of a sample at each of them. *)
Lemma interpolate_linear_some (s1 s2 : ShoalingPathPoint) (d : R) :
  adjacent samples s1 s2 ->
  pt_x s1 <= d <= pt_x s2 ->
  exists b1 b2,
    In b1 samples /\ pt_x b1 = pt_x s1 /\ In b2 samples /\ pt_x b2 = pt_x s2 /\
    interpolate f fallback samples d
    = linear_rule (pt_x s1) (f b1) (pt_x s2) (f b2) d.
Proof.
  intros (Hin1 & Hin2 & Hlt & Hgap) [Hd1 Hd2].
  pose proof (distances_nonneg s1 Hin1) as Hs1.
  pose proof (closestBounds_after samples d) as Ha.
  pose proof (closestBounds_before_weak samples d) as Hbw.
  pose proof (closestBounds_before samples d) as Hbs.
  unfold interpolate, linear_rule.
  destruct (closestBounds samples d) as [cb ca]. simpl in Ha, Hbw, Hbs.
  destruct ca as [a |]; [| specialize (Ha s1 Hin1); lra].
  destruct cb as [b |]; [| specialize (Hbw s2 Hin2); lra].
  destruct Ha as (Hina & Had & Hamax). destruct Hbw as (Hinb & Hdb).
  pose proof (Hamax s1 Hin1 Hd1) as Ha1.
  unfold interp_branch.
  destruct (Rle_lt_or_eq_dec 0 d) as [Hpos | Hzero]; [lra | |].
  - specialize (Hbs (no_zero_candidate d Hpos)).
    destruct Hbs as (_ & _ & Hbmin).
    pose proof (Hbmin s2 Hin2 Hd2) as Hb2.
    pose proof (Hgap a Hina) as Hga. pose proof (Hgap b Hinb) as Hgb.
    destruct (Req_dec_T d (pt_x s1)) as [E1 | N1].
    + assert (Hxb : pt_x b = pt_x s1).
      { specialize (Hbmin s1 Hin1). lra. }
      exists b, s2. repeat (split; [assumption || reflexivity |]).
      rewrite num_eq_true by lra. cbn [negb interp_value].
      subst d. field. lra.
    + destruct (Req_dec_T d (pt_x s2)) as [E2 | N2].
      * assert (Hxb : pt_x b = pt_x s2) by lra.
        assert (Hxa : pt_x a = pt_x s2).
        { specialize (Hamax s2 Hin2). lra. }
        exists s1, b. repeat (split; [assumption || reflexivity |]).
        rewrite num_eq_true by lra. cbn [negb interp_value].
        subst d. field. lra.
      * assert (Hxa : pt_x a = pt_x s1) by lra.
        assert (Hxb : pt_x b = pt_x s2) by lra.
        exists a, b. repeat (split; [assumption |]).
        rewrite num_eq_false by lra. cbn [negb interp_value].
        unfold blend_t. rewrite !js_or_0. rewrite Hxa, Hxb.
        field. lra.
  - assert (Hxa : pt_x a = pt_x s1).
    { pose proof (distances_nonneg a Hina). lra. }
    assert (Hx1 : pt_x s1 = 0) by lra.
    destruct (num_eq (pt_x b) (pt_x a)) eqn:Hba; cbn [negb interp_value]; num_facts.
    + assert (Hxb : pt_x b = pt_x s1) by lra.
      exists b, s2. repeat (split; [assumption || reflexivity |]).
      rewrite Hx1, <- Hzero. field. lra.
    + exists a, s2. repeat (split; [assumption || reflexivity |]).
      unfold blend_t. rewrite !js_or_0.
      rewrite Hxa, Hx1, <- Hzero. field.
      split; lra.
Qed.

(** At the distance of a sample the result is the value of a sample at that
    distance. *)
Lemma interpolate_at_sample_some (s : ShoalingPathPoint) :
  In s samples ->
  exists b, In b samples /\ pt_x b = pt_x s /\
            interpolate f fallback samples (pt_x s) = f b.
Proof.
  intros Hin.
  pose proof (distances_nonneg s Hin) as Hs.
  pose proof (closestBounds_after samples (pt_x s)) as Ha.
  pose proof (closestBounds_before_weak samples (pt_x s)) as Hbw.
  unfold interpolate.
  destruct (closestBounds samples (pt_x s)) as [cb ca]. simpl in Ha, Hbw.
  destruct ca as [a |]; [| specialize (Ha s Hin); lra].
  destruct cb as [b |]; [| specialize (Hbw s Hin); lra].
  destruct Ha as (Hina & Had & Hamax). destruct Hbw as (Hinb & Hdb).
  assert (Hxa : pt_x a = pt_x s).
  { specialize (Hamax s Hin). lra. }
  unfold interp_branch.
  destruct (num_eq (pt_x b) (pt_x a)) eqn:Hba; cbn [negb interp_value]; num_facts.
  - exists b. split; [exact Hinb |]. split; [lra | reflexivity].
  - exists a. split; [exact Hina |]. split; [exact Hxa |].
    unfold blend_t. rewrite !js_or_0. rewrite Hxa. field. lra.
Qed.

(** The scan finds a sample at positive distance [d] on both sides: the
    value is read off without the blend. *)
Lemma interpolate_direct_at_sample (s : ShoalingPathPoint) :
  In s samples -> 0 < pt_x s ->
  exists b, interp_branch (closestBounds samples (pt_x s)) = Direct b /\
            In b samples /\ pt_x b = pt_x s.
Proof.
  intros Hin Hpos.
  pose proof (closestBounds_after samples (pt_x s)) as Ha.
  pose proof (closestBounds_before samples (pt_x s) (no_zero_candidate _ Hpos)) as Hb.
  destruct (closestBounds samples (pt_x s)) as [cb ca]. simpl in Ha, Hb.
  destruct ca as [a |]; [| specialize (Ha s Hin); lra].
  destruct cb as [b |]; [| specialize (Hb s Hin); lra].
  destruct Ha as (Hina & Had & Hamax). destruct Hb as (Hinb & Hdb & Hbmin).
  specialize (Hamax s Hin). specialize (Hbmin s Hin).
  exists b. unfold interp_branch. rewrite num_eq_true by lra. cbn [negb interp_value].
  split; [reflexivity |]. split; [exact Hinb | lra].
Qed.

(** Only samples farther offshore than [d]: the nearest one is used. *)
Lemma interpolate_only_before (d : R) :
  0 <= d -> samples <> [] -> (forall p, In p samples -> d < pt_x p) ->
  exists b, interp_branch (closestBounds samples d) = Direct b /\
            upper_bound samples d b.
Proof.
  clear distances_nonneg. intros Hd Hne Hall.
  pose proof (closestBounds_after samples d) as Ha.
  assert (Hnz : forall q, In q samples -> d <= pt_x q -> pt_x q <> 0).
  { intros q Hq _. specialize (Hall q Hq). lra. }
  pose proof (closestBounds_before samples d Hnz) as Hb.
  destruct (closestBounds samples d) as [cb ca]. simpl in Ha, Hb.
  destruct ca as [a |].
  { destruct Ha as (Hina & Had & _). specialize (Hall a Hina). lra. }
  destruct cb as [b |].
  - exists b. split; [reflexivity | exact Hb].
  - destruct samples as [| p l]; [congruence |].
    specialize (Hb p (or_introl eq_refl)). specialize (Hall p (or_introl eq_refl)). lra.
Qed.

(** Only samples nearer to the shore than [d]: the farthest one is used. *)
Lemma interpolate_only_after (d : R) :
  samples <> [] -> (forall p, In p samples -> pt_x p < d) ->
  exists a, interp_branch (closestBounds samples d) = Direct a /\
            lower_bound samples d a.
Proof.
  clear distances_nonneg. intros Hne Hall.
  pose proof (closestBounds_after samples d) as Ha.
  pose proof (closestBounds_before_weak samples d) as Hb.
  destruct (closestBounds samples d) as [cb ca]. simpl in Ha, Hb.
  destruct cb as [b |].
  { destruct Hb as (Hinb & Hdb). specialize (Hall b Hinb). lra. }
  destruct ca as [a |].
  - exists a. split; [reflexivity | exact Ha].
  - destruct samples as [| p l]; [congruence |].
    specialize (Ha p (or_introl eq_refl)). specialize (Hall p (or_introl eq_refl)). lra.
Qed.
End Interpolation.

(** The blend divides by a difference of distinct distances. *)
Lemma blend_divisor_nonzero (bd : Bounds) (b a : ShoalingPathPoint) :
  interp_branch bd = Blend b a -> js_or (pt_x b) 0 - js_or (pt_x a) 0 <> 0.
Proof.
  destruct bd as [[b' |] [a' |]]; simpl; try discriminate.
  destruct (num_eq (pt_x b') (pt_x a')) eqn:Hba; simpl; [discriminate |].
  intros [= <- <-]. rewrite !js_or_0. num_facts. lra.
Qed.

(** Bounds found at the same distance: the value of [closestBefore] is
    returned as it is. *)
Lemma coincide_direct (b a : ShoalingPathPoint) :
  pt_x b = pt_x a -> interp_branch (Some b, Some a) = Direct b.
Proof.
  intros Hba. unfold interp_branch. rewrite num_eq_true by exact Hba. reflexivity.
Qed.

Lemma interpolate_ext (f g : ShoalingPathPoint -> R) (fallback : R)
    (samples : list ShoalingPathPoint) (d : R) :
  (forall p, f p = g p) ->
  interpolate f fallback samples d = interpolate g fallback samples d.
Proof.
  intros Hfg. unfold interpolate.
  destruct (interp_branch (closestBounds samples d)) as [b a | s |]; simpl;
    rewrite ?Hfg; reflexivity.
Qed.

Lemma h_interp_interpolate (samples : list ShoalingPathPoint) (d : R) :
  h_interp samples d = interpolate pt_h (Rmax 0 (d * (3 / 100))) samples d.
Proof.
  unfold h_interp. apply interpolate_ext. intros p. apply js_or_0.
Qed.

Lemma H_surf_interpolate (samples : list ShoalingPathPoint) (d : R) :
  samples <> [] -> 0 <= d ->
  H_surf samples d = interpolate pt_H 0 samples d.
Proof.
  intros Hne Hd. unfold H_surf.
  destruct samples as [| p l]; [congruence |].
  cbn [length Nat.eqb negb andb]. rewrite num_le_true by exact Hd.
  apply interpolate_ext. intros q. apply js_or_0.
Qed.

(** C3, as it is stated, fails at a distance that two samples share: of the
    samples (76, depth 1) and (76, depth 2) the scan keeps the first, and the
    depth interpolated at the distance of the second sample is 1, not the 2
    that sample carries. *)
Lemma C3_repeated_distance_first_sample_wins :
  In (mkPoint 76 2 1 5) repeated_distance_path /\
  closestBounds repeated_distance_path (pt_x (mkPoint 76 2 1 5))
  = (Some (mkPoint 76 1 1 5), Some (mkPoint 76 1 1 5)) /\
  h_interp repeated_distance_path (pt_x (mkPoint 76 2 1 5)) = 1 /\
  h_interp repeated_distance_path (pt_x (mkPoint 76 2 1 5)) <> pt_h (mkPoint 76 2 1 5).
Proof.
  assert (Hb : closestBounds repeated_distance_path 76
               = (Some (mkPoint 76 1 1 5), Some (mkPoint 76 1 1 5))).
  { unfold closestBounds, repeated_distance_path. js_eval. reflexivity. }
  assert (Hh : h_interp repeated_distance_path 76 = 1).
  { unfold h_interp, interpolate. rewrite Hb. js_eval. reflexivity. }
  split; [right; left; reflexivity |].
  split; [exact Hb |].
  split; [exact Hh |].
  change (pt_x (mkPoint 76 2 1 5)) with 76. rewrite Hh. simpl. lra.
Qed.

(** C3, amended.  With sample distances that are not negative: between two
    adjacent samples at distinct distances d1 < d2 the interpolation at
    d1 <= d <= d2 is v1 + (v2 - v1)(d - d1)/(d2 - d1), where v1 and v2 are
    the values of a sample at d1 and of a sample at d2: the values of the
    two samples themselves when the samples at their distances agree on
    them.  At the distance of a sample it is the value of a sample at that
    distance: that sample's own value when the samples at its distance
    agree on it.  When the two bounds the scan finds lie at the same
    distance the value of that sample is returned by the branch that does
    not divide (for a sample at a positive distance this is the branch
    taken, and the blend never divides by zero); when samples exist on one
    side only, the value of the nearest one is returned.  The depth
    [h_interp] and the wave height [H_surf] are the two instances in the
    source. *)
Theorem C3_interpolation_exact_and_linear
    (samples : list ShoalingPathPoint) (f : ShoalingPathPoint -> R) (fallback : R) :
  (forall p, In p samples -> 0 <= pt_x p) ->
  (forall s1 s2 d,
      adjacent samples s1 s2 -> pt_x s1 <= d <= pt_x s2 ->
      carries f samples s1 -> carries f samples s2 ->
      interpolate f fallback samples d
      = linear_rule (pt_x s1) (f s1) (pt_x s2) (f s2) d) /\
  (forall s1 s2 d,
      adjacent samples s1 s2 -> pt_x s1 <= d <= pt_x s2 ->
      exists b1 b2,
        In b1 samples /\ pt_x b1 = pt_x s1 /\ In b2 samples /\ pt_x b2 = pt_x s2 /\
        interpolate f fallback samples d
        = linear_rule (pt_x s1) (f b1) (pt_x s2) (f b2) d) /\
  (forall s,
      In s samples -> carries f samples s ->
      interpolate f fallback samples (pt_x s) = f s) /\
  (forall s,
      In s samples ->
      exists b, In b samples /\ pt_x b = pt_x s /\
                interpolate f fallback samples (pt_x s) = f b) /\
  (forall d b a,
      closestBounds samples d = (Some b, Some a) -> pt_x b = pt_x a ->
      interp_branch (closestBounds samples d) = Direct b /\
      interpolate f fallback samples d = f b) /\
  (forall s,
      In s samples -> 0 < pt_x s ->
      exists b, interp_branch (closestBounds samples (pt_x s)) = Direct b /\
                In b samples /\ pt_x b = pt_x s) /\
  (forall d b a,
      interp_branch (closestBounds samples d) = Blend b a ->
      js_or (pt_x b) 0 - js_or (pt_x a) 0 <> 0) /\
  (forall d,
      0 <= d -> samples <> [] -> (forall p, In p samples -> d < pt_x p) ->
      exists b, upper_bound samples d b /\ interpolate f fallback samples d = f b) /\
  (forall d,
      samples <> [] -> (forall p, In p samples -> pt_x p < d) ->
      exists a, lower_bound samples d a /\ interpolate f fallback samples d = f a) /\
  (forall d, h_interp samples d = interpolate pt_h (Rmax 0 (d * (3 / 100))) samples d) /\
  (forall d, samples <> [] -> 0 <= d -> H_surf samples d = interpolate pt_H 0 samples d).
Proof.
  intros Hnn.
  split; [intros s1 s2 d; apply interpolate_linear; exact Hnn |].
  split; [intros s1 s2 d; apply interpolate_linear_some; exact Hnn |].
  split; [intros s; apply interpolate_at_sample; exact Hnn |].
  split; [intros s; apply interpolate_at_sample_some; exact Hnn |].
  split.
  { intros d b a Hbd Hba. unfold interpolate. rewrite Hbd.
    rewrite (coincide_direct b a Hba). split; reflexivity. }
  split; [intros s; apply interpolate_direct_at_sample |].
  split; [intros d b a; apply blend_divisor_nonzero |].
  split.
  { intros d Hd Hne Hall.
    destruct (interpolate_only_before samples d Hd Hne Hall) as (b & Hbr & Hub).
    exists b. split; [exact Hub |]. unfold interpolate. rewrite Hbr. reflexivity. }
  split.
  { intros d Hne Hall.
    destruct (interpolate_only_after samples d Hne Hall) as (a & Hbr & Hlb).
    exists a. split; [exact Hlb |]. unfold interpolate. rewrite Hbr. reflexivity. }
  split; [apply h_interp_interpolate | apply H_surf_interpolate].
Qed.

Lemma example_path_cases (P : ShoalingPathPoint -> Prop) :
  P (mkPoint 200 5 1 8) -> P (mkPoint 50 1 (9 / 10) 5) -> P (mkPoint 0 0 0 0) ->
  forall p, In p example_path -> P p.
Proof.
  intros H1 H2 H3 p [<- | [<- | [<- | []]]]; assumption.
Qed.

(** The depth of the end-to-end example at 100 m, through C3. *)
Lemma C3_interpolation_witness :
  interpolate pt_h 0 example_path 100 = linear_rule 50 1 200 5 100.
Proof.
  assert (Hnn : forall p, In p example_path -> 0 <= pt_x p).
  { apply example_path_cases; simpl; lra. }
  apply (proj1 (C3_interpolation_exact_and_linear example_path pt_h 0 Hnn)
           (mkPoint 50 1 (9 / 10) 5) (mkPoint 200 5 1 8) 100).
  - split; [right; left; reflexivity |].
    split; [left; reflexivity |].
    split; [simpl; lra |].
    apply example_path_cases; simpl; lra.
  - simpl. lra.
  - unfold carries.
    apply (example_path_cases (fun p => pt_x p = 50 -> pt_h p = 1)); simpl; intros; lra.
  - unfold carries.
    apply (example_path_cases (fun p => pt_x p = 200 -> pt_h p = 5)); simpl; intros; lra.
Defined.

(* ------------------------------------------------------------------ *)
(** ** The phase speed blended inside the wave-surface loop *)
(* ------------------------------------------------------------------ *)

(** Line 412 subtracts [closestBefore.c] from itself: in the blend branch
    the local [c] is the phase speed of [closestAfter], whatever [t] is. *)
Lemma c_surface_blend (samples : list ShoalingPathPoint) (x_m : R)
    (b a : ShoalingPathPoint) :
  samples <> [] ->
  interp_branch (closestBounds samples x_m) = Blend b a ->
  c_surface samples x_m = c_of a.
Proof.
  intros Hne Hbr. unfold c_surface.
  destruct samples as [| p l]; [congruence |].
  cbn [length Nat.eqb negb]. rewrite Hbr. lra.
Qed.

(** C4, on the code.  For the samples of the end-to-end example the position
    100 m lies strictly between the samples at 50 m (c = 5) and 200 m
    (c = 8), with t = 1/3.  The rule of section 4.1 gives 5 + 1/3 (8 - 5) = 6,
    which is also what the envelope loop computes; the wave-surface loop
    yields 5. *)
Theorem C4_surface_phase_speed_not_blended :
  interp_branch (closestBounds example_path 100)
    = Blend (mkPoint 200 5 1 8) (mkPoint 50 1 (9 / 10) 5) /\
  blend_t 100 (mkPoint 200 5 1 8) (mkPoint 50 1 (9 / 10) 5) = 1 / 3 /\
  c_surface example_path 100 = 5 /\
  c_envelope example_path 100 = 6 /\
  5 + 1 / 3 * (8 - 5) = 6 /\
  c_surface example_path 100 <> 5 + 1 / 3 * (8 - 5).
Proof.
  assert (Hbr : interp_branch (closestBounds example_path 100)
                = Blend (mkPoint 200 5 1 8) (mkPoint 50 1 (9 / 10) 5)).
  { rewrite example_bounds_100. js_eval. reflexivity. }
  assert (Hc : c_surface example_path 100 = 5).
  { rewrite (c_surface_blend example_path 100 _ _ ltac:(discriminate) Hbr).
    js_eval. reflexivity. }
  split; [exact Hbr |].
  split; [js_eval; lra |].
  split; [exact Hc |].
  split.
  { unfold c_envelope, interpolate, example_path.
    cbn [length Nat.eqb negb andb]. rewrite num_le_true by lra.
    fold example_path. rewrite Hbr. js_eval. lra. }
  split; [lra |].
  rewrite Hc. lra.
Qed.

(* ------------------------------------------------------------------ *)
(** ** The breaking distance in use *)
(* ------------------------------------------------------------------ *)

Lemma breakingDistM_not_found (api : option R) :
  breakingDistM None api = match api with Some d => d | None => 0 end.
Proof.
  unfold breakingDistM. simpl. destruct api as [d |]; simpl; [apply js_or_0 | reflexivity].
Qed.

Lemma breakingDistM_found (bp : BreakingPoint) (api : option R) :
  bp_x bp <> 0 -> breakingDistM (Some bp) api = bp_x bp.
Proof.
  intros Hx. unfold breakingDistM. simpl. apply js_or_truthy. exact Hx.
Qed.

(** C10.  A detected breaking point at distance exactly 0 leaves the breaking
    distance in use at the externally supplied default (0 when there is
    none), the value it has when detection finds nothing; so do the display
    cutoff of the envelope, the phase offset and the position of the forced
    crest, which read the breaking distance through this value only. *)
Theorem C10_zero_distance_is_not_found
    (units : UnitSystem) (bp : BreakingPoint) (distance_from_shore_m : option R) :
  bp_x bp = 0 ->
  breakingDistM (Some bp) distance_from_shore_m = breakingDistM None distance_from_shore_m /\
  breakingDistM (Some bp) distance_from_shore_m
    = match distance_from_shore_m with Some d => d | None => 0 end /\
  breakingDistDisplay units (Some bp) distance_from_shore_m
    = breakingDistDisplay units None distance_from_shore_m /\
  (forall wavelength,
      globalPhaseOffset wavelength (breakingDistM (Some bp) distance_from_shore_m)
      = globalPhaseOffset wavelength (breakingDistM None distance_from_shore_m)) /\
  endX (breakingDistM (Some bp) distance_from_shore_m)
    = endX (breakingDistM None distance_from_shore_m) /\
  (forall data,
      force_crest units (Some bp) (breakingDistM (Some bp) distance_from_shore_m) data
      = force_crest units (Some bp) (breakingDistM None distance_from_shore_m) data).
Proof.
  intros Hx.
  assert (Heq : breakingDistM (Some bp) distance_from_shore_m
                = breakingDistM None distance_from_shore_m).
  { unfold breakingDistM. simpl. rewrite Hx. apply js_or_falsy. }
  split; [exact Heq |].
  split; [rewrite Heq; apply breakingDistM_not_found |].
  split; [unfold breakingDistDisplay; rewrite Heq; reflexivity |].
  split; [intros wavelength; rewrite Heq; reflexivity |].
  split; [rewrite Heq; reflexivity |].
  intros data. rewrite Heq. reflexivity.
Qed.

(** A breaking point at the shore with a default distance of 30 m. *)
Lemma C10_zero_distance_witness :
  breakingDistM (Some (mkBreaking 0 1 (9 / 10) 5)) (Some 30) = 30.
Proof.
  pose proof (C10_zero_distance_is_not_found metric (mkBreaking 0 1 (9 / 10) 5)
                (Some 30) eq_refl) as (_ & Hval & _).
  exact Hval.
Defined.

(* ------------------------------------------------------------------ *)
(** ** The reference wavelength *)
(* ------------------------------------------------------------------ *)

Lemma sum_c_fold (l : list ShoalingPathPoint) (acc : R) :
  fold_left (fun sum p => sum + c_of p) l acc = acc + fold_right Rplus 0 (map c_of l).
Proof.
  revert acc. induction l as [| p l IH]; intros acc; simpl; [lra |].
  rewrite IH. lra.
Qed.

Lemma avgC_mean (samples : list ShoalingPathPoint) :
  avgC samples = mean (map c_of samples).
Proof.
  unfold avgC, mean. rewrite sum_c_fold, length_map. f_equal. lra.
Qed.

Lemma first_breaking_c_nonzero (path : list ShoalingPathPoint) (b : BreakingPoint) :
  first_breaking path = Some b -> bp_c b <> 0.
Proof.
  intros Hfb. destruct (first_breaking_Some _ _ Hfb) as (_ & s & _ & _ & _ & _ & ->).
  simpl. apply js_or_nonzero. lra.
Qed.

Lemma wavelength_ref_L_ref (samples : list ShoalingPathPoint) (period : R) :
  samples <> [] ->
  wavelength_ref (breakingPointFromPhysics samples) samples period
  = L_ref (breakingPointFromPhysics samples) samples period.
Proof.
  intros Hne. unfold wavelength_ref, L_ref, breakingPointFromPhysics.
  destruct (first_breaking (sortedPath samples)) as [b |] eqn:Hfb.
  - unfold truthy. rewrite num_eq_false by (eapply first_breaking_c_nonzero; exact Hfb).
    reflexivity.
  - destruct samples as [| p l]; [congruence |].
    cbn [length Nat.eqb negb]. rewrite avgC_mean. reflexivity.
Qed.

Lemma map_c_of_nonzero (samples : list ShoalingPathPoint) :
  Forall (fun p => pt_c p <> 0) samples -> map c_of samples = map pt_c samples.
Proof.
  induction 1 as [| p l Hp _ IH]; simpl; [reflexivity |].
  rewrite IH. unfold c_of. rewrite js_or_truthy by exact Hp. reflexivity.
Qed.

Lemma signed_display_convert (units : UnitSystem) (y : R) :
  signed_display units y = convertHeight units y.
Proof.
  unfold signed_display. destruct (num_lt y 0) eqn:Hy; [| reflexivity].
  num_facts. rewrite Rabs_left by exact Hy.
  destruct units; simpl; lra.
Qed.

Lemma surface_loop_In (units : UnitSystem) (samples : list ShoalingPathPoint)
    (wavelength offset x_start x_end cutoff : R) (q : WavePoint) :
  In q (surface_loop units samples wavelength offset x_start x_end cutoff) <->
  exists i, (i <= numPoints)%nat /\
            q = surface_point units samples wavelength offset (surface_x x_start x_end i) /\
            0 <= wave_x q <= Rmax cutoff (MAX_DISTANCE units).
Proof.
  unfold surface_loop. rewrite filter_In, in_map_iff. unfold in_range.
  rewrite andb_true_iff, !num_le_spec. split.
  - intros [(i & <- & Hi) Hr]. apply in_seq in Hi.
    exists i. split; [lia |]. split; [reflexivity | exact Hr].
  - intros (i & Hi & -> & Hr). split; [| exact Hr].
    exists i. split; [reflexivity |]. apply in_seq. lia.
Qed.

Lemma update_first_In (near : WavePoint -> bool) (y : R) (l : list WavePoint)
    (q : WavePoint) :
  In q (update_first near y l) ->
  In q l \/ (exists p, In p l /\ near p = true /\ q = mkWave (wave_x p) y).
Proof.
  induction l as [| p l IH]; simpl; [tauto |].
  destruct (near p) eqn:Hp.
  - intros [<- | Hin]; [| tauto].
    right. exists p. auto.
  - intros [<- | Hin]; [tauto |].
    destruct (IH Hin) as [Hl | (p' & Hp' & Hn & ->)]; [tauto |].
    right. exists p'. auto.
Qed.

(** Every point of a forced curve is a point of the loop or the forced crest. *)
Lemma force_crest_In (units : UnitSystem) (bp : option BreakingPoint) (bd : R)
    (data : list WavePoint) (q : WavePoint) :
  In q (force_crest units bp bd data) ->
  In q data \/
  (exists b, bp = Some b /\ 0 <= bd /\ wave_y q = y_break_display units b /\
             Rabs (wave_x q - convertDistance units bd) < 1 / 10).
Proof.
  unfold force_crest. destruct bp as [b |]; [| tauto].
  destruct (num_le 0 bd) eqn:Hbd; [| tauto]. num_facts.
  rewrite js_sort_In.
  destruct (existsb _ data) eqn:Hex.
  - intros Hin. apply update_first_In in Hin.
    destruct Hin as [Hin | (p & Hp & Hn & ->)]; [tauto |].
    right. exists b. num_facts. simpl. auto.
  - intros Hin. apply in_app_or in Hin. destruct Hin as [Hin | [<- | []]]; [tauto |].
    right. exists b. simpl. repeat split; try assumption.
    rewrite Rminus_diag, Rabs_R0. lra.
Qed.

Lemma waveShapeData_nonempty (units : UnitSystem) (samples : list ShoalingPathPoint)
    (period_s distance_from_shore_m : option R) :
  samples <> [] ->
  waveShapeData units samples period_s distance_from_shore_m
  = force_crest units (breakingPointFromPhysics samples)
      (breakingDistM (breakingPointFromPhysics samples) distance_from_shore_m)
      (surface_loop units samples
         (wavelength_ref (breakingPointFromPhysics samples) samples (opt_or period_s 11))
         (globalPhaseOffset
            (wavelength_ref (breakingPointFromPhysics samples) samples (opt_or period_s 11))
            (breakingDistM (breakingPointFromPhysics samples) distance_from_shore_m))
         (startX samples)
         (endX (breakingDistM (breakingPointFromPhysics samples) distance_from_shore_m))
         (breakingDistDisplay units (breakingPointFromPhysics samples) distance_from_shore_m)).
Proof.
  intros Hne. destruct samples as [| p0 l]; [congruence | reflexivity].
Qed.

(** C7.  For a non-empty sample set the wave-surface code works with one
    reference wavelength, [L_ref]: the phase speed at the breaking point
    times the wave period when a breaking point was detected, else the mean
    phase speed of the samples times the wave period (a phase speed read as
    [c || 10], which is the stored speed when that is not 0).  Every point of
    the returned curve is either a loop point whose phase is
    [k_ref * x + offset] with the single wave number [k_ref = 2 PI / L_ref],
    or the crest forced at the breaking distance. *)
Theorem C7_one_reference_wavelength
    (units : UnitSystem) (samples : list ShoalingPathPoint)
    (period_s distance_from_shore_m : option R) :
  samples <> [] ->
  let wavePeriod := opt_or period_s 11 in
  let bp := breakingPointFromPhysics samples in
  let bd := breakingDistM bp distance_from_shore_m in
  let k_ref := 2 * PI / L_ref bp samples wavePeriod in
  wavelength_ref bp samples wavePeriod = L_ref bp samples wavePeriod /\
  (Forall (fun p => pt_c p <> 0) samples ->
   L_ref None samples wavePeriod = mean (map pt_c samples) * wavePeriod) /\
  forall q, In q (waveShapeData units samples period_s distance_from_shore_m) ->
    (exists i, (i <= numPoints)%nat /\
       let x_m := surface_x (startX samples) (endX bd) i in
       wave_x q = convertDistance units x_m /\
       wave_y q = convertHeight units
                    (- (H_surf_m samples x_m / 2)
                     * sin (k_ref * x_m + globalPhaseOffset (L_ref bp samples wavePeriod) bd)))
    \/ (exists b, bp = Some b /\ wave_y q = y_break_display units b).
Proof.
  intros Hne wavePeriod bp bd k_ref. subst wavePeriod bp bd k_ref.
  pose proof (wavelength_ref_L_ref samples (opt_or period_s 11) Hne) as HL.
  split; [exact HL |].
  split.
  { intros Hc. unfold L_ref. rewrite (map_c_of_nonzero samples Hc). reflexivity. }
  intros q Hq. rewrite waveShapeData_nonempty in Hq by exact Hne.
  rewrite HL in Hq.
  apply force_crest_In in Hq. destruct Hq as [Hq | (b & Hb & _ & Hy & _)].
  - left. apply surface_loop_In in Hq. destruct Hq as (i & Hi & -> & _).
    exists i. split; [exact Hi |]. cbn zeta.
    split; [reflexivity |].
    unfold surface_point, surface_y_m, surface_interp. cbn [wave_y].
    rewrite signed_display_convert. reflexivity.
  - right. exists b. split; [exact Hb | exact Hy].
Qed.

(** The reference wavelength of the end-to-end example: 5 m/s over the
    default period of 11 s. *)
Lemma C7_reference_wavelength_witness :
  wavelength_ref (breakingPointFromPhysics example_path) example_path (opt_or None 11)
  = L_ref (breakingPointFromPhysics example_path) example_path (opt_or None 11).
Proof.
  assert (Hne : example_path <> []) by discriminate.
  exact (proj1 (C7_one_reference_wavelength metric example_path None None Hne)).
Defined.

(* ------------------------------------------------------------------ *)
(** ** Two runs that differ in phase speeds only *)
(* ------------------------------------------------------------------ *)

Lemma step_before_same (d : R) (cb1 cb2 : option ShoalingPathPoint)
    (p q : ShoalingPathPoint) :
  same_geometry p q -> opt_same cb1 cb2 ->
  opt_same (step_before d cb1 p) (step_before d cb2 q).
Proof.
  intros Hpq Hcb. pose proof Hpq as (Hx & _ & _).
  unfold step_before. rewrite Hx.
  destruct (num_le d (js_or (pt_x q) 0)); [| exact Hcb].
  destruct cb1 as [b1 |], cb2 as [b2 |]; simpl in Hcb; try contradiction; [| exact Hpq].
  pose proof Hcb as (Hbx & _ & _). rewrite Hbx.
  destruct (lt_or_Infinity (js_or (pt_x q) 0) (pt_x b2)); [exact Hpq | exact Hcb].
Qed.

Lemma step_after_same (d : R) (ca1 ca2 : option ShoalingPathPoint)
    (p q : ShoalingPathPoint) :
  same_geometry p q -> opt_same ca1 ca2 ->
  opt_same (step_after d ca1 p) (step_after d ca2 q).
Proof.
  intros Hpq Hca. pose proof Hpq as (Hx & _ & _).
  unfold step_after. rewrite Hx.
  destruct (num_le (js_or (pt_x q) 0) d); [| exact Hca].
  destruct ca1 as [a1 |], ca2 as [a2 |]; simpl in Hca; try contradiction; [| exact Hpq].
  pose proof Hca as (Hax & _ & _). rewrite Hax.
  destruct (num_lt (js_or (pt_x a2) 0) (js_or (pt_x q) 0)); [exact Hpq | exact Hca].
Qed.

Lemma bounds_same (d : R) (l1 l2 : list ShoalingPathPoint) :
  Forall2 same_geometry l1 l2 ->
  forall st1 st2 : Bounds,
    opt_same (fst st1) (fst st2) -> opt_same (snd st1) (snd st2) ->
    opt_same (fst (fold_left (bounds_step d) l1 st1)) (fst (fold_left (bounds_step d) l2 st2)) /\
    opt_same (snd (fold_left (bounds_step d) l1 st1)) (snd (fold_left (bounds_step d) l2 st2)).
Proof.
  induction 1 as [| p q l1 l2 Hpq _ IH]; intros st1 st2 Hb Ha; simpl; [tauto |].
  apply IH; simpl.
  - apply step_before_same; assumption.
  - apply step_after_same; assumption.
Qed.

Lemma interpolate_H_same (fallback d : R) (l1 l2 : list ShoalingPathPoint) :
  Forall2 same_geometry l1 l2 ->
  interpolate H_of fallback l1 d = interpolate H_of fallback l2 d.
Proof.
  intros Hl. unfold interpolate, closestBounds.
  destruct (bounds_same d l1 l2 Hl (None, None) (None, None) I I) as [Hb Ha].
  destruct (fold_left (bounds_step d) l1 (None, None)) as [cb1 ca1].
  destruct (fold_left (bounds_step d) l2 (None, None)) as [cb2 ca2].
  simpl in Hb, Ha.
  destruct cb1 as [b1 |], cb2 as [b2 |]; simpl in Hb; try contradiction;
    destruct ca1 as [a1 |], ca2 as [a2 |]; simpl in Ha; try contradiction;
    unfold interp_branch;
    repeat match goal with
           | H : same_geometry _ _ |- _ => destruct H as (? & ? & ?)
           end;
    try reflexivity.
  - replace (pt_x b1) with (pt_x b2) by congruence.
    replace (pt_x a1) with (pt_x a2) by congruence.
    destruct (num_eq (pt_x b2) (pt_x a2)); simpl; unfold H_of, blend_t; congruence.
  - simpl. unfold H_of. congruence.
  - simpl. unfold H_of. congruence.
Qed.

Lemma H_surf_m_same (d : R) (l1 l2 : list ShoalingPathPoint) :
  Forall2 same_geometry l1 l2 -> H_surf_m l1 d = H_surf_m l2 d.
Proof.
  intros Hl. unfold H_surf_m.
  rewrite (Forall2_length Hl), (interpolate_H_same 0 d l1 l2 Hl). reflexivity.
Qed.

Lemma sort_insert_same (p q : ShoalingPathPoint) (l1 l2 : list ShoalingPathPoint) :
  same_geometry p q -> Forall2 same_geometry l1 l2 ->
  Forall2 same_geometry (sort_insert cmp_x_desc p l1) (sort_insert cmp_x_desc q l2).
Proof.
  intros Hpq. induction 1 as [| y1 y2 l1 l2 Hy Hl IH]; simpl.
  - constructor; [exact Hpq | constructor].
  - replace (cmp_x_desc q y2) with (cmp_x_desc p y1).
    + destruct (num_le (cmp_x_desc p y1) 0); repeat (constructor; try assumption).
    + unfold cmp_x_desc. destruct Hpq as (-> & _), Hy as (-> & _). reflexivity.
Qed.

Lemma sortedPath_same (l1 l2 : list ShoalingPathPoint) :
  Forall2 same_geometry l1 l2 ->
  Forall2 same_geometry (sortedPath l1) (sortedPath l2).
Proof.
  unfold sortedPath. induction 1 as [| p q l1 l2 Hpq _ IH]; simpl.
  - constructor.
  - apply sort_insert_same; assumption.
Qed.

Lemma breaks_same (p q : ShoalingPathPoint) :
  same_geometry p q -> breaks p = breaks q.
Proof. intros (_ & Hh & HH). unfold breaks. rewrite Hh, HH. reflexivity. Qed.

Lemma first_breaking_same (l1 l2 : list ShoalingPathPoint) :
  Forall2 same_geometry l1 l2 ->
  breaking_same (first_breaking l1) (first_breaking l2).
Proof.
  induction 1 as [| p q l1 l2 Hpq _ IH]; simpl; [exact I |].
  rewrite (breaks_same p q Hpq). destruct (breaks q); [| exact IH].
  destruct Hpq as (Hx & Hh & HH). simpl. rewrite Hx. auto.
Qed.

Lemma breakingPoint_same (l1 l2 : list ShoalingPathPoint) :
  Forall2 same_geometry l1 l2 ->
  breaking_same (breakingPointFromPhysics l1) (breakingPointFromPhysics l2).
Proof.
  intros Hl. apply first_breaking_same, sortedPath_same, Hl.
Qed.

Lemma maxXFromPath_same (l1 l2 : list ShoalingPathPoint) :
  Forall2 same_geometry l1 l2 -> maxXFromPath l1 = maxXFromPath l2.
Proof.
  intros Hl. unfold maxXFromPath.
  destruct Hl as [| p q l1 l2 (Hx & _) Hl]; [reflexivity |].
  rewrite Hx. generalize (js_or (pt_x q) 0).
  induction Hl as [| p' q' l1 l2 (Hx' & _) _ IH]; intros m; simpl; [reflexivity |].
  rewrite Hx'. apply IH.
Qed.

Lemma breakingDistM_same (bp1 bp2 : option BreakingPoint) (api : option R) :
  breaking_same bp1 bp2 -> breakingDistM bp1 api = breakingDistM bp2 api.
Proof.
  unfold breakingDistM.
  destruct bp1 as [b1 |], bp2 as [b2 |]; simpl; try contradiction; [| reflexivity].
  intros (-> & _). reflexivity.
Qed.

Lemma force_crest_same (units : UnitSystem) (bp1 bp2 : option BreakingPoint)
    (bd : R) (data : list WavePoint) :
  breaking_same bp1 bp2 ->
  force_crest units bp1 bd data = force_crest units bp2 bd data.
Proof.
  unfold force_crest.
  destruct bp1 as [b1 |], bp2 as [b2 |]; simpl; try contradiction; [| reflexivity].
  intros (_ & _ & HH). unfold y_break_display. rewrite HH. reflexivity.
Qed.

Lemma surface_loop_same (units : UnitSystem) (l1 l2 : list ShoalingPathPoint)
    (wavelength offset x_start x_end cutoff : R) :
  Forall2 same_geometry l1 l2 ->
  surface_loop units l1 wavelength offset x_start x_end cutoff
  = surface_loop units l2 wavelength offset x_start x_end cutoff.
Proof.
  intros Hl. unfold surface_loop. f_equal. apply map_ext. intros i.
  unfold surface_point, surface_y_m, surface_interp.
  rewrite (H_surf_m_same _ l1 l2 Hl). reflexivity.
Qed.

(** C9.  Two runs on samples that agree in distance, depth and wave height
    and differ at most in their phase speeds, and that arrive at the same
    reference wavelength, return the same wave surface, point for point: the
    phase speeds reach the curve through the reference wavelength only, and
    the phase speed interpolated inside the loop reaches it not at all. *)
Theorem C9_phase_speed_only_through_wavelength
    (units : UnitSystem) (samples1 samples2 : list ShoalingPathPoint)
    (period_s distance_from_shore_m : option R) :
  Forall2 same_geometry samples1 samples2 ->
  wavelength_ref (breakingPointFromPhysics samples1) samples1 (opt_or period_s 11)
  = wavelength_ref (breakingPointFromPhysics samples2) samples2 (opt_or period_s 11) ->
  waveShapeData units samples1 period_s distance_from_shore_m
  = waveShapeData units samples2 period_s distance_from_shore_m /\
  (forall wavelength offset x_m,
      surface_y_m samples1 wavelength offset x_m
      = surface_y_m samples2 wavelength offset x_m).
Proof.
  intros Hl Hw. split.
  - destruct Hl as [| p q l1 l2 Hpq Hl]; [reflexivity |].
    assert (Hl' : Forall2 same_geometry (p :: l1) (q :: l2)) by (constructor; assumption).
    rewrite !waveShapeData_nonempty by discriminate.
    pose proof (breakingPoint_same _ _ Hl') as Hbp.
    rewrite Hw.
    rewrite (breakingDistM_same _ _ distance_from_shore_m Hbp).
    unfold breakingDistDisplay, startX.
    rewrite (breakingDistM_same _ _ distance_from_shore_m Hbp).
    rewrite (maxXFromPath_same _ _ Hl').
    rewrite (surface_loop_same units _ _ _ _ _ _ _ Hl').
    apply force_crest_same. exact Hbp.
  - intros wavelength offset x_m. unfold surface_y_m, surface_interp.
    rewrite (H_surf_m_same _ _ _ Hl). reflexivity.
Qed.

Lemma example_other_breaking :
  breakingPointFromPhysics example_path_other_speeds = Some (mkBreaking 50 1 (9 / 10) 5).
Proof.
  unfold breakingPointFromPhysics, sortedPath, example_path_other_speeds.
  js_eval. reflexivity.
Qed.

(** The end-to-end example and its variant with other offshore and shore
    phase speeds draw the same curve. *)
Lemma C9_phase_speed_witness :
  waveShapeData metric example_path None None
  = waveShapeData metric example_path_other_speeds None None.
Proof.
  apply (C9_phase_speed_only_through_wavelength metric
           example_path example_path_other_speeds None None).
  - unfold example_path, example_path_other_speeds, same_geometry.
    repeat constructor.
  - rewrite example_breaking, example_other_breaking.
    unfold wavelength_ref. js_eval. reflexivity.
Defined.

(* ------------------------------------------------------------------ *)
(** ** Order of the returned sequences *)
(* ------------------------------------------------------------------ *)

Lemma bathymetryData_ascending (units : UnitSystem) (samples : list ShoalingPathPoint)
    (tide_level_m : option R) :
  ascending (map vis_x (bathymetryData units samples tide_level_m)).
Proof. unfold bathymetryData. apply (js_sort_ascending vis_x). Qed.

Lemma waveEnvelopeData_ascending (units : UnitSystem) (samples : list ShoalingPathPoint)
    (tide_level_m distance_from_shore_m : option R) :
  ascending (map vis_x (waveEnvelopeData units samples tide_level_m distance_from_shore_m)).
Proof. unfold waveEnvelopeData. apply (js_sort_ascending vis_x). Qed.

(** The wave surface is sorted inside the block that forces the crest. *)
Lemma waveShapeData_ascending_when_forced (units : UnitSystem)
    (samples : list ShoalingPathPoint) (period_s distance_from_shore_m : option R)
    (b : BreakingPoint) :
  breakingPointFromPhysics samples = Some b ->
  0 <= breakingDistM (Some b) distance_from_shore_m ->
  ascending (map wave_x (waveShapeData units samples period_s distance_from_shore_m)).
Proof.
  intros Hb Hbd. unfold waveShapeData.
  destruct samples as [| p0 l]; [constructor |].
  cbv zeta. rewrite Hb. unfold force_crest.
  rewrite num_le_true by exact Hbd.
  apply (js_sort_ascending wave_x).
Qed.

Lemma INR_numPoints : INR numPoints = 600.
Proof. unfold numPoints. rewrite INR_IZR_INZ. reflexivity. Qed.

Lemma surface_x_first (x_start x_end : R) : surface_x x_start x_end 0 = x_start.
Proof. unfold surface_x. rewrite INR_numPoints. simpl INR. lra. Qed.

Lemma surface_x_second (x_start x_end : R) :
  surface_x x_start x_end 1 = x_start + (x_end - x_start) / 600.
Proof. unfold surface_x. rewrite INR_numPoints. simpl INR. lra. Qed.

Lemma surface_x_last (x_start x_end : R) : surface_x x_start x_end numPoints = x_end.
Proof. unfold surface_x. rewrite INR_numPoints. field. Qed.

Lemma no_break_detected : breakingPointFromPhysics no_break_path = None.
Proof.
  unfold breakingPointFromPhysics, sortedPath, no_break_path.
  js_eval. reflexivity.
Qed.

Lemma filter_cons_true {A : Type} (f : A -> bool) (a : A) (l : list A) :
  f a = true -> filter f (a :: l) = a :: filter f l.
Proof. intros Hfa. simpl. rewrite Hfa. reflexivity. Qed.

Lemma in_range_true (lo hi v : R) : lo <= v <= hi -> in_range lo hi v = true.
Proof.
  intros [Hlo Hhi]. unfold in_range.
  rewrite (num_le_true lo v Hlo), (num_le_true v hi Hhi). reflexivity.
Qed.

Lemma in_range_spec (lo hi v : R) : in_range lo hi v = true <-> lo <= v <= hi.
Proof. unfold in_range. rewrite andb_true_iff, !num_le_spec. tauto. Qed.

(** The first two iterations of the loop. *)
Lemma surface_loop_unroll (units : UnitSystem) (samples : list ShoalingPathPoint)
    (wavelength offset x_start x_end cutoff : R) :
  surface_loop units samples wavelength offset x_start x_end cutoff
  = filter (fun p => in_range 0 (Rmax cutoff (MAX_DISTANCE units)) (wave_x p))
      (surface_point units samples wavelength offset (surface_x x_start x_end 0)
       :: surface_point units samples wavelength offset (surface_x x_start x_end 1)
       :: map (fun i => surface_point units samples wavelength offset
                          (surface_x x_start x_end i))
              (seq 2 (numPoints - 1))).
Proof. reflexivity. Qed.

(** C5, on the code.  With the single sample (200, 5, 1.0, 8) no breaking
    point is detected and, without a default breaking distance, the wave
    surface runs from 152 m down to 0 m; the sort of line 484 sits inside the
    block guarded by the detected breaking point and is not reached, so the
    returned wave surface starts 152, 152 - 152/600, ... and is not
    ascending.  (Bathymetry and envelope are sorted on every input:
    [bathymetryData_ascending], [waveEnvelopeData_ascending]; the wave
    surface is when a breaking point was detected:
    [waveShapeData_ascending_when_forced].) *)
Theorem C5_wave_surface_not_sorted_without_breaking_point :
  breakingPointFromPhysics no_break_path = None /\
  (exists rest,
      map wave_x (waveShapeData metric no_break_path None None)
      = 152 :: (152 - 152 / 600) :: rest) /\
  ~ ascending (map wave_x (waveShapeData metric no_break_path None None)) /\
  ascending (map vis_x (bathymetryData metric no_break_path None)) /\
  ascending (map vis_x (waveEnvelopeData metric no_break_path None None)).
Proof.
  split; [exact no_break_detected |].
  assert (Hhead : exists rest,
             map wave_x (waveShapeData metric no_break_path None None)
             = 152 :: (152 - 152 / 600) :: rest).
  { rewrite waveShapeData_nonempty by discriminate.
    rewrite no_break_detected. cbn [force_crest].
    assert (Hstart : startX no_break_path = 152).
    { unfold startX, maxXFromPath, no_break_path, MAX_DISTANCE_M. js_eval. reflexivity. }
    assert (Hend : endX (breakingDistM None None) = 0).
    { unfold endX, breakingDistM. js_eval. reflexivity. }
    assert (Hcut : breakingDistDisplay metric None None = 0).
    { unfold breakingDistDisplay, breakingDistM. js_eval. reflexivity. }
    rewrite Hstart, Hend, Hcut. rewrite surface_loop_unroll.
    rewrite surface_x_first, surface_x_second.
    rewrite filter_cons_true.
    2:{ apply in_range_true. unfold surface_point, MAX_DISTANCE, MAX_DISTANCE_M.
        cbn [wave_x convertDistance]. js_test. lra. }
    rewrite filter_cons_true.
    2:{ apply in_range_true. unfold surface_point, MAX_DISTANCE, MAX_DISTANCE_M.
        cbn [wave_x convertDistance]. js_test. lra. }
    do 2 rewrite map_cons. unfold surface_point at 1 2. cbn [wave_x convertDistance].
    replace (152 + (0 - 152) / 600) with (152 - 152 / 600) by lra.
    eexists. reflexivity. }
  split; [exact Hhead |].
  split.
  - destruct Hhead as (rest & ->). intros Hs.
    apply Sorted_inv in Hs. destruct Hs as [_ Hhd].
    apply HdRel_inv in Hhd. lra.
  - split; [apply bathymetryData_ascending | apply waveEnvelopeData_ascending].
Qed.

(* ------------------------------------------------------------------ *)
(** ** Distances of the bathymetry grid and of the visualization rows *)
(* ------------------------------------------------------------------ *)

Lemma convertDistance_0 (units : UnitSystem) : convertDistance units 0 = 0.
Proof. destruct units; simpl; lra. Qed.

Lemma convertDistance_mono (units : UnitSystem) (a b : R) :
  a <= b -> convertDistance units a <= convertDistance units b.
Proof. destruct units; simpl; lra. Qed.


Lemma convertDistance_clear (units : UnitSystem) (v : R) :
  clear_of_shore v -> clear_of_shore (convertDistance units v).
Proof. unfold clear_of_shore. destruct units; simpl; lra. Qed.

Lemma MAX_DISTANCE_pos (units : UnitSystem) : 0 < MAX_DISTANCE units.
Proof. unfold MAX_DISTANCE, MAX_DISTANCE_M. destruct units; simpl; lra. Qed.

Lemma MIN_DISTANCE_neg (units : UnitSystem) : MIN_DISTANCE units < 0.
Proof. unfold MIN_DISTANCE, MIN_DISTANCE_M. destruct units; simpl; lra. Qed.

Lemma INR_numBathyPoints : INR numBathyPoints = 20.
Proof. unfold numBathyPoints. rewrite INR_IZR_INZ. reflexivity. Qed.

Lemma grid_x_first : grid_x 0 = 0.
Proof. unfold grid_x. rewrite INR_numBathyPoints. simpl INR. lra. Qed.

Lemma grid_x_last : grid_x numBathyPoints = MAX_DISTANCE_M.
Proof. unfold grid_x. rewrite INR_numBathyPoints. unfold MAX_DISTANCE_M. lra. Qed.

Lemma grid_x_range (i : nat) :
  (i <= numBathyPoints)%nat -> 0 <= grid_x i <= MAX_DISTANCE_M.
Proof.
  intros Hi. unfold grid_x. rewrite INR_numBathyPoints. unfold MAX_DISTANCE_M.
  pose proof (pos_INR i) as H0. apply le_INR in Hi. rewrite INR_numBathyPoints in Hi.
  lra.
Qed.

Lemma grid_x_clear (i : nat) : clear_of_shore (grid_x i).
Proof.
  unfold clear_of_shore, grid_x. rewrite INR_numBathyPoints. unfold MAX_DISTANCE_M.
  destruct i as [| i].
  - left. simpl INR. lra.
  - right. left. assert (H1 : 1 <= INR (S i)) by (apply (le_INR 1); lia). lra.
Qed.

(** The distances pushed by either branch of lines 83-138. *)
Lemma bathymetry_pushed_x (samples : list ShoalingPathPoint) (tide_level_m : option R) :
  map bathy_x (bathymetry_pushed samples tide_level_m)
  = map grid_x (seq 0 (S numBathyPoints)) ++ [-6].
Proof.
  unfold bathymetry_pushed. destruct samples as [| p l];
    rewrite map_app, map_map; reflexivity.
Qed.

Lemma bathymetryFromPhysics_x (samples : list ShoalingPathPoint)
    (tide_level_m : option R) (v : R) :
  In v (map bathy_x (bathymetryFromPhysics samples tide_level_m)) <->
  (exists i, (i <= numBathyPoints)%nat /\ v = grid_x i) \/ v = -6.
Proof.
  unfold bathymetryFromPhysics. rewrite in_map_iff.
  assert (Hpushed : In v (map bathy_x (bathymetry_pushed samples tide_level_m)) <->
                    (exists i, (i <= numBathyPoints)%nat /\ v = grid_x i) \/ v = -6).
  { rewrite bathymetry_pushed_x, in_app_iff, in_map_iff. split.
    - intros [(i & <- & Hi) | [<- | []]]; [left | right; reflexivity].
      apply in_seq in Hi. exists i. split; [lia | reflexivity].
    - intros [(i & Hi & ->) | ->]; [left | right; left; reflexivity].
      exists i. split; [reflexivity |]. apply in_seq. lia. }
  rewrite <- Hpushed, in_map_iff. split.
  - intros (b & <- & Hb). exists b. split; [reflexivity |].
    apply js_sort_In in Hb. exact Hb.
  - intros (b & <- & Hb). exists b. split; [reflexivity |].
    apply js_sort_In. exact Hb.
Qed.

Lemma envelope_row_x (samples : list ShoalingPathPoint) (b : BathyPoint) :
  vis_x (envelope_row samples b) = bathy_x b.
Proof. reflexivity. Qed.

Lemma visualizationDataMeters_x (samples : list ShoalingPathPoint)
    (tide_level_m : option R) (v : R) :
  In v (map vis_x (visualizationDataMeters samples tide_level_m)) ->
  (exists i, (i <= numBathyPoints)%nat /\ v = grid_x i) \/ v = -6.
Proof.
  unfold visualizationDataMeters. rewrite in_map_iff.
  intros (d & <- & Hd). apply js_sort_In in Hd.
  assert (Hrows : In d (map (envelope_row samples)
                          (bathymetryFromPhysics samples tide_level_m)) ->
                  (exists i, (i <= numBathyPoints)%nat /\ vis_x d = grid_x i)
                  \/ vis_x d = -6).
  { rewrite in_map_iff. intros (b & <- & Hb). rewrite envelope_row_x.
    apply (proj1 (bathymetryFromPhysics_x samples tide_level_m (bathy_x b))).
    apply in_map. exact Hb. }
  destruct (existsb _ _); [exact (Hrows Hd) |].
  apply in_app_or in Hd. destruct Hd as [Hd | [<- | []]]; [exact (Hrows Hd) |].
  left. exists 0%nat. split; [lia |]. simpl. symmetry. apply grid_x_first.
Qed.

Lemma visualizationDataMeters_grid (samples : list ShoalingPathPoint)
    (tide_level_m : option R) (i : nat) :
  (i <= numBathyPoints)%nat ->
  exists d, In d (visualizationDataMeters samples tide_level_m) /\ vis_x d = grid_x i.
Proof.
  intros Hi.
  assert (Hb : In (grid_x i) (map bathy_x (bathymetryFromPhysics samples tide_level_m))).
  { apply bathymetryFromPhysics_x. left. exists i. auto. }
  apply in_map_iff in Hb. destruct Hb as (b & Hbx & Hb).
  exists (envelope_row samples b). split; [| rewrite envelope_row_x; exact Hbx].
  unfold visualizationDataMeters. apply js_sort_In.
  assert (Hrow : In (envelope_row samples b)
                   (map (envelope_row samples)
                        (bathymetryFromPhysics samples tide_level_m)))
    by (apply in_map; exact Hb).
  destruct (existsb _ _); [exact Hrow | apply in_or_app; left; exact Hrow].
Qed.

Lemma to_display_x (units : UnitSystem) (d : VisPoint) :
  vis_x (to_display units d) = convertDistance units (vis_x d).
Proof. reflexivity. Qed.

Lemma visualizationData_clear (units : UnitSystem) (samples : list ShoalingPathPoint)
    (tide_level_m : option R) (d : VisPoint) :
  In d (visualizationData units samples tide_level_m) -> clear_of_shore (vis_x d).
Proof.
  unfold visualizationData. rewrite filter_In, in_map_iff.
  intros [(m & <- & Hm) _]. rewrite to_display_x. apply convertDistance_clear.
  destruct (visualizationDataMeters_x samples tide_level_m (vis_x m) (in_map vis_x _ _ Hm))
    as [(i & _ & ->) | ->].
  - apply grid_x_clear.
  - unfold clear_of_shore. lra.
Qed.

Lemma visualizationData_range (units : UnitSystem) (samples : list ShoalingPathPoint)
    (tide_level_m : option R) (d : VisPoint) :
  In d (visualizationData units samples tide_level_m) ->
  MIN_DISTANCE units <= vis_x d <= MAX_DISTANCE units.
Proof.
  unfold visualizationData. rewrite filter_In, in_range_spec. tauto.
Qed.

(** Every grid distance is a row of [visualizationData]. *)
Lemma visualizationData_grid (units : UnitSystem) (samples : list ShoalingPathPoint)
    (tide_level_m : option R) (i : nat) :
  (i <= numBathyPoints)%nat ->
  exists d, In d (visualizationData units samples tide_level_m) /\
            vis_x d = convertDistance units (grid_x i).
Proof.
  intros Hi.
  destruct (visualizationDataMeters_grid samples tide_level_m i Hi) as (m & Hm & Hx).
  exists (to_display units m). rewrite to_display_x, Hx. split; [| reflexivity].
  unfold visualizationData. apply filter_In. split; [apply in_map; exact Hm |].
  rewrite to_display_x, Hx. apply in_range_true.
  pose proof (grid_x_range i Hi) as [Hlo Hhi].
  pose proof (MIN_DISTANCE_neg units) as Hmin.
  pose proof (convertDistance_mono units 0 (grid_x i) Hlo) as H0.
  rewrite convertDistance_0 in H0.
  split; [lra |]. unfold MAX_DISTANCE. apply convertDistance_mono. exact Hhi.
Qed.

Lemma near_zero_clear (v : R) :
  clear_of_shore v -> near_zero (1 / 100) v = true -> v = 0.
Proof.
  unfold near_zero. intros Hc Hn. num_facts.
  destruct Hc as [Hc | [Hc | Hc]]; [exact Hc | |].
  - rewrite Rabs_pos_eq in Hn by lra. lra.
  - rewrite Rabs_left1 in Hn by lra. lra.
Qed.

(** The shore row, found or made, lies at distance 0. *)
Lemma shorePoint_x (visData : list VisPoint) (s : VisPoint) :
  (forall d, In d visData -> clear_of_shore (vis_x d)) ->
  shorePoint visData = Some s -> vis_x s = 0.
Proof.
  intros Hclear. unfold shorePoint.
  destruct (find _ visData) as [d |] eqn:Hfind.
  - intros [= <-]. apply find_some in Hfind. destruct Hfind as [Hin Hnear].
    apply near_zero_clear; [apply Hclear; exact Hin | exact Hnear].
  - destruct visData as [| d0 l]; [discriminate |].
    intros [= <-]. reflexivity.
Qed.

Lemma shorePoint_found_In (visData : list VisPoint) (s : VisPoint) :
  shorePoint visData = Some s ->
  In s visData \/ forall d, In d visData -> near_zero (1 / 100) (vis_x d) = false.
Proof.
  unfold shorePoint. destruct (find _ visData) as [d |] eqn:Hfind.
  - intros [= <-]. left. apply find_some in Hfind. tauto.
  - intros _. right. intros d Hd. exact (find_none _ _ Hfind d Hd).
Qed.

Lemma push_shore_keeps (shore : option VisPoint) (arr : list VisPoint) (d : VisPoint) :
  In d arr -> In d (push_shore shore arr).
Proof.
  intros Hd. unfold push_shore.
  destruct (existsb _ arr); [exact Hd |].
  destruct shore as [s |]; [apply in_or_app; left; exact Hd | exact Hd].
Qed.

Lemma push_shore_In (shore : option VisPoint) (arr : list VisPoint) (d : VisPoint) :
  In d (push_shore shore arr) ->
  In d arr \/
  (shore = Some d /\ forall e, In e arr -> near_zero (1 / 100) (vis_x e) = false).
Proof.
  unfold push_shore. destruct (existsb _ arr) eqn:Hex; [tauto |].
  destruct shore as [s |]; [| tauto].
  intros Hd. apply in_app_or in Hd. destruct Hd as [Hd | [<- | []]]; [tauto |].
  right. split; [reflexivity |].
  intros e He. destruct (near_zero (1 / 100) (vis_x e)) eqn:Hn; [| reflexivity].
  assert (Hex' : existsb (fun d => near_zero (1 / 100) (vis_x d)) arr = true).
  { apply existsb_exists. exists e. auto. }
  congruence.
Qed.

Lemma push_shore_pushes (arr : list VisPoint) (s : VisPoint) :
  (forall e, In e arr -> near_zero (1 / 100) (vis_x e) = false) ->
  In s (push_shore (Some s) arr).
Proof.
  intros Hnone. unfold push_shore.
  destruct (existsb _ arr) eqn:Hex.
  - apply existsb_exists in Hex. destruct Hex as (e & He & Hn).
    rewrite (Hnone e He) in Hn. discriminate.
  - apply in_or_app. right. left. reflexivity.
Qed.

(* ------------------------------------------------------------------ *)
(** ** Domains of the bathymetry and of the wave envelope *)
(* ------------------------------------------------------------------ *)

Section Domains.
Variable units : UnitSystem.
Variable samples : list ShoalingPathPoint.
Variables tide_level_m distance_from_shore_m : option R.

Let visData := visualizationData units samples tide_level_m.
Let cutoff :=
  breakingDistDisplay units (breakingPointFromPhysics samples) distance_from_shore_m.

Lemma visData_clear (d : VisPoint) : In d visData -> clear_of_shore (vis_x d).
Proof. apply visualizationData_clear. Qed.

Lemma shore_row_at_zero (s : VisPoint) : shorePoint visData = Some s -> vis_x s = 0.
Proof. apply shorePoint_x. exact visData_clear. Qed.

Lemma bathymetryData_In (d : VisPoint) :
  In d (bathymetryData units samples tide_level_m) <->
  In d (push_shore (shorePoint visData)
          (filter (fun d => in_range 0 (MAX_DISTANCE units) (vis_x d)) visData)).
Proof. unfold bathymetryData. apply js_sort_In. Qed.

Lemma waveEnvelopeData_In (d : VisPoint) :
  In d (waveEnvelopeData units samples tide_level_m distance_from_shore_m) <->
  In d (push_shore (shorePoint visData) (filter (envelope_keep units cutoff) visData)).
Proof. unfold waveEnvelopeData. apply js_sort_In. Qed.

Lemma envelope_keep_range (d : VisPoint) :
  In d visData -> envelope_keep units cutoff d = true ->
  0 <= vis_x d <= MAX_DISTANCE units /\ (0 < cutoff -> vis_x d <= cutoff).
Proof.
  intros Hd. pose proof (visualizationData_range _ _ _ _ Hd) as [_ Hmax].
  unfold envelope_keep. destruct (num_le cutoff 0) eqn:Hc; rewrite in_range_spec; num_facts.
  - intros [Hlo Hhi]. repeat split; lra.
  - intros [Hlo Hhi]. repeat split; lra.
Qed.

Lemma envelope_domain (d : VisPoint) :
  In d (waveEnvelopeData units samples tide_level_m distance_from_shore_m) ->
  0 <= vis_x d <= MAX_DISTANCE units /\ (0 < cutoff -> vis_x d <= cutoff).
Proof.
  intros Hd. apply waveEnvelopeData_In, push_shore_In in Hd.
  destruct Hd as [Hd | [Hs _]].
  - apply filter_In in Hd. destruct Hd as [Hd Hk]. apply envelope_keep_range; assumption.
  - rewrite (shore_row_at_zero d Hs). pose proof (MAX_DISTANCE_pos units). lra.
Qed.

Lemma bathymetry_domain (d : VisPoint) :
  In d (bathymetryData units samples tide_level_m) ->
  0 <= vis_x d <= MAX_DISTANCE units.
Proof.
  intros Hd. apply bathymetryData_In, push_shore_In in Hd.
  destruct Hd as [Hd | [Hs _]].
  - apply filter_In in Hd. destruct Hd as [_ Hr]. apply in_range_spec. exact Hr.
  - rewrite (shore_row_at_zero d Hs). pose proof (MAX_DISTANCE_pos units). lra.
Qed.

(** The row of grid index [i] belongs to the bathymetry. *)
Lemma bathymetry_has_grid (i : nat) :
  (i <= numBathyPoints)%nat ->
  exists d, In d (bathymetryData units samples tide_level_m) /\
            vis_x d = convertDistance units (grid_x i).
Proof.
  intros Hi.
  destruct (visualizationData_grid units samples tide_level_m i Hi) as (d & Hd & Hx).
  exists d. split; [| exact Hx].
  apply bathymetryData_In, push_shore_keeps, filter_In. split; [exact Hd |].
  apply in_range_true. rewrite Hx.
  pose proof (grid_x_range i Hi) as [Hlo Hhi].
  pose proof (convertDistance_mono units 0 (grid_x i) Hlo) as H0.
  rewrite convertDistance_0 in H0.
  split; [exact H0 |]. unfold MAX_DISTANCE. apply convertDistance_mono. exact Hhi.
Qed.

Lemma envelope_in_bathymetry (d : VisPoint) :
  In d (waveEnvelopeData units samples tide_level_m distance_from_shore_m) ->
  In d (bathymetryData units samples tide_level_m).
Proof.
  intros Hd. apply bathymetryData_In.
  apply waveEnvelopeData_In, push_shore_In in Hd.
  destruct Hd as [Hd | [Hs _]].
  - apply filter_In in Hd. destruct Hd as [Hd Hk].
    apply push_shore_keeps, filter_In. split; [exact Hd |].
    apply in_range_true. apply (envelope_keep_range d Hd Hk).
  - rewrite Hs. destruct (shorePoint_found_In visData d Hs) as [Hin | Hnone].
    + apply push_shore_keeps, filter_In. split; [exact Hin |].
      apply in_range_true. rewrite (shore_row_at_zero d Hs).
      pose proof (MAX_DISTANCE_pos units). lra.
    + apply push_shore_pushes. intros e He. apply filter_In in He.
      apply Hnone. tauto.
Qed.

(** With a breaking distance in use that is not positive the envelope keeps
    the row at the far end of the grid. *)
Lemma envelope_reaches_extent :
  cutoff <= 0 ->
  exists d, In d (waveEnvelopeData units samples tide_level_m distance_from_shore_m) /\
            vis_x d = MAX_DISTANCE units.
Proof.
  intros Hc.
  destruct (visualizationData_grid units samples tide_level_m numBathyPoints (le_n _))
    as (d & Hd & Hx).
  rewrite grid_x_last in Hx. fold (MAX_DISTANCE units) in Hx.
  exists d. split; [| exact Hx].
  apply waveEnvelopeData_In, push_shore_keeps, filter_In. split; [exact Hd |].
  unfold envelope_keep. rewrite (num_le_true cutoff 0 Hc).
  apply in_range_true. rewrite Hx. pose proof (MAX_DISTANCE_pos units). lra.
Qed.
End Domains.

Lemma breakingDistDisplay_found (units : UnitSystem) (b : BreakingPoint)
    (distance_from_shore_m : option R) :
  0 < bp_x b ->
  breakingDistDisplay units (Some b) distance_from_shore_m = convertDistance units (bp_x b).
Proof.
  intros Hx. unfold breakingDistDisplay.
  rewrite breakingDistM_found by lra. rewrite num_lt_true by exact Hx. reflexivity.
Qed.

Lemma shore_break_detected :
  breakingPointFromPhysics shore_break_path = Some (mkBreaking 0 1 (9 / 10) 5).
Proof.
  unfold breakingPointFromPhysics, sortedPath, shore_break_path.
  js_eval. reflexivity.
Qed.

(** C6, as it is stated, fails: with the single sample (0, 1, 0.9, 5) a
    breaking point exists, at distance 0, no default is supplied, the
    breaking distance in use is 0, and the envelope still holds the row at
    152 m. *)
Lemma C6_envelope_beyond_breaking_distance :
  breakingPointFromPhysics shore_break_path = Some (mkBreaking 0 1 (9 / 10) 5) /\
  breakingDistM (breakingPointFromPhysics shore_break_path) None = 0 /\
  ~ Forall (fun d => 0 <= vis_x d
                     <= convertDistance metric
                          (breakingDistM (breakingPointFromPhysics shore_break_path) None))
      (waveEnvelopeData metric shore_break_path None None).
Proof.
  assert (Hbd : breakingDistM (breakingPointFromPhysics shore_break_path) None = 0).
  { rewrite shore_break_detected. unfold breakingDistM. js_eval. reflexivity. }
  split; [exact shore_break_detected |].
  split; [exact Hbd |].
  rewrite Hbd. intros Hall. rewrite Forall_forall in Hall.
  destruct (envelope_reaches_extent metric shore_break_path None None) as (d & Hd & Hx).
  - unfold breakingDistDisplay. rewrite Hbd. rewrite num_lt_false by lra. lra.
  - specialize (Hall d Hd). rewrite Hx in Hall.
    unfold MAX_DISTANCE, MAX_DISTANCE_M in Hall. simpl in Hall. lra.
Qed.

(** C6, amended.  The distances of the wave envelope lie in
    [0, breaking distance in use] whenever that distance, in display units,
    is positive, which is the case when a breaking point was detected at a
    positive distance; they lie in [0, maximal offshore extent] on every
    input.  The distances of the bathymetry lie in [0, maximal offshore
    extent] and include both ends, whatever the breaking point; every row of
    the envelope is a row of the bathymetry. *)
Theorem C6_envelope_and_bathymetry_domains
    (units : UnitSystem) (samples : list ShoalingPathPoint)
    (tide_level_m distance_from_shore_m : option R) :
  let breakingX :=
    breakingDistDisplay units (breakingPointFromPhysics samples) distance_from_shore_m in
  let envelope := waveEnvelopeData units samples tide_level_m distance_from_shore_m in
  let bathymetry := bathymetryData units samples tide_level_m in
  (0 < breakingX -> Forall (fun d => 0 <= vis_x d <= breakingX) envelope) /\
  (forall b, breakingPointFromPhysics samples = Some b -> 0 < bp_x b ->
             breakingX = convertDistance units (bp_x b)) /\
  Forall (fun d => 0 <= vis_x d <= MAX_DISTANCE units) envelope /\
  Forall (fun d => 0 <= vis_x d <= MAX_DISTANCE units) bathymetry /\
  (exists d, In d bathymetry /\ vis_x d = 0) /\
  (exists d, In d bathymetry /\ vis_x d = MAX_DISTANCE units) /\
  incl envelope bathymetry.
Proof.
  intros breakingX envelope bathymetry. subst breakingX envelope bathymetry.
  split.
  { intros Hpos. apply Forall_forall. intros d Hd.
    destruct (envelope_domain _ _ _ _ d Hd) as [[Hlo _] Hcut].
    split; [exact Hlo | exact (Hcut Hpos)]. }
  split.
  { intros b Hb Hx. rewrite Hb. apply breakingDistDisplay_found. exact Hx. }
  split.
  { apply Forall_forall. intros d Hd. apply (envelope_domain _ _ _ _ d Hd). }
  split.
  { apply Forall_forall. intros d Hd. apply (bathymetry_domain _ _ _ d Hd). }
  split.
  { destruct (bathymetry_has_grid units samples tide_level_m 0 (Nat.le_0_l _))
      as (d & Hd & Hx).
    exists d. split; [exact Hd |]. rewrite Hx, grid_x_first. apply convertDistance_0. }
  split.
  { destruct (bathymetry_has_grid units samples tide_level_m numBathyPoints (le_n _))
      as (d & Hd & Hx).
    exists d. split; [exact Hd |]. rewrite Hx, grid_x_last. reflexivity. }
  intros d. apply envelope_in_bathymetry.
Qed.

(** The envelope of the end-to-end example stops at the breaking distance,
    50 m. *)
Lemma C6_envelope_domain_witness :
  Forall (fun d => 0 <= vis_x d <= 50) (waveEnvelopeData metric example_path None None).
Proof.
  assert (Hcut : breakingDistDisplay metric (breakingPointFromPhysics example_path) None = 50).
  { rewrite example_breaking. rewrite breakingDistDisplay_found by (simpl; lra).
    reflexivity. }
  pose proof (proj1 (C6_envelope_and_bathymetry_domains metric example_path None None))
    as Hdom.
  cbv zeta in Hdom. rewrite Hcut in Hdom. apply Hdom. lra.
Defined.

(* ------------------------------------------------------------------ *)
(** ** The crest at the breaking distance *)
(* ------------------------------------------------------------------ *)

Lemma globalPhaseOffset_pos (wavelength breakingDist : R) :
  0 < wavelength ->
  globalPhaseOffset wavelength breakingDist
  = PI / 2 - (2 * PI / wavelength) * breakingDist.
Proof.
  intros Hw. unfold globalPhaseOffset. rewrite num_lt_true by exact Hw. reflexivity.
Qed.

Lemma crest_phase (wavelength breakingDist : R) :
  0 < wavelength ->
  sin ((2 * PI / wavelength) * breakingDist + globalPhaseOffset wavelength breakingDist) = 1.
Proof.
  intros Hw. rewrite globalPhaseOffset_pos by exact Hw.
  replace (2 * PI / wavelength * breakingDist
           + (PI / 2 - 2 * PI / wavelength * breakingDist)) with (PI / 2) by lra.
  apply sin_PI2.
Qed.

Lemma convertHeight_opp (units : UnitSystem) (v : R) :
  convertHeight units (- v) = - convertHeight units v.
Proof. destruct units; simpl; lra. Qed.

Lemma y_break_display_crest (units : UnitSystem) (b : BreakingPoint) :
  y_break_display units b = - convertHeight units (bp_H b / 2).
Proof.
  unfold y_break_display. rewrite signed_display_convert, js_or_0, sin_PI2.
  rewrite <- convertHeight_opp. f_equal. lra.
Qed.

Lemma update_first_x (near : WavePoint -> bool) (y : R) (l : list WavePoint) :
  map wave_x (update_first near y l) = map wave_x l.
Proof.
  induction l as [| p l IH]; simpl; [reflexivity |].
  destruct (near p); simpl; [reflexivity |]. rewrite IH. reflexivity.
Qed.


(** The detected breaking point is read off a qualifying sample. *)
Lemma breakingPoint_sample (samples : list ShoalingPathPoint) (b : BreakingPoint) :
  breakingPointFromPhysics samples = Some b ->
  exists s, In s samples /\ qualifies s /\ b = to_breaking s.
Proof.
  unfold breakingPointFromPhysics. intros Hfb.
  destruct (first_breaking_Some _ _ Hfb) as (before & s & after & Heq & _ & Hs & ->).
  exists s. split; [| split; [exact Hs | reflexivity]].
  apply (js_sort_In cmp_x_desc). fold (sortedPath samples). rewrite Heq.
  apply in_or_app. right. left. reflexivity.
Qed.


Lemma filter_all_true {A : Type} (f : A -> bool) (l : list A) :
  (forall a, In a l -> f a = true) -> filter f l = l.
Proof.
  induction l as [| a l IH]; intros Hall; simpl; [reflexivity |].
  rewrite (Hall a (or_introl eq_refl)). rewrite IH; [reflexivity |].
  intros a' Ha'. apply Hall. right. exact Ha'.
Qed.

Lemma filter_none {A : Type} (f : A -> bool) (l : list A) :
  (forall a, In a l -> f a = false) -> filter f l = [].
Proof.
  induction l as [| a l IH]; intros Hall; simpl; [reflexivity |].
  rewrite (Hall a (or_introl eq_refl)). apply IH.
  intros b Hb. apply Hall. right. exact Hb.
Qed.

Lemma update_first_length (near : WavePoint -> bool) (y : R) (l : list WavePoint) :
  length (update_first near y l) = length l.
Proof.
  rewrite <- (length_map wave_x (update_first near y l)), update_first_x.
  apply length_map.
Qed.
















(* ================================================================== *)
(** * Further properties of the transform *)
(* ================================================================== *)

(* ------------------------------------------------------------------ *)
(** ** Sorted lists with distinct keys *)
(* ------------------------------------------------------------------ *)

Lemma StronglySorted_app {A : Type} (R1 : A -> A -> Prop) (l1 l2 : list A) :
  StronglySorted R1 l1 -> StronglySorted R1 l2 ->
  (forall a b, In a l1 -> In b l2 -> R1 a b) ->
  StronglySorted R1 (l1 ++ l2).
Proof.
  intros H1 H2 Hcross. induction H1 as [| a l1 Hs IH Hall]; simpl; [exact H2 |].
  constructor.
  - apply IH. intros x y Hx Hy. apply Hcross; [right; exact Hx | exact Hy].
  - apply Forall_app. split; [exact Hall |].
    apply Forall_forall. intros y Hy. apply Hcross; [left; reflexivity | exact Hy].
Qed.

Lemma StronglySorted_rev {A : Type} (R1 : A -> A -> Prop) (l : list A) :
  StronglySorted R1 l -> StronglySorted (fun a b => R1 b a) (rev l).
Proof.
  induction 1 as [| a l Hs IH Hall]; simpl; [constructor |].
  apply StronglySorted_app; [exact IH | repeat constructor |].
  intros x y Hx [<- | []]. apply in_rev in Hx.
  rewrite Forall_forall in Hall. apply Hall. exact Hx.
Qed.

Lemma StronglySorted_map {A B : Type} (g : A -> B) (R1 : B -> B -> Prop) (l : list A) :
  StronglySorted (fun a b => R1 (g a) (g b)) l -> StronglySorted R1 (map g l).
Proof.
  induction 1 as [| a l Hs IH Hall]; simpl; constructor; [exact IH |].
  apply Forall_map. exact Hall.
Qed.

Lemma StronglySorted_filter {A : Type} (R1 : A -> A -> Prop) (f : A -> bool) (l : list A) :
  StronglySorted R1 l -> StronglySorted R1 (filter f l).
Proof.
  induction 1 as [| a l Hs IH Hall]; simpl; [constructor |].
  destruct (f a); [| exact IH]. constructor; [exact IH |].
  apply Forall_forall. intros b Hb. apply filter_In in Hb.
  rewrite Forall_forall in Hall. apply Hall. tauto.
Qed.

Lemma StronglySorted_seq_map {A : Type} (g : nat -> A) (R1 : A -> A -> Prop)
    (start len : nat) :
  (forall i j, (i < j)%nat -> R1 (g i) (g j)) ->
  StronglySorted R1 (map g (seq start len)).
Proof.
  intros Hmono. revert start. induction len as [| len IH]; intros start; simpl.
  - constructor.
  - constructor; [apply IH |].
    apply Forall_forall. intros b Hb. apply in_map_iff in Hb.
    destruct Hb as (j & <- & Hj). apply in_seq in Hj. apply Hmono. lia.
Qed.

Lemma Permutation_filter_same {A : Type} (f : A -> bool) (l1 l2 : list A) :
  Permutation l1 l2 -> Permutation (filter f l1) (filter f l2).
Proof.
  induction 1 as [| a l1 l2 _ IH | a b l | l1 l2 l3 _ IH1 _ IH2]; simpl.
  - constructor.
  - destruct (f a); [apply perm_skip |]; exact IH.
  - destruct (f a), (f b); try apply Permutation_refl. apply perm_swap.
  - eapply perm_trans; eassumption.
Qed.

(** A list sorted by a key is the only sorted rearrangement of a list whose
    keys are strictly sorted. *)
Lemma sorted_perm_unique {A : Type} (key : A -> R) (T l : list A) :
  StronglySorted (fun a b => key a < key b) T ->
  Sorted (fun a b => key a <= key b) l ->
  Permutation l T -> l = T.
Proof.
  intros HT. revert l. induction HT as [| t T HT IH Hall]; intros l Hl Hperm.
  - apply Permutation_nil. apply Permutation_sym. exact Hperm.
  - destruct l as [| a l].
    { apply Permutation_nil in Hperm. discriminate. }
    apply Sorted_StronglySorted in Hl; [| intros x y z Hxy Hyz; lra].
    apply StronglySorted_inv in Hl. destruct Hl as [Hl Hhead].
    rewrite Forall_forall in Hall, Hhead.
    assert (Hat : a = t).
    { assert (Ha : In a (t :: T)).
      { eapply Permutation_in; [exact Hperm | left; reflexivity]. }
      assert (Ht : In t (a :: l)).
      { eapply Permutation_in; [apply Permutation_sym; exact Hperm | left; reflexivity]. }
      destruct Ha as [Ha | Ha]; [congruence |].
      destruct Ht as [Ht | Ht]; [congruence |].
      specialize (Hall a Ha). specialize (Hhead t Ht). lra. }
    subst a. f_equal. apply IH.
    + apply StronglySorted_Sorted. exact Hl.
    + eapply Permutation_cons_inv. exact Hperm.
Qed.

Lemma js_sort_ascending_unique {A : Type} (key : A -> R) (T l : list A) :
  StronglySorted (fun a b => key a < key b) T ->
  Permutation l T ->
  js_sort (fun a b => key a - key b) l = T.
Proof.
  intros HT Hperm. apply (sorted_perm_unique key); [exact HT | |].
  - eapply Sorted_weaken; [| apply js_sort_sorted].
    + unfold cmp_le. intros a b Hab. lra.
    + intros a b Hab. lra.
  - eapply perm_trans; [apply Permutation_sym, js_sort_perm | exact Hperm].
Qed.

Lemma js_sort_descending_unique {A : Type} (key : A -> R) (T l : list A) :
  StronglySorted (fun a b => key b < key a) T ->
  Permutation l T ->
  js_sort (fun a b => key b - key a) l = T.
Proof.
  intros HT Hperm. apply (sorted_perm_unique (fun a => - key a)).
  - eapply StronglySorted_weaken; [| exact HT]. intros a b Hab. cbn beta. lra.
  - eapply Sorted_weaken; [| apply js_sort_sorted].
    + unfold cmp_le. intros a b Hab. lra.
    + intros a b Hab. lra.
  - eapply perm_trans; [apply Permutation_sym, js_sort_perm | exact Hperm].
Qed.

(* ------------------------------------------------------------------ *)
(** ** The shape of the bathymetry *)
(* ------------------------------------------------------------------ *)

Lemma grid_x_lt (i j : nat) : (i < j)%nat -> grid_x i < grid_x j.
Proof.
  intros Hij. unfold grid_x. rewrite INR_numBathyPoints. unfold MAX_DISTANCE_M.
  apply lt_INR in Hij. lra.
Qed.

Lemma grid_x_nonneg (i : nat) : 0 <= grid_x i.
Proof.
  unfold grid_x. rewrite INR_numBathyPoints. unfold MAX_DISTANCE_M.
  pose proof (pos_INR i). lra.
Qed.

Lemma bathymetry_pushed_grid (samples : list ShoalingPathPoint) (tide_level_m : option R) :
  bathymetry_pushed samples tide_level_m
  = map (grid_point samples tide_level_m) (seq 0 (S numBathyPoints)) ++ [beachPoint].
Proof. destruct samples; reflexivity. Qed.

Lemma grid_points_ascending (samples : list ShoalingPathPoint) (tide_level_m : option R)
    (start len : nat) :
  StronglySorted (fun a b => bathy_x a < bathy_x b)
    (map (grid_point samples tide_level_m) (seq start len)).
Proof.
  apply StronglySorted_seq_map. intros i j Hij. apply grid_x_lt. exact Hij.
Qed.

Lemma grid_desc_sorted (samples : list ShoalingPathPoint) (tide_level_m : option R) :
  StronglySorted (fun a b => bathy_x b < bathy_x a)
    (rev (map (grid_point samples tide_level_m) (seq 0 (S numBathyPoints)))
     ++ [beachPoint]).
Proof.
  apply StronglySorted_app.
  - apply (StronglySorted_rev (fun a b => bathy_x a < bathy_x b)).
    apply grid_points_ascending.
  - repeat constructor.
  - intros a b Ha [<- | []]. apply in_rev, in_map_iff in Ha.
    destruct Ha as (i & <- & _). pose proof (grid_x_nonneg i).
    unfold grid_point, beachPoint. cbn [bathy_x]. lra.
Qed.

Lemma bathymetryFromPhysics_grid
    (samples : list ShoalingPathPoint) (tide_level_m : option R) :
  bathymetryFromPhysics samples tide_level_m
  = rev (map (grid_point samples tide_level_m) (seq 0 (S numBathyPoints)))
    ++ [beachPoint].
Proof.
  unfold bathymetryFromPhysics. rewrite bathymetry_pushed_grid.
  apply (js_sort_descending_unique bathy_x).
  - apply grid_desc_sorted.
  - apply Permutation_app_tail, Permutation_rev.
Qed.

(** X1.  Whatever the samples, [bathymetryFromPhysics] holds 22 points in
    strictly decreasing distance: the 21 grid points from 152 m down to the
    shore, then the beach point at -6 m; the depth of a grid point is
    interpolated from the samples, or read off the 3% slope above the tide
    level when there are no samples. *)
Theorem X1_bathymetryFromPhysics_shape
    (samples : list ShoalingPathPoint) (tide_level_m : option R) :
  bathymetryFromPhysics samples tide_level_m
  = rev (map (grid_point samples tide_level_m) (seq 0 (S numBathyPoints)))
    ++ [beachPoint] /\
  length (bathymetryFromPhysics samples tide_level_m) = 22%nat /\
  StronglySorted (fun a b => bathy_x b < bathy_x a)
    (bathymetryFromPhysics samples tide_level_m).
Proof.
  pose proof (bathymetryFromPhysics_grid samples tide_level_m) as Hshape.
  split; [exact Hshape |].
  rewrite Hshape. split.
  - rewrite length_app, length_rev, length_map, length_seq. reflexivity.
  - apply grid_desc_sorted.
Qed.

(* ------------------------------------------------------------------ *)
(** ** The rows handed to the chart *)
(* ------------------------------------------------------------------ *)

Lemma near_zero_true (tol v : R) : Rabs v < tol -> near_zero tol v = true.
Proof. intros Hv. unfold near_zero. apply num_lt_true. exact Hv. Qed.

Lemma grid_point_first_In (samples : list ShoalingPathPoint) (tide_level_m : option R) :
  In (grid_point samples tide_level_m 0)
     (rev (map (grid_point samples tide_level_m) (seq 0 (S numBathyPoints)))
      ++ [beachPoint]).
Proof.
  apply in_or_app. left. apply in_rev. rewrite rev_involutive.
  apply in_map. apply in_seq. unfold numBathyPoints. lia.
Qed.

(** The rows in metres: one per bathymetry point; the shore row of lines
    237-256 is never made, the grid has a point at the shore. *)
Lemma visualizationDataMeters_rows
    (samples : list ShoalingPathPoint) (tide_level_m : option R) :
  visualizationDataMeters samples tide_level_m
  = map (envelope_row samples)
      (rev (map (grid_point samples tide_level_m) (seq 0 (S numBathyPoints)))
       ++ [beachPoint]).
Proof.
  unfold visualizationDataMeters. rewrite bathymetryFromPhysics_grid.
  replace (existsb _ _) with true.
  - apply (js_sort_descending_unique vis_x); [| apply Permutation_refl].
    apply StronglySorted_map. cbn beta.
    eapply StronglySorted_weaken; [| apply grid_desc_sorted].
    intros a b Hab. rewrite !envelope_row_x. exact Hab.
  - symmetry. apply existsb_exists.
    exists (envelope_row samples (grid_point samples tide_level_m 0)).
    split; [apply in_map, grid_point_first_In |].
    apply near_zero_true. rewrite envelope_row_x. unfold grid_point. cbn [bathy_x].
    rewrite grid_x_first, Rabs_R0. lra.
Qed.

Lemma convertDistance_min (units : UnitSystem) :
  convertDistance units (-6) = MIN_DISTANCE units.
Proof. reflexivity. Qed.

(** The conversion to display units drops no row. *)
Lemma visualizationData_rows (units : UnitSystem)
    (samples : list ShoalingPathPoint) (tide_level_m : option R) :
  visualizationData units samples tide_level_m
  = map (display_row units samples tide_level_m) (rev (seq 0 (S numBathyPoints)))
    ++ [to_display units (envelope_row samples beachPoint)].
Proof.
  unfold visualizationData. rewrite visualizationDataMeters_rows.
  rewrite filter_all_true.
  - rewrite !map_app, <- !map_rev, !map_map. reflexivity.
  - intros d Hd. apply in_map_iff in Hd. destruct Hd as (m & <- & Hm).
    apply in_map_iff in Hm. destruct Hm as (b & <- & Hb).
    rewrite to_display_x, envelope_row_x. apply in_range_true.
    apply in_app_or in Hb. destruct Hb as [Hb | [<- | []]].
    + apply in_rev, in_map_iff in Hb. destruct Hb as (i & <- & Hi).
      apply in_seq in Hi. unfold grid_point. cbn [bathy_x].
      pose proof (grid_x_range i ltac:(lia)) as [Hlo Hhi].
      pose proof (convertDistance_mono units 0 (grid_x i) Hlo) as H0.
      rewrite convertDistance_0 in H0. pose proof (MIN_DISTANCE_neg units).
      split; [lra |]. unfold MAX_DISTANCE. apply convertDistance_mono. exact Hhi.
    + unfold beachPoint. cbn [bathy_x]. rewrite convertDistance_min.
      pose proof (MIN_DISTANCE_neg units). pose proof (MAX_DISTANCE_pos units). lra.
Qed.

Lemma display_row_x (units : UnitSystem) (samples : list ShoalingPathPoint)
    (tide_level_m : option R) (i : nat) :
  vis_x (display_row units samples tide_level_m i) = convertDistance units (grid_x i).
Proof. reflexivity. Qed.

Lemma display_rows_ascending (units : UnitSystem) (samples : list ShoalingPathPoint)
    (tide_level_m : option R) (start len : nat) :
  StronglySorted (fun a b => vis_x a < vis_x b)
    (map (display_row units samples tide_level_m) (seq start len)).
Proof.
  apply StronglySorted_seq_map. intros i j Hij. rewrite !display_row_x.
  destruct units; simpl; pose proof (grid_x_lt i j Hij); lra.
Qed.

Lemma display_row_in_range (units : UnitSystem) (samples : list ShoalingPathPoint)
    (tide_level_m : option R) (i : nat) :
  (i <= numBathyPoints)%nat ->
  0 <= vis_x (display_row units samples tide_level_m i) <= MAX_DISTANCE units.
Proof.
  intros Hi. rewrite display_row_x.
  pose proof (grid_x_range i Hi) as [Hlo Hhi].
  pose proof (convertDistance_mono units 0 (grid_x i) Hlo) as H0.
  rewrite convertDistance_0 in H0.
  split; [exact H0 |]. unfold MAX_DISTANCE. apply convertDistance_mono. exact Hhi.
Qed.

Lemma beach_row_negative (units : UnitSystem) (samples : list ShoalingPathPoint) :
  vis_x (to_display units (envelope_row samples beachPoint)) < 0.
Proof.
  rewrite to_display_x, envelope_row_x. unfold beachPoint. cbn [bathy_x].
  rewrite convertDistance_min. apply MIN_DISTANCE_neg.
Qed.

Lemma display_row_first_near (units : UnitSystem) (samples : list ShoalingPathPoint)
    (tide_level_m : option R) :
  near_zero (1 / 100) (vis_x (display_row units samples tide_level_m 0)) = true.
Proof.
  apply near_zero_true. rewrite display_row_x, grid_x_first, convertDistance_0, Rabs_R0.
  lra.
Qed.

Lemma push_shore_noop (shore : option VisPoint) (arr : list VisPoint) (d : VisPoint) :
  In d arr -> near_zero (1 / 100) (vis_x d) = true -> push_shore shore arr = arr.
Proof.
  intros Hd Hn. unfold push_shore.
  replace (existsb _ arr) with true; [reflexivity |].
  symmetry. apply existsb_exists. exists d. auto.
Qed.

Lemma in_range_below (lo hi v : R) : v < lo -> in_range lo hi v = false.
Proof.
  intros Hv. unfold in_range. rewrite (num_le_false lo v Hv). reflexivity.
Qed.

Lemma envelope_keep_nonneg (units : UnitSystem) (cutoff : R) (d : VisPoint) :
  vis_x d < 0 -> envelope_keep units cutoff d = false.
Proof.
  intros Hd. unfold envelope_keep.
  destruct (num_le cutoff 0); apply in_range_below; exact Hd.
Qed.

Lemma envelope_keep_shore (units : UnitSystem) (cutoff : R) (d : VisPoint) :
  vis_x d = 0 -> envelope_keep units cutoff d = true.
Proof.
  intros Hd. unfold envelope_keep. rewrite Hd.
  destruct (num_le cutoff 0) eqn:Hc; apply in_range_true; num_facts.
  - pose proof (MAX_DISTANCE_pos units). lra.
  - lra.
Qed.

Lemma display_rows_perm (units : UnitSystem) (samples : list ShoalingPathPoint)
    (tide_level_m : option R) :
  Permutation
    (map (display_row units samples tide_level_m) (rev (seq 0 (S numBathyPoints))))
    (map (display_row units samples tide_level_m) (seq 0 (S numBathyPoints))).
Proof. apply Permutation_map, Permutation_sym, Permutation_rev. Qed.

Lemma display_row_first_In (units : UnitSystem) (samples : list ShoalingPathPoint)
    (tide_level_m : option R) :
  In (display_row units samples tide_level_m 0)
     (map (display_row units samples tide_level_m) (rev (seq 0 (S numBathyPoints)))).
Proof.
  apply in_map. apply -> in_rev. apply in_seq. unfold numBathyPoints. lia.
Qed.

Lemma bathymetryData_rows (units : UnitSystem) (samples : list ShoalingPathPoint)
    (tide_level_m : option R) :
  bathymetryData units samples tide_level_m
  = map (display_row units samples tide_level_m) (seq 0 (S numBathyPoints)).
Proof.
  unfold bathymetryData. rewrite visualizationData_rows.
  rewrite filter_app, filter_all_true.
  - rewrite (filter_none _ [_]).
    + rewrite app_nil_r.
      rewrite (push_shore_noop _ _ _ (display_row_first_In units samples tide_level_m)
                 (display_row_first_near units samples tide_level_m)).
      apply (js_sort_ascending_unique vis_x);
        [apply display_rows_ascending | apply display_rows_perm].
    + intros d [<- | []]. apply in_range_below. apply beach_row_negative.
  - intros d Hd. apply in_map_iff in Hd. destruct Hd as (i & <- & Hi).
    apply in_rev, in_seq in Hi. apply in_range_true, display_row_in_range. lia.
Qed.

Lemma waveEnvelopeData_rows (units : UnitSystem) (samples : list ShoalingPathPoint)
    (tide_level_m distance_from_shore_m : option R) :
  waveEnvelopeData units samples tide_level_m distance_from_shore_m
  = filter (envelope_keep units
              (breakingDistDisplay units (breakingPointFromPhysics samples)
                 distance_from_shore_m))
      (map (display_row units samples tide_level_m) (seq 0 (S numBathyPoints))).
Proof.
  unfold waveEnvelopeData. rewrite visualizationData_rows.
  rewrite filter_app, (filter_none _ [_]).
  - rewrite app_nil_r.
    rewrite (push_shore_noop _ _ (display_row units samples tide_level_m 0)).
    + apply (js_sort_ascending_unique vis_x).
      * apply StronglySorted_filter, display_rows_ascending.
      * apply Permutation_filter_same, display_rows_perm.
    + apply filter_In. split; [apply display_row_first_In |].
      apply envelope_keep_shore. rewrite display_row_x, grid_x_first.
      apply convertDistance_0.
    + apply display_row_first_near.
  - intros d [<- | []]. apply envelope_keep_nonneg, beach_row_negative.
Qed.

(** X2.  [bathymetryData] is the same 21 rows on every input, in ascending
    distance: row [i] lies at the display value of [i/20 * 152] m and shows
    the display value of the depth pushed for that grid distance; the beach
    point at -6 m is not among them and no shore row is added. *)
Theorem X2_bathymetryData_is_the_grid (units : UnitSystem)
    (samples : list ShoalingPathPoint) (tide_level_m : option R) :
  bathymetryData units samples tide_level_m
  = map (display_row units samples tide_level_m) (seq 0 (S numBathyPoints)) /\
  length (bathymetryData units samples tide_level_m) = 21%nat /\
  map vis_x (bathymetryData units samples tide_level_m)
  = map (fun i => convertDistance units (grid_x i)) (seq 0 (S numBathyPoints)) /\
  map bathymetryY (bathymetryData units samples tide_level_m)
  = map (fun i => convertHeight units (grid_depth samples tide_level_m (grid_x i)))
        (seq 0 (S numBathyPoints)).
Proof.
  pose proof (bathymetryData_rows units samples tide_level_m) as Hrows.
  split; [exact Hrows |]. rewrite Hrows.
  split; [rewrite length_map, length_seq; reflexivity |].
  split; rewrite map_map; apply map_ext; intros i; reflexivity.
Qed.

(** X3.  The wave envelope is the bathymetry with the rows beyond the
    breaking distance taken out: the rows of [bathymetryData] that pass the
    test of lines 313-319, in the same order.  The row at the shore always
    passes, and with a breaking distance in use that is not positive every
    row does. *)
Theorem X3_envelope_is_filtered_bathymetry (units : UnitSystem)
    (samples : list ShoalingPathPoint) (tide_level_m distance_from_shore_m : option R) :
  let breakingX :=
    breakingDistDisplay units (breakingPointFromPhysics samples) distance_from_shore_m in
  waveEnvelopeData units samples tide_level_m distance_from_shore_m
  = filter (envelope_keep units breakingX) (bathymetryData units samples tide_level_m) /\
  In (display_row units samples tide_level_m 0)
     (waveEnvelopeData units samples tide_level_m distance_from_shore_m) /\
  (breakingX <= 0 ->
   waveEnvelopeData units samples tide_level_m distance_from_shore_m
   = bathymetryData units samples tide_level_m).
Proof.
  intros breakingX. subst breakingX.
  rewrite waveEnvelopeData_rows, bathymetryData_rows.
  split; [reflexivity |]. split.
  - apply filter_In. split.
    + apply in_map, in_seq. unfold numBathyPoints. lia.
    + apply envelope_keep_shore. rewrite display_row_x, grid_x_first.
      apply convertDistance_0.
  - intros Hcut. apply filter_all_true. intros d Hd.
    apply in_map_iff in Hd. destruct Hd as (i & <- & Hi). apply in_seq in Hi.
    unfold envelope_keep. rewrite (num_le_true _ 0 Hcut).
    apply in_range_true, display_row_in_range. lia.
Qed.

(** Without a breaking point and without a default distance the envelope is
    the whole bathymetry. *)
Lemma X3_envelope_witness :
  waveEnvelopeData metric no_break_path None None = bathymetryData metric no_break_path None.
Proof.
  apply (X3_envelope_is_filtered_bathymetry metric no_break_path None None).
  rewrite no_break_detected. unfold breakingDistDisplay, breakingDistM. js_eval. lra.
Defined.

Lemma find_app_first {A : Type} (f : A -> bool) (l1 l2 : list A) (a : A) :
  (forall b, In b l1 -> f b = false) -> f a = true ->
  find f (l1 ++ a :: l2) = Some a.
Proof.
  intros Hl1 Ha. induction l1 as [| b l1 IH]; simpl.
  - rewrite Ha. reflexivity.
  - rewrite (Hl1 b (or_introl eq_refl)). apply IH.
    intros c Hc. apply Hl1. right. exact Hc.
Qed.

Lemma display_row_far (units : UnitSystem) (samples : list ShoalingPathPoint)
    (tide_level_m : option R) (i : nat) :
  (1 <= i)%nat -> near_zero (1 / 100) (vis_x (display_row units samples tide_level_m i)) = false.
Proof.
  intros Hi. unfold near_zero. apply num_lt_false. rewrite display_row_x.
  pose proof (grid_x_lt 0 i ltac:(lia)) as Hlt. rewrite grid_x_first in Hlt.
  assert (H7 : 7 <= grid_x i).
  { unfold grid_x. rewrite INR_numBathyPoints. unfold MAX_DISTANCE_M.
    apply le_INR in Hi. simpl INR in Hi. lra. }
  rewrite Rabs_pos_eq; destruct units; simpl; lra.
Qed.

(** X4.  The two fall-backs that would make up a shore row are never taken:
    the rows in metres are exactly one per bathymetry point (22 rows, none
    added by lines 237-256), the conversion to display units keeps all of
    them, and the shore row looked up on line 282 is always found, it is the
    grid row at distance 0; the [reduce] of lines 285-287 is not reached. *)
Theorem X4_shore_row_is_never_synthesized (units : UnitSystem)
    (samples : list ShoalingPathPoint) (tide_level_m : option R) :
  visualizationDataMeters samples tide_level_m
  = map (envelope_row samples) (bathymetryFromPhysics samples tide_level_m) /\
  visualizationData units samples tide_level_m
  = map (to_display units) (visualizationDataMeters samples tide_level_m) /\
  length (visualizationData units samples tide_level_m) = 22%nat /\
  shorePoint (visualizationData units samples tide_level_m)
  = Some (display_row units samples tide_level_m 0).
Proof.
  split; [rewrite bathymetryFromPhysics_grid; apply visualizationDataMeters_rows |].
  pose proof (visualizationData_rows units samples tide_level_m) as Hrows.
  split.
  { rewrite Hrows, visualizationDataMeters_rows.
    rewrite !map_app, <- !map_rev, !map_map. reflexivity. }
  rewrite Hrows. split.
  { rewrite length_app, length_map, length_rev, length_seq. reflexivity. }
  unfold shorePoint.
  change (seq 0 (S numBathyPoints)) with (0%nat :: seq 1 numBathyPoints).
  cbn [rev]. rewrite map_app, <- app_assoc. cbn [map app].
  rewrite find_app_first; [reflexivity | | apply display_row_first_near].
  intros d Hd. apply in_map_iff in Hd. destruct Hd as (i & <- & Hi).
  apply in_rev, in_seq in Hi. apply display_row_far. lia.
Qed.

(* ------------------------------------------------------------------ *)
(** ** Interpolation stays within the samples *)
(* ------------------------------------------------------------------ *)

Lemma blend_t_unit (d : R) (b a : ShoalingPathPoint) :
  pt_x a <= d <= pt_x b -> pt_x b <> pt_x a -> 0 <= blend_t d b a <= 1.
Proof.
  intros [Ha Hb] Hne. unfold blend_t. rewrite !js_or_0.
  assert (Hpos : 0 < pt_x b - pt_x a) by lra.
  pose proof (Rinv_0_lt_compat _ Hpos) as Hinv.
  unfold Rdiv. split.
  - apply Rmult_le_pos; lra.
  - replace 1 with ((pt_x b - pt_x a) * / (pt_x b - pt_x a)) by (field; lra).
    apply Rmult_le_compat_r; lra.
Qed.

(** The bounds found by the scan enclose the target. *)
Lemma closestBounds_enclose (samples : list ShoalingPathPoint) (d : R)
    (b a : ShoalingPathPoint) :
  closestBounds samples d = (Some b, Some a) ->
  In b samples /\ In a samples /\ pt_x a <= d <= pt_x b.
Proof.
  intros Hbd.
  pose proof (closestBounds_after samples d) as Ha.
  pose proof (closestBounds_before_weak samples d) as Hb.
  rewrite Hbd in Ha, Hb. simpl in Ha, Hb.
  destruct Ha as (Hina & Had & _). destruct Hb as (Hinb & Hdb). auto.
Qed.

Lemma closestBounds_some (samples : list ShoalingPathPoint) (d : R) :
  samples <> [] -> closestBounds samples d <> (None, None).
Proof.
  intros Hne Hbd.
  pose proof (closestBounds_after samples d) as Ha.
  pose proof (closestBounds_before_weak samples d) as Hb.
  rewrite Hbd in Ha, Hb. simpl in Ha, Hb.
  destruct samples as [| p l]; [congruence |].
  specialize (Ha p (or_introl eq_refl)). specialize (Hb p (or_introl eq_refl)). lra.
Qed.

Lemma interpolate_within (f : ShoalingPathPoint -> R) (fallback lo hi : R)
    (samples : list ShoalingPathPoint) (d : R) :
  samples <> [] ->
  (forall p, In p samples -> lo <= f p <= hi) ->
  lo <= interpolate f fallback samples d <= hi.
Proof.
  intros Hne Hf. unfold interpolate.
  pose proof (closestBounds_some samples d Hne) as Hsome.
  pose proof (closestBounds_after samples d) as Ha.
  pose proof (closestBounds_before_weak samples d) as Hb.
  pose proof (closestBounds_enclose samples d) as Henc.
  destruct (closestBounds samples d) as [[b |] [a |]]; simpl in Ha, Hb.
  - destruct (Henc b a eq_refl) as (Hinb & Hina & Hd).
    unfold interp_branch. destruct (num_eq (pt_x b) (pt_x a)) eqn:Hba; cbn [negb interp_value].
    + apply Hf. exact Hinb.
    + num_facts. pose proof (blend_t_unit d b a Hd Hba) as [Ht0 Ht1].
      pose proof (Hf a Hina) as [Hal Hah]. pose proof (Hf b Hinb) as [Hbl Hbh].
      set (t := blend_t d b a) in *.
      replace (f a + t * (f b - f a)) with ((1 - t) * f a + t * f b) by ring.
      split.
      * replace lo with ((1 - t) * lo + t * lo) by ring.
        apply Rplus_le_compat; apply Rmult_le_compat_l; lra.
      * replace hi with ((1 - t) * hi + t * hi) by ring.
        apply Rplus_le_compat; apply Rmult_le_compat_l; lra.
  - simpl. apply Hf. tauto.
  - simpl. apply Hf. destruct Ha as (Hina & _). exact Hina.
  - congruence.
Qed.

(** X5.  Interpolation never leaves the range of the samples: for a
    non-empty sample set and any target distance, the interpolated value of
    a field lies between the smallest and the largest value the samples
    carry, and the blend weight [t] lies in [0, 1].  So depths and wave
    heights that are not negative in the samples are not negative in
    [h_interp], [H_surf] and [H_surf_m]. *)
Theorem X5_interpolation_within_sample_range
    (samples : list ShoalingPathPoint) (lo hi d : R) :
  samples <> [] ->
  (forall b a, interp_branch (closestBounds samples d) = Blend b a ->
               0 <= blend_t d b a <= 1) /\
  ((forall p, In p samples -> lo <= pt_h p <= hi) -> lo <= h_interp samples d <= hi) /\
  ((forall p, In p samples -> lo <= pt_H p <= hi) ->
   lo <= H_surf_m samples d <= hi /\ (0 <= d -> lo <= H_surf samples d <= hi)).
Proof.
  intros Hne. split.
  { intros b a Hbr. pose proof (closestBounds_enclose samples d) as Henc.
    destruct (closestBounds samples d) as [[b' |] [a' |]]; simpl in Hbr; try discriminate.
    destruct (num_eq (pt_x b') (pt_x a')) eqn:Hba; simpl in Hbr; [discriminate |].
    injection Hbr as <- <-. num_facts.
    apply blend_t_unit; [apply (Henc b' a' eq_refl) | exact Hba]. }
  split.
  { intros Hh. unfold h_interp. apply interpolate_within; [exact Hne |].
    intros p Hp. unfold h_of. rewrite js_or_0. apply Hh. exact Hp. }
  intros HH.
  assert (Hint : lo <= interpolate H_of 0 samples d <= hi).
  { apply interpolate_within; [exact Hne |].
    intros p Hp. unfold H_of. rewrite js_or_0. apply HH. exact Hp. }
  destruct samples as [| p0 l]; [congruence |].
  split.
  - unfold H_surf_m. cbn [length Nat.eqb negb]. exact Hint.
  - intros Hd. unfold H_surf. cbn [length Nat.eqb negb andb].
    rewrite num_le_true by exact Hd. exact Hint.
Qed.

(** The depths of the end-to-end example lie in [0, 5]: so does the
    interpolated depth at 100 m. *)
Lemma X5_interpolation_witness : 0 <= h_interp example_path 100 <= 5.
Proof.
  assert (Hne : example_path <> []) by discriminate.
  apply (proj1 (proj2 (X5_interpolation_within_sample_range example_path 0 5 100 Hne))).
  apply example_path_cases; simpl; lra.
Defined.

(* ------------------------------------------------------------------ *)
(** ** Crest and trough of a row *)
(* ------------------------------------------------------------------ *)

Lemma convertHeight_pos (units : UnitSystem) (v : R) :
  0 < v -> 0 < convertHeight units v.
Proof. destruct units; simpl; lra. Qed.

Lemma convertHeight_mono (units : UnitSystem) (a b : R) :
  a <= b -> convertHeight units a <= convertHeight units b.
Proof. destruct units; simpl; lra. Qed.

Lemma convertHeight_abs (units : UnitSystem) (v : R) :
  Rabs (convertHeight units v) = convertHeight units (Rabs v).
Proof.
  destruct units; simpl; [reflexivity |].
  rewrite Rabs_mult. f_equal. apply Rabs_pos_eq. lra.
Qed.

Lemma display_row_envelope (units : UnitSystem) (samples : list ShoalingPathPoint)
    (b : BathyPoint) :
  let Hs := H_surf samples (bathy_x b) in
  waveCrestY (to_display units (envelope_row samples b))
  = (if num_lt 0 Hs then Some (- convertHeight units (Hs / 2)) else None) /\
  waveTroughY (to_display units (envelope_row samples b))
  = (if num_lt 0 Hs then Some (convertHeight units (Hs / 2)) else None).
Proof.
  cbv zeta. unfold to_display, envelope_row. cbn [waveCrestY waveTroughY].
  destruct (num_lt 0 (H_surf samples (bathy_x b))) eqn:HH; [| split; reflexivity].
  num_facts. split; [| reflexivity].
  rewrite Rabs_left by lra. do 3 f_equal. lra.
Qed.

Lemma display_row_mirrored (units : UnitSystem) (samples : list ShoalingPathPoint)
    (b : BathyPoint) :
  mirrored (to_display units (envelope_row samples b)).
Proof.
  unfold mirrored.
  destruct (display_row_envelope units samples b) as [-> ->].
  destruct (num_lt 0 (H_surf samples (bathy_x b))) eqn:HH; [| exact I].
  num_facts. split; [reflexivity |]. apply convertHeight_pos. lra.
Qed.

(** X6.  In every row of the bathymetry and of the wave envelope the crest
    and the trough are absent together (when the interpolated wave height at
    the row is not positive; always so without samples) or mirror each other
    about the water surface: trough = display value of H/2 > 0,
    crest = - trough. *)
Theorem X6_crest_mirrors_trough (units : UnitSystem)
    (samples : list ShoalingPathPoint) (tide_level_m distance_from_shore_m : option R) :
  Forall mirrored (bathymetryData units samples tide_level_m) /\
  Forall mirrored (waveEnvelopeData units samples tide_level_m distance_from_shore_m) /\
  (forall i,
      let Hs := H_surf samples (grid_x i) in
      waveTroughY (display_row units samples tide_level_m i)
      = (if num_lt 0 Hs then Some (convertHeight units (Hs / 2)) else None) /\
      waveCrestY (display_row units samples tide_level_m i)
      = (if num_lt 0 Hs then Some (- convertHeight units (Hs / 2)) else None)) /\
  (samples = [] ->
   Forall (fun d => waveCrestY d = None /\ waveTroughY d = None)
          (bathymetryData units samples tide_level_m)).
Proof.
  assert (Hall : Forall mirrored (bathymetryData units samples tide_level_m)).
  { rewrite bathymetryData_rows. apply Forall_forall. intros d Hd.
    apply in_map_iff in Hd. destruct Hd as (i & <- & _). apply display_row_mirrored. }
  split; [exact Hall |]. split.
  { rewrite Forall_forall in *. intros d Hd. apply Hall.
    apply (envelope_in_bathymetry units samples tide_level_m distance_from_shore_m d Hd). }
  split.
  { intros i. cbv zeta. unfold display_row.
    destruct (display_row_envelope units samples (grid_point samples tide_level_m i))
      as [Hc Ht].
    split; [exact Ht | exact Hc]. }
  intros ->. rewrite bathymetryData_rows. apply Forall_forall. intros d Hd.
  apply in_map_iff in Hd. destruct Hd as (i & <- & _).
  unfold display_row.
  destruct (display_row_envelope units [] (grid_point [] tide_level_m i)) as [-> ->].
  unfold H_surf. cbn [length Nat.eqb negb andb].
  rewrite num_lt_false by lra. split; reflexivity.
Qed.

(** Without samples no row of the bathymetry carries an envelope. *)
Lemma X6_mirror_witness :
  Forall (fun d => waveCrestY d = None /\ waveTroughY d = None)
         (bathymetryData metric [] None).
Proof.
  apply (X6_crest_mirrors_trough metric [] None None). reflexivity.
Defined.

(* ------------------------------------------------------------------ *)
(** ** The size of the wave surface *)
(* ------------------------------------------------------------------ *)

Lemma breakingPoint_H_range (samples : list ShoalingPathPoint) (b : BreakingPoint)
    (lo hi : R) :
  breakingPointFromPhysics samples = Some b ->
  (forall p, In p samples -> lo <= pt_H p <= hi) ->
  lo <= bp_H b <= hi.
Proof.
  intros Hb HH. destruct (breakingPoint_sample samples b Hb) as (s & Hs & _ & ->).
  simpl. apply HH. exact Hs.
Qed.

Lemma H_surf_m_within (samples : list ShoalingPathPoint) (lo hi d : R) :
  samples <> [] ->
  (forall p, In p samples -> lo <= pt_H p <= hi) ->
  lo <= H_surf_m samples d <= hi.
Proof.
  intros Hne HH.
  assert (Hint : lo <= interpolate H_of 0 samples d <= hi).
  { apply interpolate_within; [exact Hne |].
    intros p Hp. unfold H_of. rewrite js_or_0. apply HH. exact Hp. }
  destruct samples as [| p0 l]; [congruence |].
  unfold H_surf_m. cbn [length Nat.eqb negb]. exact Hint.
Qed.

(** X7.  The drawn wave surface never rises or falls by more than half the
    largest wave height of the samples: with wave heights between 0 and
    Hmax in the samples, every point of the wave surface has an elevation
    of magnitude at most the display value of Hmax/2. *)
Theorem X7_surface_amplitude_bound (units : UnitSystem)
    (samples : list ShoalingPathPoint) (period_s distance_from_shore_m : option R)
    (Hmax : R) :
  (forall p, In p samples -> 0 <= pt_H p <= Hmax) ->
  Forall (fun q => Rabs (wave_y q) <= convertHeight units (Hmax / 2))
         (waveShapeData units samples period_s distance_from_shore_m).
Proof.
  intros HH. apply Forall_forall. intros q Hq.
  assert (Hne : samples <> []).
  { intros ->. contradiction. }
  rewrite waveShapeData_nonempty in Hq by exact Hne.
  apply force_crest_In in Hq. destruct Hq as [Hq | (b & Hb & _ & Hy & _)].
  - apply surface_loop_In in Hq. destruct Hq as (i & _ & -> & _).
    unfold surface_point, surface_y_m, surface_interp. cbn [wave_y].
    rewrite signed_display_convert, convertHeight_abs.
    apply convertHeight_mono.
    match goal with |- Rabs (- (H_surf_m samples ?x / 2) * sin ?ph) <= _ =>
      pose proof (H_surf_m_within samples 0 Hmax x Hne HH) as [HH0 HH1];
      pose proof (SIN_bound ph) as [Hs1 Hs2];
      set (Hm := H_surf_m samples x) in *; set (sn := sin ph) in *
    end.
    rewrite Rabs_mult. rewrite (Rabs_left1 (- (Hm / 2))) by lra.
    assert (Hsin : Rabs sn <= 1) by (apply Rabs_le; split; [exact Hs1 | exact Hs2]).
    eapply Rle_trans; [apply Rmult_le_compat_l; [lra | exact Hsin] |]. lra.
  - rewrite Hy, y_break_display_crest.
    pose proof (breakingPoint_H_range samples b 0 Hmax Hb HH) as [H0 H1].
    rewrite Rabs_Ropp, convertHeight_abs. apply convertHeight_mono.
    rewrite Rabs_pos_eq; lra.
Qed.

(** The wave heights of the end-to-end example are at most 1 m: its wave
    surface stays within half a metre of the water surface. *)
Lemma X7_amplitude_witness :
  Forall (fun q => Rabs (wave_y q) <= 1 / 2) (waveShapeData metric example_path None None).
Proof.
  apply (X7_surface_amplitude_bound metric example_path None None 1).
  apply example_path_cases; simpl; lra.
Defined.

(* ------------------------------------------------------------------ *)
(** ** Where the wave surface starts and ends *)
(* ------------------------------------------------------------------ *)

Lemma fold_max_spec (l : list ShoalingPathPoint) (m : R) :
  let top := fold_left (fun m p => Rmax m (js_or (pt_x p) 0)) l m in
  m <= top /\ (forall p, In p l -> pt_x p <= top) /\
  (top = m \/ exists p, In p l /\ pt_x p = top).
Proof.
  cbv zeta. revert m. induction l as [| q l IH]; intros m; simpl.
  - split; [lra |]. split; [intros p [] | left; reflexivity].
  - rewrite js_or_0. destruct (IH (Rmax m (pt_x q))) as (Hge & Hall & Hex).
    pose proof (Rmax_l m (pt_x q)). pose proof (Rmax_r m (pt_x q)).
    split; [lra |]. split.
    + intros p [<- | Hp]; [lra | apply Hall; exact Hp].
    + destruct Hex as [Heq | (p & Hp & Hx)].
      * destruct (Rle_dec m (pt_x q)) as [Hle | Hgt].
        -- right. exists q. split; [left; reflexivity |].
           rewrite Heq. symmetry. apply Rmax_right. exact Hle.
        -- left. rewrite Heq. apply Rmax_left. lra.
      * right. exists p. split; [right; exact Hp | exact Hx].
Qed.

Lemma maxXFromPath_spec (samples : list ShoalingPathPoint) :
  samples <> [] ->
  (forall p, In p samples -> pt_x p <= maxXFromPath samples) /\
  (exists p, In p samples /\ pt_x p = maxXFromPath samples).
Proof.
  intros Hne. destruct samples as [| p0 l]; [congruence |].
  unfold maxXFromPath. rewrite js_or_0.
  destruct (fold_max_spec l (pt_x p0)) as (Hge & Hall & Hex). split.
  - intros p [<- | Hp]; [exact Hge | apply Hall; exact Hp].
  - destruct Hex as [Heq | (p & Hp & Hx)].
    + exists p0. split; [left; reflexivity | symmetry; exact Heq].
    + exists p. split; [right; exact Hp | exact Hx].
Qed.

(** X8.  The wave surface starts at the farthest sample, but not beyond
    152 m: for a non-empty sample set [maxXFromPath] is the largest sample
    distance, attained by a sample, and [startX] is the smaller of it and
    152; it is not negative when no sample distance is. *)
Theorem X8_surface_starts_at_farthest_sample (samples : list ShoalingPathPoint) :
  samples <> [] ->
  (forall p, In p samples -> pt_x p <= maxXFromPath samples) /\
  (exists p, In p samples /\ pt_x p = maxXFromPath samples) /\
  startX samples <= 152 /\
  ((exists p, In p samples /\ 152 <= pt_x p) -> startX samples = 152) /\
  ((forall p, In p samples -> pt_x p <= 152) -> startX samples = maxXFromPath samples) /\
  ((forall p, In p samples -> 0 <= pt_x p) -> 0 <= startX samples).
Proof.
  intros Hne. destruct (maxXFromPath_spec samples Hne) as (Hall & p & Hp & Hx).
  split; [exact Hall |]. split; [exists p; auto |].
  unfold startX, MAX_DISTANCE_M.
  split; [apply Rmin_l |]. split.
  - intros (q & Hq & H152). specialize (Hall q Hq). apply Rmin_left. lra.
  - split.
    + intros Hle. specialize (Hle p Hp). apply Rmin_right. lra.
    + intros Hnn. specialize (Hnn p Hp). apply Rmin_glb; lra.
Qed.

(** In the end-to-end example the farthest sample lies at 200 m: the wave
    surface starts at 152 m. *)
Lemma X8_start_witness : startX example_path = 152.
Proof.
  assert (Hne : example_path <> []) by discriminate.
  apply (X8_surface_starts_at_farthest_sample example_path Hne).
  exists (mkPoint 200 5 1 8). split; [left; reflexivity | simpl; lra].
Defined.

Lemma startX_nonneg (samples : list ShoalingPathPoint) :
  samples <> [] -> (forall p, In p samples -> 0 <= pt_x p) -> 0 <= startX samples.
Proof.
  intros Hne Hnn. destruct (maxXFromPath_spec samples Hne) as (_ & p & Hp & Hx).
  specialize (Hnn p Hp). unfold startX, MAX_DISTANCE_M. apply Rmin_glb; lra.
Qed.

Lemma surface_x_between (x_start x_end : R) (i : nat) :
  (i <= numPoints)%nat ->
  Rmin x_start x_end <= surface_x x_start x_end i <= Rmax x_start x_end.
Proof.
  intros Hi. unfold surface_x. rewrite INR_numPoints.
  pose proof (pos_INR i) as H0. apply le_INR in Hi. rewrite INR_numPoints in Hi.
  set (t := INR i / 600).
  assert (Ht : 0 <= t <= 1) by (unfold t; lra).
  replace (x_start + (x_end - x_start) * t) with ((1 - t) * x_start + t * x_end) by ring.
  pose proof (Rmin_l x_start x_end). pose proof (Rmin_r x_start x_end).
  pose proof (Rmax_l x_start x_end). pose proof (Rmax_r x_start x_end).
  split.
  - replace (Rmin x_start x_end)
      with ((1 - t) * Rmin x_start x_end + t * Rmin x_start x_end) by ring.
    apply Rplus_le_compat; apply Rmult_le_compat_l; lra.
  - replace (Rmax x_start x_end)
      with ((1 - t) * Rmax x_start x_end + t * Rmax x_start x_end) by ring.
    apply Rplus_le_compat; apply Rmult_le_compat_l; lra.
Qed.

(** The distance of a point of a forced curve: that of a loop point, or the
    breaking distance. *)
Lemma force_crest_x (units : UnitSystem) (bp : option BreakingPoint) (bd : R)
    (data : list WavePoint) (q : WavePoint) :
  In q (force_crest units bp bd data) ->
  (exists p, In p data /\ wave_x q = wave_x p) \/
  (0 <= bd /\ wave_x q = convertDistance units bd).
Proof.
  unfold force_crest. destruct bp as [b |]; [| intros Hq; left; exists q; auto].
  destruct (num_le 0 bd) eqn:Hbd; [| intros Hq; left; exists q; auto]. num_facts.
  rewrite js_sort_In. destruct (existsb _ data).
  - intros Hq. left. apply (in_map wave_x) in Hq. rewrite update_first_x in Hq.
    apply in_map_iff in Hq. destruct Hq as (p & Hx & Hp). exists p. auto.
  - intros Hq. apply in_app_or in Hq. destruct Hq as [Hq | [<- | []]].
    + left. exists q. auto.
    + right. split; [exact Hbd | reflexivity].
Qed.

(** X9.  Every point of the wave surface lies between the start of the
    loop, [startX], and its end, [endX] = max(0, breaking distance in use),
    in whichever order the two come.  When the end does not lie beyond the
    start, the surface reaches neither shoreward of the end nor offshore of
    [startX]; when the breaking distance lies beyond [startX], the surface
    runs from [startX] out to the breaking distance. *)
Theorem X9_surface_between_start_and_breaking_distance (units : UnitSystem)
    (samples : list ShoalingPathPoint) (period_s distance_from_shore_m : option R) :
  let x_start := startX samples in
  let x_end := endX (breakingDistM (breakingPointFromPhysics samples) distance_from_shore_m) in
  let surface := waveShapeData units samples period_s distance_from_shore_m in
  Forall (fun q => convertDistance units (Rmin x_start x_end) <= wave_x q
                   <= convertDistance units (Rmax x_start x_end))
         surface /\
  (x_end <= x_start ->
   Forall (fun q => convertDistance units x_end <= wave_x q
                    <= convertDistance units x_start)
          surface) /\
  (x_start <= x_end ->
   Forall (fun q => convertDistance units x_start <= wave_x q
                    <= convertDistance units x_end)
          surface).
Proof.
  cbv zeta.
  assert (Hall : Forall (fun q =>
                   convertDistance units
                     (Rmin (startX samples)
                        (endX (breakingDistM (breakingPointFromPhysics samples)
                                 distance_from_shore_m)))
                   <= wave_x q
                   <= convertDistance units
                        (Rmax (startX samples)
                           (endX (breakingDistM (breakingPointFromPhysics samples)
                                    distance_from_shore_m))))
                  (waveShapeData units samples period_s distance_from_shore_m)).
  { apply Forall_forall. intros q Hq.
    assert (Hne : samples <> []).
    { intros ->. contradiction. }
    rewrite waveShapeData_nonempty in Hq by exact Hne.
    apply force_crest_x in Hq. destruct Hq as [(p & Hp & ->) | [Hbd ->]].
    - apply surface_loop_In in Hp. destruct Hp as (i & Hi & -> & _).
      unfold surface_point. cbn [wave_x].
      destruct (surface_x_between (startX samples)
                  (endX (breakingDistM (breakingPointFromPhysics samples)
                           distance_from_shore_m)) i Hi) as [Hlo Hhi].
      split; apply convertDistance_mono; assumption.
    - unfold endX. rewrite (Rmax_right 0 _ Hbd).
      split; apply convertDistance_mono; [apply Rmin_r | apply Rmax_r]. }
  split; [exact Hall |]. split.
  - intros Hle. rewrite Rmin_right, Rmax_left in Hall by exact Hle. exact Hall.
  - intros Hle. rewrite Rmin_left, Rmax_right in Hall by exact Hle. exact Hall.
Qed.

(** On the end-to-end example the surface runs from 152 m down to the
    breaking distance, 50 m. *)
Lemma X9_surface_witness :
  Forall (fun q => convertDistance metric 50 <= wave_x q <= convertDistance metric 152)
         (waveShapeData metric example_path None None).
Proof.
  assert (Hbd : breakingDistM (Some (mkBreaking 50 1 (9 / 10) 5)) None = 50).
  { apply breakingDistM_found. simpl. lra. }
  assert (Hstart : startX example_path = 152).
  { unfold startX, maxXFromPath, example_path, MAX_DISTANCE_M. js_eval. reflexivity. }
  assert (Hend : endX 50 = 50).
  { unfold endX. js_test. reflexivity. }
  pose proof (X9_surface_between_start_and_breaking_distance
                metric example_path None None) as H.
  cbv zeta in H. destruct H as (_ & H & _).
  rewrite example_breaking, Hbd, Hstart, Hend in H.
  apply H. lra.
Defined.

Lemma surface_loop_keeps_all (units : UnitSystem) (samples : list ShoalingPathPoint)
    (wavelength offset : R) (bp : option BreakingPoint) (distance_from_shore_m : option R) :
  samples <> [] -> (forall p, In p samples -> 0 <= pt_x p) ->
  surface_loop units samples wavelength offset (startX samples)
    (endX (breakingDistM bp distance_from_shore_m))
    (breakingDistDisplay units bp distance_from_shore_m)
  = map (fun i => surface_point units samples wavelength offset
                    (surface_x (startX samples)
                       (endX (breakingDistM bp distance_from_shore_m)) i))
        (seq 0 (S numPoints)).
Proof.
  intros Hne Hnn. unfold surface_loop. apply filter_all_true.
  intros q Hq. apply in_map_iff in Hq. destruct Hq as (i & <- & Hi).
  apply in_seq in Hi. apply in_range_true. unfold surface_point. cbn [wave_x].
  set (bd := breakingDistM bp distance_from_shore_m).
  destruct (surface_x_between (startX samples) (endX bd) i ltac:(lia)) as [Hlo Hhi].
  pose proof (startX_nonneg samples Hne Hnn) as Hs0.
  assert (Hs1 : startX samples <= 152) by (unfold startX, MAX_DISTANCE_M; apply Rmin_l).
  assert (He0 : 0 <= endX bd) by (unfold endX; apply Rmax_l).
  split.
  - rewrite <- (convertDistance_0 units). apply convertDistance_mono.
    eapply Rle_trans; [| exact Hlo]. apply Rmin_glb; assumption.
  - eapply Rle_trans; [apply convertDistance_mono; exact Hhi |].
    apply Rmax_case.
    + eapply Rle_trans; [| apply Rmax_r].
      unfold MAX_DISTANCE, MAX_DISTANCE_M. apply convertDistance_mono. exact Hs1.
    + unfold endX, breakingDistDisplay. fold bd.
      destruct (num_lt 0 bd) eqn:Hbd; num_facts.
      * rewrite Rmax_right by lra. apply Rmax_l.
      * rewrite Rmax_left by exact Hbd. rewrite convertDistance_0.
        eapply Rle_trans; [| apply Rmax_r]. apply Rlt_le, MAX_DISTANCE_pos.
Qed.

(** X10.  With sample distances that are not negative the test of line 444
    discards no point of the loop, and the crest is forced by overwriting a
    loop point, never by pushing one (the last loop point lies at the
    breaking distance): the wave surface of a non-empty sample set has
    exactly 601 points. *)
Theorem X10_surface_has_601_points (units : UnitSystem)
    (samples : list ShoalingPathPoint) (period_s distance_from_shore_m : option R) :
  samples <> [] ->
  (forall p, In p samples -> 0 <= pt_x p) ->
  length (waveShapeData units samples period_s distance_from_shore_m) = 601%nat.
Proof.
  intros Hne Hnn. rewrite waveShapeData_nonempty by exact Hne.
  rewrite surface_loop_keeps_all by assumption.
  set (bp := breakingPointFromPhysics samples).
  set (bd := breakingDistM bp distance_from_shore_m).
  set (pt := fun i => surface_point units samples _ _ (surface_x (startX samples) (endX bd) i)).
  assert (Hlen : length (map pt (seq 0 (S numPoints))) = 601%nat).
  { rewrite length_map, length_seq. reflexivity. }
  unfold force_crest. destruct bp as [b |]; [| exact Hlen].
  destruct (num_le 0 bd) eqn:Hbd; [| exact Hlen]. num_facts.
  rewrite js_sort_length.
  replace (existsb _ _) with true; [rewrite update_first_length; exact Hlen |].
  symmetry. apply existsb_exists. exists (pt numPoints). split.
  - apply in_map, in_seq. lia.
  - unfold pt, surface_point. cbn [wave_x]. rewrite surface_x_last.
    unfold endX. rewrite Rmax_right by exact Hbd.
    rewrite Rminus_diag, Rabs_R0. apply num_lt_true. lra.
Qed.

(** The wave surface of the end-to-end example has 601 points. *)
Lemma X10_points_witness :
  length (waveShapeData metric example_path None None) = 601%nat.
Proof.
  apply X10_surface_has_601_points; [discriminate |].
  apply example_path_cases; simpl; lra.
Defined.

(* ------------------------------------------------------------------ *)
(** ** The vertical axis *)
(* ------------------------------------------------------------------ *)

Lemma fold_min_spec (ys : list R) (y : R) :
  fold_left Rmin ys y <= y /\ forall z, In z ys -> fold_left Rmin ys y <= z.
Proof.
  revert y. induction ys as [| w ys IH]; intros y; simpl.
  - split; [lra | intros z []].
  - destruct (IH (Rmin y w)) as [Hle Hall].
    pose proof (Rmin_l y w). pose proof (Rmin_r y w).
    split; [lra |]. intros z [<- | Hz]; [lra | apply Hall; exact Hz].
Qed.

Lemma fold_max_list_spec (ys : list R) (y : R) :
  y <= fold_left Rmax ys y /\ forall z, In z ys -> z <= fold_left Rmax ys y.
Proof.
  revert y. induction ys as [| w ys IH]; intros y; simpl.
  - split; [lra | intros z []].
  - destruct (IH (Rmax y w)) as [Hle Hall].
    pose proof (Rmax_l y w). pose proof (Rmax_r y w).
    split; [lra |]. intros z [<- | Hz]; [lra | apply Hall; exact Hz].
Qed.

Lemma axis_encloses (visData : list VisPoint) (y : R) :
  In y (allYValues visData) ->
  minY visData + 1 / 2 <= y <= maxY visData - 1 / 2.
Proof.
  unfold minY, maxY. destruct (allYValues visData) as [| y0 ys]; [intros [] |].
  destruct (fold_min_spec ys y0) as [Hmin0 Hmin].
  destruct (fold_max_list_spec ys y0) as [Hmax0 Hmax].
  intros [<- | Hy]; [lra |].
  specialize (Hmin y Hy). specialize (Hmax y Hy). lra.
Qed.

Lemma non_null_In (l : list (option R)) (y : R) : In (Some y) l -> In y (non_null l).
Proof.
  intros Hy. unfold non_null. apply in_flat_map. exists (Some y).
  split; [exact Hy | left; reflexivity].
Qed.

Lemma allYValues_zero (visData : list VisPoint) : In 0 (allYValues visData).
Proof.
  unfold allYValues. destruct visData as [| d l]; [left; reflexivity |].
  apply in_or_app. right. apply in_or_app. right. apply in_or_app. right.
  left. reflexivity.
Qed.

Lemma allYValues_row (visData : list VisPoint) (d : VisPoint) :
  In d visData ->
  In (bathymetryY d) (allYValues visData) /\
  (forall c, waveCrestY d = Some c -> In c (allYValues visData)) /\
  (forall t, waveTroughY d = Some t -> In t (allYValues visData)).
Proof.
  intros Hd. unfold allYValues. destruct visData as [| d0 l] eqn:Hv; [contradiction |].
  rewrite <- Hv in *. split; [| split].
  - apply in_or_app. left. apply in_map. exact Hd.
  - intros c Hc. apply in_or_app. right. apply in_or_app. left.
    apply non_null_In. rewrite <- Hc. apply in_map. exact Hd.
  - intros t Ht. apply in_or_app. right. apply in_or_app. right. apply in_or_app. left.
    apply non_null_In. rewrite <- Ht. apply in_map. exact Hd.
Qed.

(** X11.  The vertical axis of the chart encloses everything it is computed
    from, with a margin of 0.5: the water surface (0) and, for every row,
    the depth, the crest and the trough lie in
    [minY + 0.5, maxY - 0.5]; in particular minY <= -0.5 and maxY >= 0.5,
    also for an empty list of rows. *)
Theorem X11_axis_encloses_rows (visData : list VisPoint) :
  minY visData <= - (1 / 2) /\ 1 / 2 <= maxY visData /\
  Forall (fun d =>
            minY visData + 1 / 2 <= bathymetryY d <= maxY visData - 1 / 2 /\
            (forall c, waveCrestY d = Some c ->
                       minY visData + 1 / 2 <= c <= maxY visData - 1 / 2) /\
            (forall t, waveTroughY d = Some t ->
                       minY visData + 1 / 2 <= t <= maxY visData - 1 / 2))
         visData.
Proof.
  pose proof (axis_encloses visData 0 (allYValues_zero visData)) as [H0 H1].
  split; [lra |]. split; [lra |].
  apply Forall_forall. intros d Hd.
  destruct (allYValues_row visData d Hd) as (Hb & Hc & Ht).
  split; [apply axis_encloses; exact Hb |]. split.
  - intros c Hcr. apply axis_encloses, Hc, Hcr.
  - intros t Htr. apply axis_encloses, Ht, Htr.
Qed.

Lemma X11_axis_witness :
  minY [ mkVis 0 3 (Some (- 1)) (Some 1) 0 ] + 1 / 2 <= 1
  <= maxY [ mkVis 0 3 (Some (- 1)) (Some 1) 0 ] - 1 / 2.
Proof.
  pose proof (X11_axis_encloses_rows [ mkVis 0 3 (Some (- 1)) (Some 1) 0 ]) as (_ & _ & Hall).
  apply Forall_inv in Hall. destruct Hall as (_ & _ & Ht).
  apply (Ht 1). reflexivity.
Defined.

(* ------------------------------------------------------------------ *)
(** ** The detected breaking point and the forced crest *)
(* ------------------------------------------------------------------ *)

(** X12.  A detected breaking point has a positive depth, a wave height of
    at least 0.78 times that depth (hence positive) and a phase speed that
    is not 0; the crest forced from it lies above the water surface (its
    elevation is negative) in either unit system. *)
Theorem X12_forced_crest_above_water (units : UnitSystem)
    (samples : list ShoalingPathPoint) (b : BreakingPoint) :
  breakingPointFromPhysics samples = Some b ->
  0 < bp_h b /\ GAMMA_B * bp_h b <= bp_H b /\ 0 < bp_H b /\ bp_c b <> 0 /\
  y_break_display units b < 0.
Proof.
  intros Hb. destruct (breakingPoint_sample samples b Hb) as (s & _ & [Hh Hr] & ->).
  unfold to_breaking. cbn [bp_h bp_H bp_c].
  assert (HH : GAMMA_B * pt_h s <= pt_H s).
  { replace (pt_H s) with (pt_H s / pt_h s * pt_h s) by (field; lra).
    apply Rmult_le_compat_r; lra. }
  assert (Hpos : 0 < pt_H s).
  { unfold GAMMA_B in HH. nra. }
  split; [exact Hh |]. split; [exact HH |]. split; [exact Hpos |].
  split; [apply js_or_nonzero; lra |].
  rewrite y_break_display_crest. cbn [bp_H].
  pose proof (convertHeight_pos units (pt_H s / 2) ltac:(lra)) as Hc. lra.
Qed.

(** The breaking point of the end-to-end example: the forced crest lies
    above the water. *)
Lemma X12_crest_witness : y_break_display metric (mkBreaking 50 1 (9 / 10) 5) < 0.
Proof.
  apply (X12_forced_crest_above_water metric example_path _ example_breaking).
Defined.

(* ------------------------------------------------------------------ *)
(** ** The reference wavelength is a wavelength of the samples *)
(* ------------------------------------------------------------------ *)

Lemma sum_c_bounds (l : list ShoalingPathPoint) (cmin cmax : R) :
  (forall p, In p l -> cmin <= c_of p <= cmax) ->
  INR (length l) * cmin <= fold_right Rplus 0 (map c_of l) <= INR (length l) * cmax.
Proof.
  induction l as [| p l IH]; intros Hc.
  - simpl. lra.
  - rewrite map_cons. cbn [fold_right]. change (length (p :: l)) with (S (length l)).
    rewrite S_INR.
    pose proof (Hc p (or_introl eq_refl)) as [Hlo Hhi].
    destruct IH as [IHlo IHhi]; [intros q Hq; apply Hc; right; exact Hq |].
    lra.
Qed.

Lemma mean_c_bounds (samples : list ShoalingPathPoint) (cmin cmax : R) :
  samples <> [] ->
  (forall p, In p samples -> cmin <= c_of p <= cmax) ->
  cmin <= mean (map c_of samples) <= cmax.
Proof.
  intros Hne Hc. unfold mean. rewrite length_map.
  destruct (sum_c_bounds samples cmin cmax Hc) as [Hlo Hhi].
  assert (Hn : 0 < INR (length samples)).
  { destruct samples as [| p l]; [congruence |]. apply lt_0_INR. simpl. lia. }
  pose proof (Rinv_0_lt_compat _ Hn) as Hinv.
  set (n := INR (length samples)) in *. set (total := fold_right Rplus 0 _) in *.
  unfold Rdiv. split.
  - replace cmin with (n * cmin * / n) by (field; lra).
    apply Rmult_le_compat_r; lra.
  - replace cmax with (n * cmax * / n) by (field; lra).
    apply Rmult_le_compat_r; lra.
Qed.

(** X13.  With phase speeds of the samples between cmin > 0 and cmax and a
    positive wave period, the reference wavelength of a non-empty sample
    set lies between cmin * period and cmax * period, whether it comes from
    the breaking point or from the mean; it is positive, so the default of
    50 and the zero phase offset of line 375 are not used and the curve is
    at a crest at whatever breaking distance is in use. *)
Theorem X13_reference_wavelength_bounds
    (samples : list ShoalingPathPoint) (period cmin cmax : R) :
  samples <> [] ->
  0 < cmin ->
  (forall p, In p samples -> cmin <= pt_c p <= cmax) ->
  0 < period ->
  let wavelength := wavelength_ref (breakingPointFromPhysics samples) samples period in
  cmin * period <= wavelength <= cmax * period /\
  0 < wavelength /\
  (forall breakingDist,
      globalPhaseOffset wavelength breakingDist
      = PI / 2 - (2 * PI / wavelength) * breakingDist /\
      sin ((2 * PI / wavelength) * breakingDist
           + globalPhaseOffset wavelength breakingDist) = 1).
Proof.
  intros Hne Hcmin Hc Hperiod wavelength.
  assert (Hcof : forall p, In p samples -> cmin <= c_of p <= cmax).
  { intros p Hp. pose proof (Hc p Hp). unfold c_of. rewrite js_or_truthy by lra. lra. }
  assert (Hbounds : cmin * period <= wavelength <= cmax * period).
  { unfold wavelength. rewrite wavelength_ref_L_ref by exact Hne. unfold L_ref.
    destruct (breakingPointFromPhysics samples) as [b |] eqn:Hb.
    - destruct (breakingPoint_sample samples b Hb) as (s & Hs & _ & ->).
      unfold to_breaking. cbn [bp_c]. fold (c_of s).
      pose proof (Hcof s Hs) as [Hlo Hhi].
      split; apply Rmult_le_compat_r; lra.
    - pose proof (mean_c_bounds samples cmin cmax Hne Hcof) as [Hlo Hhi].
      split; apply Rmult_le_compat_r; lra. }
  assert (Hpos : 0 < wavelength).
  { pose proof (Rmult_lt_0_compat cmin period Hcmin Hperiod). lra. }
  split; [exact Hbounds |]. split; [exact Hpos |].
  intros breakingDist.
  split; [apply globalPhaseOffset_pos | apply crest_phase]; exact Hpos.
Qed.

(** The phase speeds of the variant of the end-to-end example lie between 3
    and 7 m/s; with the period of 11 s its reference wavelength is
    positive. *)
Lemma X13_wavelength_witness :
  0 < wavelength_ref (breakingPointFromPhysics example_path_other_speeds)
        example_path_other_speeds 11.
Proof.
  assert (Hne : example_path_other_speeds <> []) by discriminate.
  apply (X13_reference_wavelength_bounds example_path_other_speeds 11 3 7 Hne);
    [lra | | lra].
  intros p [<- | [<- | [<- | []]]]; simpl; lra.
Defined.

(* ------------------------------------------------------------------ *)
(** ** Unit conversion *)
(* ------------------------------------------------------------------ *)

(** X14.  The sign-preserving conversion of an elevation (lines 436-438 and
    464-466) is the plain conversion of a height: the two branches agree
    with [convertHeight], the sign of the elevation is kept and its
    magnitude is the converted magnitude. *)
Theorem X14_signed_display_preserves_sign (units : UnitSystem) (y_m : R) :
  signed_display units y_m = convertHeight units y_m /\
  Rabs (signed_display units y_m) = convertHeight units (Rabs y_m) /\
  (signed_display units y_m < 0 <-> y_m < 0) /\
  (signed_display units y_m = 0 <-> y_m = 0) /\
  signed_display metric y_m = y_m.
Proof.
  assert (Heq : forall u, signed_display u y_m = convertHeight u y_m).
  { intros u. unfold signed_display. destruct (num_lt y_m 0) eqn:Hy; [| reflexivity].
    num_facts. rewrite Rabs_left by exact Hy. destruct u; simpl; lra. }
  rewrite !Heq. split; [reflexivity |].
  split; [apply convertHeight_abs |].
  split; [destruct units; simpl; lra |].
  split; [destruct units; simpl; lra | reflexivity].
Qed.

Lemma X14_sign_witness : signed_display imperial (- 1) < 0.
Proof.
  apply (X14_signed_display_preserves_sign imperial (- 1)). lra.
Defined.

(** X15.  The unit switch toggles between two states (twice is the
    identity).  In metric every conversion returns its argument; in either
    system every conversion is strictly increasing; heights and distances
    use the same factor and keep 0; the temperature conversion leaves
    exactly -40 unchanged. *)
Theorem X15_unit_conversions (units : UnitSystem) (a b : R) :
  toggleUnits (toggleUnits units) = units /\
  toggleUnits units <> units /\
  (convertHeight metric a = a /\ convertDistance metric a = a /\
   convertTemp metric a = a /\ convertSpeed metric a = a) /\
  (a < b ->
   convertHeight units a < convertHeight units b /\
   convertDistance units a < convertDistance units b /\
   convertTemp units a < convertTemp units b /\
   convertSpeed units a < convertSpeed units b) /\
  convertHeight units a = convertDistance units a /\
  convertDistance units 0 = 0 /\
  (convertTemp imperial a = a <-> a = -40).
Proof.
  split; [destruct units; reflexivity |].
  split; [destruct units; discriminate |].
  split; [repeat split |].
  split; [intros Hab; destruct units; simpl; repeat split; lra |].
  split; [destruct units; reflexivity |].
  split; [apply convertDistance_0 |].
  simpl. split; intros H; lra.
Qed.

(** 0 degrees is below 100 degrees in Fahrenheit too. *)
Lemma X15_conversion_witness : convertTemp imperial 0 < convertTemp imperial 100.
Proof.
  apply (X15_unit_conversions imperial 0 100). lra.
Defined.

(* ------------------------------------------------------------------ *)
(** ** The phase speed of the envelope loop *)
(* ------------------------------------------------------------------ *)

(** X16.  The envelope loop (line 215) does blend the phase speed by the
    linear rule: between two adjacent samples at distinct distances, with
    sample distances that are not negative and phase speeds that are
    unambiguous at the two distances, its [c] is
    c1 + (c2 - c1)(d - d1)/(d2 - d1), the speeds read as [c || 10]. *)
Theorem X16_envelope_phase_speed_is_linear
    (samples : list ShoalingPathPoint) (s1 s2 : ShoalingPathPoint) (d : R) :
  (forall p, In p samples -> 0 <= pt_x p) ->
  adjacent samples s1 s2 ->
  pt_x s1 <= d <= pt_x s2 ->
  carries c_of samples s1 -> carries c_of samples s2 ->
  c_envelope samples d = linear_rule (pt_x s1) (c_of s1) (pt_x s2) (c_of s2) d.
Proof.
  intros Hnn Hadj Hd Hc1 Hc2.
  pose proof Hadj as (Hin1 & _).
  unfold c_envelope.
  destruct samples as [| p0 l] eqn:Hs; [contradiction |]. rewrite <- Hs in *.
  replace (negb (length samples =? 0)%nat) with true by (rewrite Hs; reflexivity).
  rewrite num_le_true; [| pose proof (Hnn s1 Hin1); lra].
  cbn [andb]. apply interpolate_linear; assumption.
Qed.

(** In the end-to-end example the envelope loop gives 6 m/s at 100 m. *)
Lemma X16_envelope_speed_witness :
  c_envelope example_path 100 = linear_rule 50 5 200 8 100.
Proof.
  assert (Hnn : forall p, In p example_path -> 0 <= pt_x p).
  { apply example_path_cases; simpl; lra. }
  assert (Hadj : adjacent example_path (mkPoint 50 1 (9 / 10) 5) (mkPoint 200 5 1 8)).
  { split; [right; left; reflexivity |].
    split; [left; reflexivity |].
    split; [simpl; lra |].
    apply example_path_cases; simpl; lra. }
  assert (Hc1 : carries c_of example_path (mkPoint 50 1 (9 / 10) 5)).
  { unfold carries.
    apply (example_path_cases
             (fun p => pt_x p = 50 -> c_of p = c_of (mkPoint 50 1 (9 / 10) 5)));
      cbn [pt_x]; intros; lra. }
  assert (Hc2 : carries c_of example_path (mkPoint 200 5 1 8)).
  { unfold carries.
    apply (example_path_cases
             (fun p => pt_x p = 200 -> c_of p = c_of (mkPoint 200 5 1 8)));
      cbn [pt_x]; intros; lra. }
  rewrite (X16_envelope_phase_speed_is_linear example_path
             (mkPoint 50 1 (9 / 10) 5) (mkPoint 200 5 1 8) 100 Hnn Hadj
             ltac:(simpl; lra) Hc1 Hc2).
  cbn [pt_x]. unfold c_of. cbn [pt_c].
  rewrite (js_or_truthy 5 10), (js_or_truthy 8 10) by lra. reflexivity.
Defined.

(* ------------------------------------------------------------------ *)
(** ** The order of the samples does not matter *)
(* ------------------------------------------------------------------ *)

Lemma StronglySorted_strict (l : list ShoalingPathPoint) :
  StronglySorted (fun a b => pt_x b <= pt_x a) l -> NoDup (map pt_x l) ->
  StronglySorted (fun a b => pt_x b < pt_x a) l.
Proof.
  induction 1 as [| a l Hs IH Hall]; intros Hnd; [constructor |].
  simpl in Hnd. apply NoDup_cons_iff in Hnd. destruct Hnd as [Hnot Hnd].
  constructor; [apply IH; exact Hnd |].
  rewrite Forall_forall in *. intros b Hb. specialize (Hall b Hb).
  destruct (Req_dec_T (pt_x b) (pt_x a)) as [Heq | Hne]; [| lra].
  exfalso. apply Hnot. rewrite <- Heq. apply in_map. exact Hb.
Qed.

Lemma sortedPath_perm_invariant (samples samples' : list ShoalingPathPoint) :
  Permutation samples samples' -> NoDup (map pt_x samples) ->
  sortedPath samples = sortedPath samples'.
Proof.
  intros Hperm Hnd. unfold sortedPath at 1.
  apply (js_sort_descending_unique (fun p => js_or (pt_x p) 0)).
  - eapply StronglySorted_weaken;
      [| apply StronglySorted_strict; [apply sortedPath_decreasing |]].
    + intros a b Hab. cbn beta. rewrite !js_or_0. exact Hab.
    + eapply Permutation_NoDup; [| exact Hnd].
      apply Permutation_map. eapply perm_trans; [exact Hperm | apply sortedPath_perm].
  - eapply perm_trans; [exact Hperm | apply sortedPath_perm].
Qed.

Lemma distinct_distances (samples : list ShoalingPathPoint) (p q : ShoalingPathPoint) :
  NoDup (map pt_x samples) -> In p samples -> In q samples -> pt_x p = pt_x q -> p = q.
Proof.
  induction samples as [| a l IH]; intros Hnd Hp Hq Hx; [contradiction |].
  simpl in Hnd. apply NoDup_cons_iff in Hnd. destruct Hnd as [Hnot Hnd].
  destruct Hp as [<- | Hp], Hq as [<- | Hq].
  - reflexivity.
  - exfalso. apply Hnot. rewrite Hx. apply in_map. exact Hq.
  - exfalso. apply Hnot. rewrite <- Hx. apply in_map. exact Hp.
  - apply IH; assumption.
Qed.

Lemma carries_distinct (f : ShoalingPathPoint -> R) (samples : list ShoalingPathPoint)
    (s : ShoalingPathPoint) :
  NoDup (map pt_x samples) -> In s samples -> carries f samples s.
Proof.
  intros Hnd Hs p Hp Hx. rewrite (distinct_distances samples p s Hnd Hp Hs Hx). reflexivity.
Qed.

(** Away from the sample distances, and not below the shore, the scan finds
    the nearest sample on either side, whatever the order of the samples. *)
Lemma closestBounds_perm_invariant (samples samples' : list ShoalingPathPoint) (d : R) :
  Permutation samples samples' -> NoDup (map pt_x samples) ->
  0 <= d -> (forall p, In p samples -> pt_x p <> d) ->
  closestBounds samples d = closestBounds samples' d.
Proof.
  intros Hperm Hnd Hd Hoff.
  assert (Hin : forall p, In p samples <-> In p samples').
  { intros p. split; apply Permutation_in; [exact Hperm | apply Permutation_sym, Hperm]. }
  assert (Hnz : forall q, In q samples -> d <= pt_x q -> pt_x q <> 0).
  { intros q Hq Hdq. specialize (Hoff q Hq). lra. }
  assert (Hnz' : forall q, In q samples' -> d <= pt_x q -> pt_x q <> 0).
  { intros q Hq. apply Hnz, Hin, Hq. }
  pose proof (closestBounds_after samples d) as Ha.
  pose proof (closestBounds_after samples' d) as Ha'.
  pose proof (closestBounds_before samples d Hnz) as Hb.
  pose proof (closestBounds_before samples' d Hnz') as Hb'.
  destruct (closestBounds samples d) as [cb ca].
  destruct (closestBounds samples' d) as [cb' ca'].
  simpl in Ha, Ha', Hb, Hb'. f_equal.
  - destruct cb as [b |], cb' as [b' |]; simpl in Hb, Hb'.
    + destruct Hb as (Hinb & Hdb & Hmin), Hb' as (Hinb' & Hdb' & Hmin').
      apply Hin in Hinb'. f_equal.
      apply (distinct_distances samples b b' Hnd Hinb Hinb').
      specialize (Hmin b' Hinb' Hdb'). specialize (Hmin' b (proj1 (Hin b) Hinb) Hdb). lra.
    + destruct Hb as (Hinb & Hdb & _). specialize (Hb' b (proj1 (Hin b) Hinb)). lra.
    + destruct Hb' as (Hinb' & Hdb' & _). specialize (Hb b' (proj2 (Hin b') Hinb')). lra.
    + reflexivity.
  - destruct ca as [a |], ca' as [a' |]; simpl in Ha, Ha'.
    + destruct Ha as (Hina & Had & Hmax), Ha' as (Hina' & Had' & Hmax').
      apply Hin in Hina'. f_equal.
      apply (distinct_distances samples a a' Hnd Hina Hina').
      specialize (Hmax a' Hina' Had'). specialize (Hmax' a (proj1 (Hin a) Hina) Had). lra.
    + destruct Ha as (Hina & Had & _). specialize (Ha' a (proj1 (Hin a) Hina)). lra.
    + destruct Ha' as (Hina' & Had' & _). specialize (Ha a' (proj2 (Hin a') Hina')). lra.
    + reflexivity.
Qed.

Lemma interpolate_perm_invariant (f : ShoalingPathPoint -> R) (fallback : R)
    (samples samples' : list ShoalingPathPoint) (d : R) :
  Permutation samples samples' -> NoDup (map pt_x samples) ->
  (forall p, In p samples -> 0 <= pt_x p) -> 0 <= d ->
  interpolate f fallback samples d = interpolate f fallback samples' d.
Proof.
  intros Hperm Hnd Hnn Hd.
  assert (Hnd' : NoDup (map pt_x samples')).
  { eapply Permutation_NoDup; [apply Permutation_map; exact Hperm | exact Hnd]. }
  assert (Hnn' : forall p, In p samples' -> 0 <= pt_x p).
  { intros p Hp. apply Hnn. eapply Permutation_in; [apply Permutation_sym, Hperm | exact Hp]. }
  destruct (Exists_dec (fun p => pt_x p = d) samples (fun p => Req_dec_T (pt_x p) d))
    as [Hex | Hno].
  - apply Exists_exists in Hex. destruct Hex as (s & Hs & <-).
    assert (Hs' : In s samples') by (eapply Permutation_in; eassumption).
    rewrite (interpolate_at_sample f fallback samples Hnn s Hs
               (carries_distinct f samples s Hnd Hs)).
    rewrite (interpolate_at_sample f fallback samples' Hnn' s Hs'
               (carries_distinct f samples' s Hnd' Hs')).
    reflexivity.
  - unfold interpolate. rewrite (closestBounds_perm_invariant samples samples' d Hperm Hnd Hd).
    + reflexivity.
    + intros p Hp Hx. apply Hno. apply Exists_exists. exists p. auto.
Qed.

(** X17.  For samples at pairwise distinct distances the detection of the
    breaking point does not depend on the order in which the samples
    arrive: any rearrangement of the samples is scanned in the same order
    and yields the same breaking point. *)
Theorem X17_detection_ignores_sample_order (samples samples' : list ShoalingPathPoint) :
  Permutation samples samples' ->
  NoDup (map pt_x samples) ->
  sortedPath samples = sortedPath samples' /\
  breakingPointFromPhysics samples = breakingPointFromPhysics samples'.
Proof.
  intros Hperm Hnd.
  pose proof (sortedPath_perm_invariant samples samples' Hperm Hnd) as Hsorted.
  split; [exact Hsorted |].
  unfold breakingPointFromPhysics. rewrite Hsorted. reflexivity.
Qed.

(** The end-to-end example listed from the shore outwards. *)
Lemma X17_order_witness :
  breakingPointFromPhysics [ mkPoint 0 0 0 0; mkPoint 50 1 (9 / 10) 5; mkPoint 200 5 1 8 ]
  = Some (mkBreaking 50 1 (9 / 10) 5).
Proof.
  rewrite <- example_breaking. symmetry.
  apply (X17_detection_ignores_sample_order example_path).
  - unfold example_path. apply Permutation_rev.
  - unfold example_path. cbn [map pt_x].
    repeat constructor; cbn [In]; intros Hin;
      repeat match goal with H : _ \/ _ |- _ => destruct H end; lra.
Defined.

(** X18.  For samples at pairwise distinct distances that are not negative,
    interpolation at a target distance that is not negative does not depend
    on the order of the samples: depth, wave height and phase speed
    interpolated from a rearrangement of the samples are the same. *)
Theorem X18_interpolation_ignores_sample_order
    (samples samples' : list ShoalingPathPoint) (d : R) :
  Permutation samples samples' ->
  NoDup (map pt_x samples) ->
  (forall p, In p samples -> 0 <= pt_x p) ->
  0 <= d ->
  h_interp samples d = h_interp samples' d /\
  H_surf samples d = H_surf samples' d /\
  H_surf_m samples d = H_surf_m samples' d /\
  c_envelope samples d = c_envelope samples' d.
Proof.
  intros Hperm Hnd Hnn Hd.
  pose proof (Permutation_length Hperm) as Hlen.
  unfold h_interp, H_surf, H_surf_m, c_envelope. rewrite <- Hlen.
  rewrite (interpolate_perm_invariant h_of _ samples samples' d Hperm Hnd Hnn Hd).
  rewrite (interpolate_perm_invariant H_of _ samples samples' d Hperm Hnd Hnn Hd).
  rewrite (interpolate_perm_invariant c_of _ samples samples' d Hperm Hnd Hnn Hd).
  repeat split; reflexivity.
Qed.

(** The end-to-end example listed from the shore outwards has the same depth
    at 100 m. *)
Lemma X18_order_witness :
  h_interp example_path 100
  = h_interp [ mkPoint 0 0 0 0; mkPoint 50 1 (9 / 10) 5; mkPoint 200 5 1 8 ] 100.
Proof.
  apply (X18_interpolation_ignores_sample_order example_path).
  - unfold example_path. apply Permutation_rev.
  - unfold example_path. cbn [map pt_x].
    repeat constructor; cbn [In]; intros Hin;
      repeat match goal with H : _ \/ _ |- _ => destruct H end; lra.
  - apply example_path_cases; simpl; lra.
  - lra.
Defined.

Lemma sum_perm (l l' : list R) :
  Permutation l l' -> fold_right Rplus 0 l = fold_right Rplus 0 l'.
Proof.
  induction 1 as [| a l l' _ IH | a b l | l1 l2 l3 _ IH1 _ IH2]; simpl; lra.
Qed.

Lemma avgC_perm (samples samples' : list ShoalingPathPoint) :
  Permutation samples samples' -> avgC samples = avgC samples'.
Proof.
  intros Hperm. rewrite !avgC_mean. unfold mean. rewrite !length_map.
  rewrite (Permutation_length Hperm).
  rewrite (sum_perm _ _ (Permutation_map c_of Hperm)). reflexivity.
Qed.

Lemma maxXFromPath_perm (samples samples' : list ShoalingPathPoint) :
  Permutation samples samples' -> maxXFromPath samples = maxXFromPath samples'.
Proof.
  intros Hperm. destruct samples as [| p0 l] eqn:Hs.
  { apply Permutation_nil in Hperm. rewrite Hperm. reflexivity. }
  rewrite <- Hs in *.
  assert (Hne : samples <> []) by (rewrite Hs; discriminate).
  assert (Hne' : samples' <> []).
  { intros ->. apply Permutation_sym, Permutation_nil in Hperm. congruence. }
  destruct (maxXFromPath_spec samples Hne) as (Hall & p & Hp & Hx).
  destruct (maxXFromPath_spec samples' Hne') as (Hall' & p' & Hp' & Hx').
  specialize (Hall p' (Permutation_in _ (Permutation_sym Hperm) Hp')).
  specialize (Hall' p (Permutation_in _ Hperm Hp)). lra.
Qed.

Lemma wavelength_ref_perm (bp : option BreakingPoint)
    (samples samples' : list ShoalingPathPoint) (period : R) :
  Permutation samples samples' ->
  wavelength_ref bp samples period = wavelength_ref bp samples' period.
Proof.
  intros Hperm. unfold wavelength_ref.
  rewrite (Permutation_length Hperm), (avgC_perm _ _ Hperm). reflexivity.
Qed.

Lemma grid_depth_perm (samples samples' : list ShoalingPathPoint)
    (tide_level_m : option R) (x_m : R) :
  Permutation samples samples' -> NoDup (map pt_x samples) ->
  (forall p, In p samples -> 0 <= pt_x p) -> 0 <= x_m ->
  grid_depth samples tide_level_m x_m = grid_depth samples' tide_level_m x_m.
Proof.
  intros Hperm Hnd Hnn Hx. unfold grid_depth.
  destruct samples as [| p l] eqn:Hs.
  { apply Permutation_nil in Hperm. rewrite Hperm. reflexivity. }
  destruct samples' as [| p' l'] eqn:Hs'.
  { apply Permutation_sym, Permutation_nil in Hperm. discriminate. }
  unfold h_interp. apply interpolate_perm_invariant; assumption.
Qed.

Lemma H_surf_perm (samples samples' : list ShoalingPathPoint) (x_m : R) :
  Permutation samples samples' -> NoDup (map pt_x samples) ->
  (forall p, In p samples -> 0 <= pt_x p) ->
  H_surf samples x_m = H_surf samples' x_m.
Proof.
  intros Hperm Hnd Hnn. unfold H_surf. rewrite (Permutation_length Hperm).
  destruct (negb (length samples' =? 0)%nat); [| reflexivity].
  destruct (num_le 0 x_m) eqn:Hx; [| reflexivity]. num_facts. cbn [andb].
  apply interpolate_perm_invariant; assumption.
Qed.

Lemma display_row_perm (units : UnitSystem) (samples samples' : list ShoalingPathPoint)
    (tide_level_m : option R) (i : nat) :
  Permutation samples samples' -> NoDup (map pt_x samples) ->
  (forall p, In p samples -> 0 <= pt_x p) ->
  display_row units samples tide_level_m i = display_row units samples' tide_level_m i.
Proof.
  intros Hperm Hnd Hnn. unfold display_row, grid_point, envelope_row. cbn [bathy_x bathy_h].
  rewrite (grid_depth_perm samples samples' tide_level_m (grid_x i) Hperm Hnd Hnn
             (grid_x_nonneg i)).
  rewrite (H_surf_perm samples samples' (grid_x i) Hperm Hnd Hnn). reflexivity.
Qed.

Lemma surface_point_perm (units : UnitSystem) (samples samples' : list ShoalingPathPoint)
    (wavelength offset x_m : R) :
  Permutation samples samples' -> NoDup (map pt_x samples) ->
  (forall p, In p samples -> 0 <= pt_x p) -> 0 <= x_m ->
  surface_point units samples wavelength offset x_m
  = surface_point units samples' wavelength offset x_m.
Proof.
  intros Hperm Hnd Hnn Hx. unfold surface_point, surface_y_m, surface_interp.
  replace (H_surf_m samples x_m) with (H_surf_m samples' x_m); [reflexivity |].
  unfold H_surf_m. rewrite (Permutation_length Hperm).
  destruct (negb (length samples' =? 0)%nat); [| reflexivity].
  symmetry. apply interpolate_perm_invariant; assumption.
Qed.

(** X19.  For samples at pairwise distinct distances that are not negative,
    the three sequences handed to the chart do not depend on the order in
    which the samples arrive: bathymetry, wave envelope and wave surface of
    a rearrangement of the samples are the same, row for row. *)
Theorem X19_outputs_ignore_sample_order (units : UnitSystem)
    (samples samples' : list ShoalingPathPoint)
    (tide_level_m period_s distance_from_shore_m : option R) :
  Permutation samples samples' ->
  NoDup (map pt_x samples) ->
  (forall p, In p samples -> 0 <= pt_x p) ->
  bathymetryData units samples tide_level_m = bathymetryData units samples' tide_level_m /\
  waveEnvelopeData units samples tide_level_m distance_from_shore_m
  = waveEnvelopeData units samples' tide_level_m distance_from_shore_m /\
  waveShapeData units samples period_s distance_from_shore_m
  = waveShapeData units samples' period_s distance_from_shore_m.
Proof.
  intros Hperm Hnd Hnn.
  assert (Hrows : map (display_row units samples tide_level_m) (seq 0 (S numBathyPoints))
                  = map (display_row units samples' tide_level_m) (seq 0 (S numBathyPoints))).
  { apply map_ext. intros i. apply display_row_perm; assumption. }
  assert (Hbp : breakingPointFromPhysics samples = breakingPointFromPhysics samples').
  { unfold breakingPointFromPhysics.
    rewrite (sortedPath_perm_invariant samples samples' Hperm Hnd). reflexivity. }
  split; [rewrite !bathymetryData_rows; exact Hrows |].
  split; [rewrite !waveEnvelopeData_rows, Hrows, Hbp; reflexivity |].
  destruct samples as [| p0 l] eqn:Hs.
  { apply Permutation_nil in Hperm. rewrite Hperm. reflexivity. }
  rewrite <- Hs in *.
  assert (Hne : samples <> []) by (rewrite Hs; discriminate).
  assert (Hne' : samples' <> []).
  { intros ->. apply Permutation_sym, Permutation_nil in Hperm. congruence. }
  assert (Hnn' : forall p, In p samples' -> 0 <= pt_x p).
  { intros p Hp. apply Hnn. eapply Permutation_in; [apply Permutation_sym, Hperm | exact Hp]. }
  rewrite !waveShapeData_nonempty by assumption.
  rewrite !surface_loop_keeps_all by assumption.
  rewrite <- Hbp. unfold startX.
  rewrite <- (maxXFromPath_perm samples samples' Hperm).
  rewrite <- (wavelength_ref_perm _ samples samples' _ Hperm).
  f_equal. apply map_ext_in. intros i Hi. apply in_seq in Hi.
  apply surface_point_perm; try assumption.
  fold (startX samples).
  destruct (surface_x_between (startX samples)
              (endX (breakingDistM (breakingPointFromPhysics samples)
                       distance_from_shore_m)) i ltac:(lia)) as [Hlo _].
  eapply Rle_trans; [| exact Hlo].
  apply Rmin_glb; [apply startX_nonneg; assumption | unfold endX; apply Rmax_l].
Qed.

(** The end-to-end example listed from the shore outwards draws the same
    wave surface. *)
Lemma X19_order_witness :
  waveShapeData metric example_path None None
  = waveShapeData metric
      [ mkPoint 0 0 0 0; mkPoint 50 1 (9 / 10) 5; mkPoint 200 5 1 8 ] None None.
Proof.
  apply (X19_outputs_ignore_sample_order metric example_path _ None None None).
  - unfold example_path. apply Permutation_rev.
  - unfold example_path. cbn [map pt_x].
    repeat constructor; cbn [In]; intros Hin;
      repeat match goal with H : _ \/ _ |- _ => destruct H end; lra.
  - apply example_path_cases; simpl; lra.
Defined.

(* ------------------------------------------------------------------ *)
(** ** No samples *)
(* ------------------------------------------------------------------ *)

(** X20.  Without samples the transform degrades to the slope profile: an
    empty [shoaling_path_surf] is taken as the sample set even when
    [shoaling_path] holds samples; for the empty sample set no breaking
    point is detected, the breaking distance in use is the default (or 0),
    the wave surface is empty, and the bathymetry shows at grid distance x
    the display value of max(0, 0.03 x + tide level), which does not
    decrease with the distance from the shore. *)
Theorem X20_no_samples (units : UnitSystem)
    (shoaling_path : option (list ShoalingPathPoint))
    (tide_level_m period_s distance_from_shore_m : option R) :
  let tideLevel := match tide_level_m with Some l => l | None => 0 end in
  shoalingPath_of (Some []) shoaling_path = [] /\
  shoalingPath_of None None = [] /\
  breakingPointFromPhysics [] = None /\
  breakingDistM (breakingPointFromPhysics []) distance_from_shore_m
  = match distance_from_shore_m with Some d => d | None => 0 end /\
  waveShapeData units [] period_s distance_from_shore_m = [] /\
  map bathymetryY (bathymetryData units [] tide_level_m)
  = map (fun i => convertHeight units (Rmax 0 (grid_x i * (3 / 100) + tideLevel)))
        (seq 0 (S numBathyPoints)) /\
  Forall (fun d => 0 <= bathymetryY d) (bathymetryData units [] tide_level_m) /\
  Sorted Rle (map bathymetryY (bathymetryData units [] tide_level_m)).
Proof.
  cbv zeta.
  assert (Hdepth : map bathymetryY (bathymetryData units [] tide_level_m)
                   = map (fun i => convertHeight units
                                     (Rmax 0 (grid_x i * (3 / 100)
                                              + match tide_level_m with
                                                | Some l => l
                                                | None => 0
                                                end)))
                         (seq 0 (S numBathyPoints))).
  { rewrite bathymetryData_rows, map_map. apply map_ext. intros i. reflexivity. }
  split; [reflexivity |]. split; [reflexivity |]. split; [reflexivity |].
  split; [apply breakingDistM_not_found |]. split; [reflexivity |].
  split; [exact Hdepth |]. split.
  - apply Forall_forall. intros d Hd. apply (in_map bathymetryY) in Hd.
    rewrite Hdepth in Hd. apply in_map_iff in Hd. destruct Hd as (i & <- & _).
    assert (H0 : convertHeight units 0 = 0) by (destruct units; simpl; lra).
    apply Rle_trans with (convertHeight units 0); [rewrite H0; lra |].
    apply convertHeight_mono, Rmax_l.
  - rewrite Hdepth. apply StronglySorted_Sorted, StronglySorted_seq_map.
    intros i j Hij. apply convertHeight_mono.
    pose proof (grid_x_lt i j Hij). apply Rle_max_compat_l. lra.
Qed.

(* ------------------------------------------------------------------ *)
(** ** The breaking marker and the forced crest *)
(* ------------------------------------------------------------------ *)

(** X21.  With distances that are not negative (of the detected breaking
    point and of the default) the breaking distance in use is not negative
    and the distance of the breaking marker and envelope cut-off,
    [breakingDistDisplay], is the display value of [breakingDistM], the
    distance at which the crest is forced: marker and crest coincide.  A
    breaking point detected at a positive distance overrides the default. *)
Theorem X21_marker_at_forced_crest (units : UnitSystem) (bp : option BreakingPoint)
    (distance_from_shore_m : option R) :
  (forall b, bp = Some b -> 0 <= bp_x b) ->
  (forall d, distance_from_shore_m = Some d -> 0 <= d) ->
  0 <= breakingDistM bp distance_from_shore_m /\
  breakingDistDisplay units bp distance_from_shore_m
  = convertDistance units (breakingDistM bp distance_from_shore_m) /\
  (forall b, bp = Some b -> 0 < bp_x b ->
             breakingDistM bp distance_from_shore_m = bp_x b).
Proof.
  intros Hbp Hapi.
  assert (Hdefault : 0 <= opt_or distance_from_shore_m 0).
  { destruct distance_from_shore_m as [d |]; cbn [opt_or]; [| lra].
    rewrite js_or_0. apply Hapi. reflexivity. }
  assert (Hnn : 0 <= breakingDistM bp distance_from_shore_m).
  { unfold breakingDistM. destruct bp as [b |]; cbn [option_map opt_or]; [| exact Hdefault].
    specialize (Hbp b eq_refl). unfold js_or at 1.
    destruct (truthy (bp_x b)); [exact Hbp | exact Hdefault]. }
  split; [exact Hnn |]. split.
  - unfold breakingDistDisplay.
    destruct (num_lt 0 (breakingDistM bp distance_from_shore_m)) eqn:Hpos;
      [reflexivity |].
    num_facts.
    assert (Hzero : breakingDistM bp distance_from_shore_m = 0) by lra.
    rewrite Hzero, convertDistance_0.
    destruct distance_from_shore_m as [d |]; [| reflexivity].
    assert (Hd : d = 0).
    { specialize (Hapi d eq_refl).
      destruct (Req_dec_T d 0) as [Hd | Hd]; [exact Hd |]. exfalso.
      revert Hzero. unfold breakingDistM. cbn [opt_or].
      rewrite (js_or_truthy d 0 Hd).
      destruct bp as [b |]; cbn [option_map opt_or]; [| intros; lra].
      unfold js_or, truthy. destruct (num_eq (bp_x b) 0) eqn:Hb; cbn [negb];
        num_facts; intros; lra. }
    rewrite Hd. apply convertDistance_0.
  - intros b -> Hx. apply breakingDistM_found. lra.
Qed.

(** A breaking point detected at 50 m overrides a default of 30 m. *)
Lemma X21_marker_witness :
  breakingDistDisplay imperial (Some (mkBreaking 50 1 (9 / 10) 5)) (Some 30)
  = convertDistance imperial
      (breakingDistM (Some (mkBreaking 50 1 (9 / 10) 5)) (Some 30)).
Proof.
  apply (X21_marker_at_forced_crest imperial (Some (mkBreaking 50 1 (9 / 10) 5)) (Some 30)).
  - intros b [= <-]. simpl. lra.
  - intros d [= <-]. lra.
Defined.
